(** * Flamework class-declaration transformer: model and verified properties

    A shallow embedding of [transformClassDeclaration] and of the functions it
    drives ([updateClass], [calculateOmittedGuards], [updateAttributeGuards],
    [updateInstanceGuard], [updateComponentConfig], [generateFlameworkConfig]).
    Two revisions of the file are modelled: the later one, which rewrites the
    members of components, and the earlier one (module [Legacy]). Line
    numbers in the comments are those of the later revision.

    The TypeScript compiler API, the transformer's [TransformState] and the
    helpers imported from [util/] are collaborators whose code lives elsewhere;
    they appear here as fields of the [TransformState] record, so that a call
    such as [buildGuardFromType state file type] reads as in the source. What
    these collaborators record on the side (imports added to a file, identifiers
    handed out, the class printed by [console.log]) is not observed by the
    functions modelled here and is left out.

    Conventions.
    - An AST node below the level of class members is a [Node]: an identity,
      a syntax kind, a text and its children in [forEachChild] order.
    - JavaScript's [===] on objects is equality of the modelled values; every
      source node carries its own [node_id], so distinct source nodes differ.
    - A fatal diagnostic ([Diagnostics.error]) and a dereference of
      [undefined] both abort the call: functions that can abort return a
      [Result]. *)

From stdpp Require Import base option list strings gmap.

Set Default Proof Using "Type".

(** ** Abrupt completion *)

Definition NodeId := nat.

Inductive Failure :=
| DiagnosticError (node : NodeId) (message : string)
| TypeError (what : string).

Inductive Result (A : Type) : Type :=
| Ok (a : A)
| Err (e : Failure).
Arguments Ok {A} a.
Arguments Err {A} e.

Global Instance Result_ret : MRet Result := @Ok.
Global Instance Result_bind : MBind Result :=
  λ A B k m, match m with Ok a => k a | Err e => Err e end.

Module Diagnostics.
(** [Diagnostics.error(node, message)] never returns. *)
Definition error {A} (node : NodeId) (message : string) : Result A :=
  Err (DiagnosticError node message).
End Diagnostics.

(** [x.y] on a value that may be [undefined]: the dereference is placed where
    the source first reads a member of the value, or hands it to the checker. *)
Definition deref {A} (what : string) (o : option A) : Result A :=
  match o with
  | Some a => Ok a
  | None => Err (TypeError what)
  end.

(** A loop that threads a value and may abort. *)
Fixpoint foldlM {A B} (step : B → A → Result B) (acc : B) (l : list A) : Result B :=
  match l with
  | [] => Ok acc
  | x :: rest => acc' ← step acc x; foldlM step acc' rest
  end.

(** ** Syntax *)

Inductive SyntaxKind :=
| Identifier | PrivateIdentifier | StringLiteral | NumericLiteral
| ComputedPropertyName
| SuperKeyword | ThisKeyword | UndefinedKeyword | EqualsToken
| CallExpression | PropertyAccessExpression | BinaryExpression
| ArrowFunction | ArrayLiteralExpression | ObjectLiteralExpression
| PropertyAssignment | ShorthandPropertyAssignment | SpreadAssignment
| ExpressionStatement | VariableStatement | Block
| ArrayBindingPattern | ObjectBindingPattern
| TypeReference | TupleType | UnionType
| MethodDeclarationKind | GetAccessor | SetAccessor
| TrueKeyword | FalseKeyword
| ParameterKind | ConstructorKind
| OtherKind (tag : nat).

Global Instance SyntaxKind_eq_dec : EqDecision SyntaxKind.
Proof. solve_decision. Defined.

#[warnings="-register-all"]
Inductive Node :=
| mkNode (id : NodeId) (kind : SyntaxKind) (text : string) (children : list Node).

Definition node_id (n : Node) : NodeId := let 'mkNode i _ _ _ := n in i.
Definition kind (n : Node) : SyntaxKind := let 'mkNode _ k _ _ := n in k.
Definition text (n : Node) : string := let 'mkNode _ _ t _ := n in t.
Definition children (n : Node) : list Node := let 'mkNode _ _ _ c := n in c.

(** Nodes made by the factory have no source position. *)
Definition synthesized : NodeId := 0.

(** [===] on nodes. *)
Global Instance Node_eq_dec : EqDecision Node.
Proof.
  refine (fix go (a b : Node) {struct a} : Decision (a = b) :=
    match a, b with
    | mkNode i k t c, mkNode i' k' t' c' =>
        cast_if_and4 (decide (i = i')) (decide (k = k')) (decide (t = t'))
          ((fix all (l l' : list Node) {struct l} : Decision (l = l') :=
              match l, l' with
              | [], [] => left _
              | x :: l, y :: l' => cast_if_and (go x y) (all l l')
              | _, _ => right _
              end) c c')
    end); congruence.
Defined.

(** ** Symbols and types of the checker *)

(** A [ts.Symbol]: its identity, its name, the identity of its parent symbol
    and its declarations. *)
Record Symbol := {
  sym_id : nat;
  sym_name : string;
  sym_parent : option nat;
  sym_declarations : list NodeId;
}.

(** A [ts.Type] object of the checker, known by its identity. *)
Definition TsType := nat.

Definition SourceFile := NodeId.

(** ** Class-level syntax *)

Record ParameterDeclaration := {
  param_id : NodeId;
  param_name : Node;
  param_type : option Node;
  param_initializer : option Node;
}.

Inductive ClassElement :=
| PropertyDeclaration (id : NodeId) (name : Node)
    (questionToken exclamationToken : bool)
    (type : option Node) (initializer : option Node)
| MethodDeclaration (id : NodeId) (name : Node) (body : option Node)
| ConstructorDeclaration (id : NodeId)
    (parameters : list ParameterDeclaration) (body : option Node)
| OtherClassElement (id : NodeId) (name : option Node).

Inductive HeritageToken := ExtendsKeyword | ImplementsKeyword.

Record ExpressionWithTypeArguments := {
  expression : Node;
  typeArguments : list Node;
}.

Record HeritageClause := {
  token : HeritageToken;
  types : list ExpressionWithTypeArguments;
}.

Record ClassDeclaration := {
  class_id : NodeId;
  class_name : option Node;
  heritageClauses : option (list HeritageClause);
  members : list ClassElement;
}.

Global Instance ParameterDeclaration_eq_dec : EqDecision ParameterDeclaration.
Proof. solve_decision. Defined.
Global Instance ClassElement_eq_dec : EqDecision ClassElement.
Proof. solve_decision. Defined.
Global Instance HeritageToken_eq_dec : EqDecision HeritageToken.
Proof. solve_decision. Defined.

(** [x.name] of a class element; a constructor has none. *)
Definition element_name (x : ClassElement) : option Node :=
  match x with
  | PropertyDeclaration _ name _ _ _ _ => Some name
  | MethodDeclaration _ name _ => Some name
  | ConstructorDeclaration _ _ _ => None
  | OtherClassElement _ name => name
  end.

Definition element_id (x : ClassElement) : NodeId :=
  match x with
  | PropertyDeclaration id _ _ _ _ _ => id
  | MethodDeclaration id _ _ => id
  | ConstructorDeclaration id _ _ => id
  | OtherClassElement id _ => id
  end.

(** ["text" in name]: every property name but a computed one has a text. *)
Definition has_text (name : Node) : bool :=
  match kind name with
  | Identifier | PrivateIdentifier | StringLiteral | NumericLiteral => true
  | _ => false
  end.

(** [x.name && "text" in x.name && x.name.text === s] *)
Definition named (s : string) (name : option Node) : bool :=
  match name with
  | Some n => has_text n && bool_decide (text n = s)
  | None => false
  end.

(** ** Decorators and class information *)

(** [DecoratorInfo]: the ["Base"] form knows the decorator by name only, the
    ["WithNodes"] form also has its declaration and argument expressions. *)
Inductive DecoratorInfo :=
| BaseDecoratorInfo (name : string) (isFlameworkDecorator : bool)
| DecoratorWithNodes (name : string) (isFlameworkDecorator : bool)
    (declaration : NodeId) (arguments : list Node).

Definition dec_name (x : DecoratorInfo) : string :=
  match x with
  | BaseDecoratorInfo name _ => name
  | DecoratorWithNodes name _ _ _ => name
  end.

Definition isFlameworkDecorator (x : DecoratorInfo) : bool :=
  match x with
  | BaseDecoratorInfo _ b => b
  | DecoratorWithNodes _ b _ _ => b
  end.

(** [x.type === "WithNodes"] *)
Definition isWithNodes (x : DecoratorInfo) : bool :=
  match x with
  | BaseDecoratorInfo _ _ => false
  | DecoratorWithNodes _ _ _ _ => true
  end.

Definition dec_declaration (x : DecoratorInfo) : NodeId :=
  match x with
  | BaseDecoratorInfo _ _ => synthesized
  | DecoratorWithNodes _ _ d _ => d
  end.

Definition dec_arguments (x : DecoratorInfo) : list Node :=
  match x with
  | BaseDecoratorInfo _ _ => []
  | DecoratorWithNodes _ _ _ args => args
  end.

Record ClassInfo := {
  isExternal : bool;
  decorators : list DecoratorInfo;
}.

(** ** The transformer's environment *)

Record TypeChecker := {
  getTypeAtLocation : NodeId → option TsType;
  getTypeOfSymbolAtLocation : Symbol → NodeId → option TsType;
  getTypeOfPropertyOfType : TsType → string → option TsType;
  isTypeAssignableTo : TsType → TsType → bool;
  (** [type.getProperty(name)] and [type.getProperties()] *)
  getProperty : TsType → string → option Symbol;
  getProperties : TsType → list Symbol;
}.

Record SymbolProvider := {
  flameworkFile : gmap string Symbol;
  componentsFile : option (gmap string Symbol);
}.

Record TransformState := {
  getSymbol : NodeId → option Symbol;
  getUid : NodeId → string;
  classes : gmap nat ClassInfo;
  typeChecker : TypeChecker;
  symbolProvider : SymbolProvider;
  getSourceFile : NodeId → SourceFile;
  addFileImport : SourceFile → string → string → Node;
  transform : ClassDeclaration → ClassDeclaration;
  transformNode : ClassElement → ClassElement;
  (** helpers imported from [util/functions] *)
  buildGuardFromType : SourceFile → TsType → Node;
  buildGuardsFromType : SourceFile → TsType → list Node;
  getInferExpression : SourceFile → Node;
  getPrettyName : option Node → string → string;
  getSuperClasses : NodeId → list NodeId;
  getUniversalTypeNode : ClassElement → TsType → option Node;
}.

(** ** The node factory *)

(** A value the factory converts to an expression on the fly. *)
#[warnings="-register-all"]
Inductive ConvertableExpression :=
| CString (s : string)
| CBoolean (b : bool)
| CArray (l : list ConvertableExpression)
| CExpression (e : Node).

Coercion CString : string >-> ConvertableExpression.
Coercion CBoolean : bool >-> ConvertableExpression.
Coercion CExpression : Node >-> ConvertableExpression.

(** An optional argument of an [f.update] function: [undefined] keeps the
    old value, [null] removes it. *)
Inductive Change (A : Type) := Keep | Clear | Put (a : A).
Arguments Keep {A}.
Arguments Clear {A}.
Arguments Put {A} a.

Definition change {A} (c : Change A) (old : option A) : option A :=
  match c with
  | Keep => old
  | Clear => None
  | Put a => Some a
  end.

(** [x.name] of an object-literal element and [x.initializer] of a property
    assignment, [typeName] of a type reference. *)
Definition node_name (x : Node) : option Node :=
  match kind x with
  | PropertyAssignment | ShorthandPropertyAssignment
  | MethodDeclarationKind | GetAccessor | SetAccessor => head (children x)
  | _ => None
  end.

Definition node_initializer (x : Node) : option Node :=
  match kind x with
  | PropertyAssignment => children x !! 1
  | _ => None
  end.

Definition typeName (x : Node) : option Node := head (children x).

Definition createThis : Node := mkNode synthesized ThisKeyword "" [].

(** The factory [f] of [util/factory]. Its code is not among the sources at
    hand: every function is modelled by the node that its name and its call
    sites say it builds, with the children in source order. A property name
    given as a string becomes a string literal, which is what the source
    expects when it reads [(x.name as ts.StringLiteral).text]. The flag
    [unique] of [f.identifier], which asks the printer for a fresh name, has
    no effect on the node. *)
Module f.
(** The tests [f.is.constructor], [f.is.object], ... *)
Definition is_constructor (x : ClassElement) : bool :=
  match x with ConstructorDeclaration _ _ _ => true | _ => false end.
Definition is_propertyDeclaration (x : ClassElement) : bool :=
  match x with PropertyDeclaration _ _ _ _ _ _ => true | _ => false end.
Definition is_methodDeclaration (x : ClassElement) : bool :=
  match x with MethodDeclaration _ _ _ => true | _ => false end.
Definition is_kind (k : SyntaxKind) (x : option Node) : bool :=
  match x with Some n => bool_decide (kind n = k) | None => false end.
Definition is_referenceType := is_kind TypeReference.
Definition is_identifier := is_kind Identifier.
Definition is_string := is_kind StringLiteral.
Definition is_call := is_kind CallExpression.
Definition is_object := is_kind ObjectLiteralExpression.
Definition is_propertyAssignmentDeclaration := is_kind PropertyAssignment.

Definition make (k : SyntaxKind) (t : String.string) (c : list Node) : Node :=
  mkNode synthesized k t c.

Definition identifier (name : String.string) (unique : bool) : Node :=
  make Identifier name [].
Definition array (elements : list Node) (multiLine : bool) : Node :=
  make ArrayLiteralExpression "" elements.

Fixpoint toExpression (v : ConvertableExpression) : Node :=
  match v with
  | CString s => make StringLiteral s []
  | CBoolean true => make TrueKeyword "" []
  | CBoolean false => make FalseKeyword "" []
  | CArray l => array (map toExpression l) true
  | CExpression e => e
  end.

Definition string (s : String.string) : Node := toExpression (CString s).

(** [f.object(properties)] on an array of elements. *)
Definition object (properties : list Node) : Node :=
  make ObjectLiteralExpression "" properties.
Definition propertyAssignmentDeclaration
    (name : String.string) (value : ConvertableExpression) : Node :=
  make PropertyAssignment "" [string name; toExpression value].
(** [f.object({ key: value, ... })] on a plain record, keys in order. *)
Definition objectOf (entries : list (String.string * ConvertableExpression)) : Node :=
  object (map (λ e, propertyAssignmentDeclaration e.1 e.2) entries).

Definition statement (e : Node) : Node := make ExpressionStatement "" [e].
Definition call (callee : Node) (args : list ConvertableExpression) : Node :=
  make CallExpression "" (callee :: map toExpression args).
(** [f.field(object, name)] with a name given as a string or as an identifier. *)
Definition field (obj : Node) (name : String.string) : Node :=
  make PropertyAccessExpression "" [obj; identifier name false].
Definition fieldOf (obj : Node) (name : Node) : Node :=
  make PropertyAccessExpression "" [obj; name].
Definition token (k : SyntaxKind) : Node := make k "" [].
Definition binary (l : Node) (op : Node) (r : ConvertableExpression) : Node :=
  make BinaryExpression "" [l; op; toExpression r].
Definition block (statements : list Node) : Node := make Block "" statements.
Definition arrowFunction (body : Node) : Node := make ArrowFunction "" [body].
Definition variableStatement (name : Node) (initializer : Node) : Node :=
  make VariableStatement "" [name; initializer].
Definition arrayBindingDeclaration (names : list Node) : Node :=
  make ArrayBindingPattern "" names.
Definition tupleType (elements : list Node) : Node := make TupleType "" elements.
Definition unionType (members : list Node) : Node := make UnionType "" members.
Definition keywordType (k : SyntaxKind) : Node := make k "" [].

Definition methodDeclaration (name : String.string) (body : Node) : ClassElement :=
  MethodDeclaration synthesized (identifier name false) (Some body).
Definition propertyDeclaration
    (name : Node) (initializer : option Node) (type : option Node) : ClassElement :=
  PropertyDeclaration synthesized name false false type initializer.

Module update.
Definition object (node : Node) (properties : list Node) : Node :=
  mkNode (node_id node) ObjectLiteralExpression (text node) properties.
Definition propertyAssignmentDeclaration
    (node : Node) (initializer : Node) (name : Node) : Node :=
  mkNode (node_id node) PropertyAssignment (text node) [name; initializer].
(** [tokens = "!"] leaves the exclamation token only. *)
Definition propertyDeclaration (node : ClassElement)
    (initializer : Change Node) (exclamation : bool) (type : Change Node)
    : ClassElement :=
  match node with
  | PropertyDeclaration id name q e t i =>
      PropertyDeclaration id name
        (if exclamation then false else q) (if exclamation then true else e)
        (change type t) (change initializer i)
  | _ => node
  end.
Definition parameterDeclaration
    (node : ParameterDeclaration) (name : Node) : ParameterDeclaration :=
  {| param_id := param_id node; param_name := name;
     param_type := param_type node;
     param_initializer := param_initializer node |}.
Definition constructor (node : ClassElement)
    (parameters : list ParameterDeclaration) (body : Node) : ClassElement :=
  ConstructorDeclaration (element_id node) parameters (Some body).
Definition methodDeclaration (node : ClassElement) (body : Node) : ClassElement :=
  match node with
  | MethodDeclaration id name _ => MethodDeclaration id name (Some body)
  | _ => node
  end.
Definition classDeclaration (node : ClassDeclaration)
    (name : option Node) (members : list ClassElement) : ClassDeclaration :=
  {| class_id := class_id node; class_name := name;
     heritageClauses := heritageClauses node; members := members |}.
End update.
End f.

(** ** Annotation configuration: guards and their omission *)

(** [new Set<string>()] with [add]; [new Map<string, V>()] with [set], which
    keeps the position of a key that is already present. *)
Definition Set_add (s : gset string) (x : string) : gset string := s ∪ {[ x ]}.

Fixpoint Map_set {V} (m : list (string * V)) (k : string) (v : V) : list (string * V) :=
  match m with
  | [] => [(k, v)]
  | (k', v') :: m' =>
      if decide (k' = k) then (k, v) :: m' else (k', v') :: Map_set m' k v
  end.

(** [f.is.propertyAssignmentDeclaration(x) && f.is.object(x.initializer)]:
    the assignment, its name and its object literal. *)
Definition objectAssignment (x : option Node) : option (Node * Node * Node) :=
  a ← x;
  name ← node_name a;
  initializer ← node_initializer a;
  if f.is_propertyAssignmentDeclaration (Some a) && f.is_object (Some initializer)
  then Some (a, name, initializer) else None.

(** The names the author wrote in [attributes: { ... }], lines 283-289. *)
Definition customAttributeNames (customAttributes : option Node) : gset string :=
  match objectAssignment customAttributes with
  | Some (_, _, initializer) =>
      foldl (λ omittedNames prop,
               if f.is_string (node_name prop) || f.is_identifier (node_name prop)
               then Set_add omittedNames (from_option text "" (node_name prop))
               else omittedNames)
            ∅ (children initializer)
  | None => ∅
  end.

Definition calculateOmittedGuards (state : TransformState)
    (classDeclaration : ClassDeclaration) (customAttributes : option Node)
    : Result (gset string) :=
  let checker := typeChecker state in
  let omittedNames := customAttributeNames customAttributes in
  type ← deref "type" (getTypeAtLocation checker (class_id classDeclaration));
  match getProperty checker type "attributes" with
  | None => Ok omittedNames
  | Some property =>
  match head (getSuperClasses state (class_id classDeclaration)) with
  | None => Ok omittedNames
  | Some superClass =>
  superType ← deref "superType" (getTypeAtLocation checker superClass);
  match getProperty checker superType "attributes" with
  | None => Ok omittedNames
  | Some superProperty =>
  let attributes :=
    getTypeOfSymbolAtLocation checker property (class_id classDeclaration) in
  superAttributes ← deref "superAttributes"
    (getTypeOfSymbolAtLocation checker superProperty superClass);
  foldlM (λ omittedNames symbol,
            let name := sym_name symbol in
            attributes ← deref "attributes" attributes;
            Ok match getTypeOfPropertyOfType checker attributes name,
                     getTypeOfPropertyOfType checker superAttributes name with
               | Some prop, Some superProp =>
                   if bool_decide (superProp = prop)
                   then Set_add omittedNames name else omittedNames
               | _, _ => omittedNames
               end)
         omittedNames (getProperties checker superAttributes)
  end end end.

(** [attributeGuards.filter((x) => !omittedGuards.has(x.name.text))] *)
Fixpoint filterGuards (omittedGuards : gset string) (attributeGuards : list Node)
    : Result (list Node) :=
  match attributeGuards with
  | [] => Ok []
  | x :: rest =>
      name ← deref "x.name" (node_name x);
      rest' ← filterGuards omittedGuards rest;
      Ok (if bool_decide (text name ∈ omittedGuards) then rest' else x :: rest')
  end.

(** [state.symbolProvider.componentsFile!.get("BaseComponent")] *)
Definition baseComponentSymbol (state : TransformState) : Result Symbol :=
  file ← deref "componentsFile" (componentsFile (symbolProvider state));
  deref "BaseComponent" (file !! "BaseComponent").

(** The functions below return [None] where the source returns [undefined]. *)
Definition updateAttributeGuards (state : TransformState)
    (node : ClassDeclaration) (properties : list Node)
    : Result (option (list Node)) :=
  let checker := typeChecker state in
  let type := getTypeAtLocation checker (class_id node) in
  baseComponent ← baseComponentSymbol state;
  type ← deref "type" type;
  match getProperty checker type "attributes" with
  | None => Ok None
  | Some property =>
  if negb (bool_decide (sym_parent property = Some (sym_id baseComponent)))
  then Ok None else
  match getTypeOfSymbolAtLocation checker property (class_id node) with
  | None => Ok None
  | Some attributesType =>
  let attributes := List.find (λ x, named "attributes" (node_name x)) properties in
  let attributeGuards :=
    buildGuardsFromType state (getSourceFile state (class_id node)) attributesType in
  omittedGuards ← calculateOmittedGuards state node attributes;
  filteredGuards ← filterGuards omittedGuards attributeGuards;
  let properties := filter (λ x, Some x ≠ attributes) properties in
  match objectAssignment attributes with
  | Some (attributes, name, initializer) =>
      Ok (Some (properties ++
            [f.update.propertyAssignmentDeclaration attributes
               (f.update.object initializer (children initializer ++ filteredGuards))
               name]))
  | None =>
      Ok (Some (properties ++
            [f.propertyAssignmentDeclaration "attributes" (f.object filteredGuards)]))
  end
  end end.

Definition updateInstanceGuard (state : TransformState)
    (node : ClassDeclaration) (properties : list Node)
    : Result (option (list Node)) :=
  let checker := typeChecker state in
  let type := getTypeAtLocation checker (class_id node) in
  baseComponent ← baseComponentSymbol state;
  type ← deref "type" type;
  match getProperty checker type "instance" with
  | None => Ok None
  | Some property =>
  if negb (bool_decide (sym_parent property = Some (sym_id baseComponent)))
  then Ok None else
  match head (getSuperClasses state (class_id node)) with
  | None => Ok None
  | Some superClass =>
  match List.find (λ x, named "instanceGuard" (node_name x)) properties with
  | Some customGuard => Ok None
  | None =>
  match getTypeOfSymbolAtLocation checker property (class_id node) with
  | None => Ok None
  | Some instanceType =>
  superType ← deref "superType" (getTypeAtLocation checker superClass);
  match getProperty checker superType "instance" with
  | None => Ok None
  | Some superProperty =>
  match getTypeOfSymbolAtLocation checker superProperty superClass with
  | None => Ok None
  | Some superInstanceType =>
  if negb (isTypeAssignableTo checker superInstanceType instanceType)
  then
    let guard :=
      buildGuardFromType state (getSourceFile state (class_id node)) instanceType in
    Ok (Some (properties ++ [f.propertyAssignmentDeclaration "instanceGuard" guard]))
  else Ok (Some properties)
  end end end end end end.

Definition updateComponentConfig (state : TransformState)
    (node : ClassDeclaration) (properties : list Node) : Result (list Node) :=
  updated ← updateAttributeGuards state node properties;
  let properties := default properties updated in
  updated ← updateInstanceGuard state node properties;
  let properties := default properties updated in
  Ok properties.

Definition generateFlameworkConfig (state : TransformState)
    (node : ClassDeclaration) (decorator : DecoratorInfo) (config : Node)
    : Result Node :=
  let properties := children config in
  (* Automatically generate component attributes *)
  properties ←
    (if bool_decide (dec_name decorator = "Component")
     then updateComponentConfig state node properties
     else Ok properties);
  Ok (f.update.object config
        (f.propertyAssignmentDeclaration "type" (dec_name decorator) :: properties)).

(** ** Traversal *)

(** [ts.forEachChildRecursively(rootNode, cbNode)]: the callback sees every
    proper descendant of the root together with its parent, depth first and in
    source order; the first result that is not [undefined] ends the traversal,
    and so does a callback that throws. *)
Fixpoint visitNode {T} (cbNode : Node → Node → Result (option T))
    (parent current : Node) {struct current} : Result (option T) :=
  res ← cbNode current parent;
  match res with
  | Some r => Ok (Some r)
  | None =>
      match current with
      | mkNode _ _ _ cs =>
          (fix visitNodes (l : list Node) : Result (option T) :=
             match l with
             | [] => Ok None
             | child :: rest =>
                 res ← visitNode cbNode current child;
                 match res with
                 | Some r => Ok (Some r)
                 | None => visitNodes rest
                 end
             end) cs
      end
  end.

Fixpoint visitNodes {T} (cbNode : Node → Node → Result (option T))
    (parent : Node) (l : list Node) : Result (option T) :=
  match l with
  | [] => Ok None
  | child :: rest =>
      res ← visitNode cbNode parent child;
      match res with
      | Some r => Ok (Some r)
      | None => visitNodes cbNode parent rest
      end
  end.

Definition forEachChildRecursively {T} (rootNode : Node)
    (cbNode : Node → Node → Result (option T)) : Result (option T) :=
  visitNodes cbNode rootNode (children rootNode).

(** The proper descendants of a node, in the order of the traversal. *)
Fixpoint descendants (n : Node) : list Node :=
  match n with
  | mkNode _ _ _ cs =>
      (fix go (l : list Node) : list Node :=
         match l with
         | [] => []
         | child :: rest => child :: descendants child ++ go rest
         end) cs
  end.

(** [node.parent] for a node of the tree under [root]. *)
Fixpoint parentIn (root : Node) (n : Node) : option Node :=
  match root with
  | mkNode _ _ _ cs =>
      if bool_decide (n ∈ cs) then Some root
      else
        (fix go (l : list Node) : option Node :=
           match l with
           | [] => None
           | child :: rest =>
               match parentIn child n with
               | Some p => Some p
               | None => go rest
               end
           end) cs
  end.

(** ** The class metadata synthesizer *)

(** A statement of the output with its synthetic leading comment. *)
Record EmittedStatement := {
  leadingComment : option string;
  statement : Node;
}.

(** What the visitor returns: the node alone, or the class followed by the
    statements that register its metadata. *)
Inductive VisitResult :=
| VisitedNode (node : ClassDeclaration)
| VisitedNodes (node : ClassDeclaration) (realFields : list EmittedStatement).

Definition isComponent (x : DecoratorInfo) : bool :=
  isFlameworkDecorator x && bool_decide (dec_name x = "Component").

(** [symbol?.getDeclarations()?.[0]] for the symbol of a node. *)
Definition firstDeclaration (state : TransformState) (node : option Node) : option NodeId :=
  n ← node;
  symbol ← getSymbol state (node_id n);
  head (sym_declarations symbol).

(** The loop over the constructor's parameters. *)
Definition constructorDependency (state : TransformState)
    (param : ParameterDeclaration) : Result string :=
  if negb (f.is_referenceType (param_type param))
  then Diagnostics.error (param_id param) "Expected type reference"
  else
    match firstDeclaration state (param_type param ≫= typeName) with
    | None => Diagnostics.error (param_id param) "Could not find declaration"
    | Some declaration => Ok (getUid state declaration)
    end.

(** The loops over the heritage clauses and over their types. *)
Definition collectImplements (state : TransformState)
    (clauses : list HeritageClause) : list Node :=
  clause ← clauses;
  if bool_decide (token clause ≠ ImplementsKeyword) then [] else
  type ← types clause;
  if negb (f.is_identifier (Some (expression type))) then [] else
  match firstDeclaration state (Some (expression type)) with
  | None => []
  | Some declaration => [f.string (getUid state declaration)]
  end.

(** [state.getUid(state.symbolProvider.flameworkFile.get("OnStart").declarations![0])] *)
Definition onStartUid (state : TransformState) : Result string :=
  symbol ← deref "OnStart" (flameworkFile (symbolProvider state) !! "OnStart");
  declaration ← deref "declarations[0]" (head (sym_declarations symbol));
  Ok (getUid state declaration).

Definition decoratorConfig (state : TransformState) (node : ClassDeclaration)
    (decorator : DecoratorInfo) : Result Node :=
  if isFlameworkDecorator decorator
  then generateFlameworkConfig state node decorator
         (if f.is_object (head (dec_arguments decorator))
          then default (f.object []) (head (dec_arguments decorator))
          else f.object [])
  else Ok (f.objectOf [("type", CString "Arbitrary");
                       ("arguments", CArray (CExpression <$> dec_arguments decorator))]).

(** The statement [Reflect.defineMetadata(node.name, name, value)]. *)
Definition defineMetadata (importIdentifier : Node) (className : Node)
    (field : string * ConvertableExpression) : Node :=
  f.statement
    (f.call (f.field importIdentifier "defineMetadata")
       [CExpression className; CString field.1; field.2]).

(** [ts.addSyntheticLeadingComment(realFields[0], ...)] *)
Definition withLeadingComment (comment : string) (realFields : list Node)
    : list EmittedStatement :=
  match realFields with
  | [] => []
  | first :: rest =>
      {| leadingComment := Some comment; statement := first |}
      :: map (λ s, {| leadingComment := None; statement := s |}) rest
  end.

(** [fields.push(["flamework:dependencies", ...])], lines 25-40. *)
Definition dependenciesField (state : TransformState) (node : ClassDeclaration)
    : Result (list (string * ConvertableExpression)) :=
  match List.find f.is_constructor (members node) with
  | Some (ConstructorDeclaration _ parameters _) =>
      constructorDependencies ← mapM (constructorDependency state) parameters;
      if bool_decide (0 < length parameters)
      then Ok [("flamework:dependencies", CArray (CString <$> constructorDependencies))]
      else Ok []
  | _ => Ok []
  end.

(** The injection of the [OnStart] interface for components, lines 58-70. *)
Definition injectOnStart (state : TransformState) (node : ClassDeclaration)
    (classInfo : ClassInfo) (implementClauses : list Node) : Result (list Node) :=
  if existsb isComponent (decorators classInfo) then
    onStartId ← onStartUid state;
    if negb (existsb (λ x, bool_decide (text x = onStartId)) implementClauses) then
      match List.find (λ x, named "onStart" (element_name x)) (members node) with
      | Some existingOnStart =>
          Diagnostics.error (element_id existingOnStart)
            "Components can not have a member named 'onStart'"
      | None => Ok (implementClauses ++ [f.string onStartId])
      end
    else Ok implementClauses
  else Ok implementClauses.

(** [fields.push(["flamework:implements", ...])], lines 42-75. *)
Definition implementsField (state : TransformState) (node : ClassDeclaration)
    (classInfo : ClassInfo) : Result (list (string * ConvertableExpression)) :=
  match heritageClauses node with
  | Some clauses =>
      let implementClauses := collectImplements state clauses in
      implementClauses ← injectOnStart state node classInfo implementClauses;
      if bool_decide (0 < length implementClauses)
      then Ok [("flamework:implements", CExpression (f.array implementClauses false))]
      else Ok []
  | None => Ok []
  end.

(** One turn of the loop over the decorators with nodes, lines 80-93, on the
    identifiers pushed so far and the map of configurations. *)
Definition collectDecorator (state : TransformState) (node : ClassDeclaration)
    (acc : list string * list (string * Node)) (decorator : DecoratorInfo)
    : Result (list string * list (string * Node)) :=
  let id := getUid state (dec_declaration decorator) in
  config ← decoratorConfig state node decorator;
  Ok (acc.1 ++ [id], Map_set acc.2 id config).

Definition collectDecorators (state : TransformState) (node : ClassDeclaration)
    (decorators : list DecoratorInfo)
    : Result (list string * list (string * Node)) :=
  foldlM (collectDecorator state node) ([], []) decorators.

(** [fields.push(["flamework:decorators", ...])] and the following loop,
    lines 95-98. *)
Definition decoratorFields (decoratorIds : list string)
    (decoratorConfigs : list (string * Node))
    : list (string * ConvertableExpression) :=
  ("flamework:decorators", CArray (CString <$> decoratorIds))
  :: ((λ entry, ("flamework:decorators." +:+ entry.1, CExpression entry.2))
        <$> decoratorConfigs).

(** The array [fields] of [transformClassDeclaration], lines 20-98. *)
Definition metadataFields (state : TransformState) (node : ClassDeclaration)
    (classInfo : ClassInfo) : Result (list (string * ConvertableExpression)) :=
  let fields :=
    [("identifier", CString (getUid state (class_id node)));
     ("flamework:isExternal", CBoolean (isExternal classInfo))] in
  dependencies ← dependenciesField state node;
  let fields := fields ++ dependencies in
  implements ← implementsField state node classInfo;
  let fields := fields ++ implements in
  let decorators := List.filter isWithNodes (decorators classInfo) in
  collected ← collectDecorators state node decorators;
  Ok (fields ++ decoratorFields collected.1 collected.2).

(** ** The lifecycle rewriter *)

(** Modelled from the spec: [replaceValue] of [util/functions/replaceValue] is
    not among the sources at hand; the rewritten constructor takes the place
    of the original one in the member list (section 4.6, step 3), that is,
    the first element that is [value] becomes [newValue]. *)
Definition replaceValue {A} `{EqDecision A} (array : list A) (value newValue : A)
    : list A :=
  match list_find (λ x, x = value) array with
  | Some (index, _) => <[index := newValue]> array
  | None => array
  end.

(** The loop that fills [memberIndexMapping], lines 129-138; the map is keyed
    by the identity of the symbol. *)
Fixpoint indexMembers (state : TransformState) (i : nat)
    (members : list ClassElement) (memberIndexMapping : gmap nat nat)
    : gmap nat nat :=
  match members with
  | [] => memberIndexMapping
  | member :: rest =>
      indexMembers state (S i) rest
        match member with
        | PropertyDeclaration _ name _ _ _ _ =>
            match getSymbol state (node_id name) with
            | Some symbol => <[sym_id symbol := i]> memberIndexMapping
            | None => memberIndexMapping
            end
        | _ => memberIndexMapping
        end
  end.

(** [validator], lines 150-160. The test [!symbolIndex] holds for an absent
    index and for the index [0]. *)
Definition validator (state : TransformState) (memberIndexMapping : gmap nat nat)
    (i : nat) (node : Node) : Result (option Empty_set) :=
  match getSymbol state (node_id node) with
  | None => Ok None
  | Some symbol =>
      match memberIndexMapping !! sym_id symbol with
      | None => Ok None
      | Some 0 => Ok None
      | Some symbolIndex =>
          if bool_decide (i ≤ symbolIndex)
          then Diagnostics.error (node_id node)
                 ("Property '" +:+ sym_name symbol
                    +:+ "' is used before its initialization.")
          else Ok None
      end
  end.

(** The callback of [members.map], lines 140-192: the new member, and the
    pair it pushes onto [propertyDeclarations]. *)
Definition deferInitializer (state : TransformState) (node : ClassDeclaration)
    (memberIndexMapping : gmap nat nat) (x : ClassElement) (i : nat)
    : Result (ClassElement * list (string * Node)) :=
  match x with
  | PropertyDeclaration _ name questionToken _ declaredType (Some initializer) =>
      if negb (has_text name) then Ok (transformNode state x, []) else
      match getTypeAtLocation (typeChecker state) (node_id name) with
      | None => Ok (transformNode state x, [])
      | Some type =>
          _ ← forEachChildRecursively initializer
                (λ n _, validator state memberIndexMapping i n);
          Ok (match declaredType with
              | Some t =>
                  f.update.propertyDeclaration x Clear true
                    (Put (if questionToken
                          then f.unionType [t; f.keywordType UndefinedKeyword]
                          else t))
              | None =>
                  match getUniversalTypeNode state x type with
                  | Some validTypeNode =>
                      f.update.propertyDeclaration x Clear true (Put validTypeNode)
                  | None =>
                      (* HACK: if the type can't be represented as a TypeNode,
                         use a generic function that returns nil to infer the type *)
                      let inferExpression :=
                        getInferExpression state (getSourceFile state (class_id node)) in
                      f.update.propertyDeclaration x
                        (Put (f.call inferExpression
                                [CExpression (f.arrowFunction initializer)]))
                        false Keep
                  end
              end,
              [(text name, initializer)])
      end
  | _ => Ok (transformNode state x, [])
  end.

(** [members.map((x, i) => ...)] with what the callbacks pushed, in order. *)
Fixpoint mapMembers {X} (callback : ClassElement → nat → Result (ClassElement * list X))
    (i : nat) (members : list ClassElement) : Result (list ClassElement * list X) :=
  match members with
  | [] => Ok ([], [])
  | x :: rest =>
      first ← callback x i;
      others ← mapMembers callback (S i) rest;
      Ok (first.1 :: others.1, first.2 ++ others.2)
  end.

(** A parameter and a constructor as the traversal sees them. *)
Definition parameterNode (p : ParameterDeclaration) : Node :=
  mkNode (param_id p) ParameterKind ""
    (param_name p :: option_list (param_type p) ++ option_list (param_initializer p)).

Definition constructorNode (constructor : ClassElement) : Node :=
  match constructor with
  | ConstructorDeclaration id parameters body =>
      mkNode id ConstructorKind "" (map parameterNode parameters ++ option_list body)
  | _ => mkNode (element_id constructor) (OtherKind 0) "" []
  end.

(** The callback of [constructor.parameters.map], lines 208-218: the name
    pushed onto [parameterNames], the new parameter, and the statement pushed
    onto [constructorStatements]. *)
Definition bindParameter (state : TransformState) (parameter : ParameterDeclaration)
    : Node * ParameterDeclaration * list Node :=
  if f.is_identifier (Some (param_name parameter))
  then (param_name parameter, parameter, [])
  else
    let tempId := f.identifier (getPrettyName state (param_type parameter) "binding") true in
    (tempId, f.update.parameterDeclaration parameter tempId,
     [f.variableStatement (param_name parameter) tempId]).

(** The callback that looks for the call of [super], lines 227-229. *)
Definition isSuperCall (node parent : Node) : Result (option Node) :=
  Ok (if f.is_call (Some parent) && bool_decide (kind node = SuperKeyword)
      then Some parent else None).

(** [this.constructor_parameters = [names]] *)
Definition setConstructorParameters (internalProp : Node) (parameterNames : list Node) : Node :=
  f.statement
    (f.binary (f.fieldOf createThis internalProp) (f.token EqualsToken)
       (CArray (CExpression <$> parameterNames))).

(** The block [if (constructor) { ... }], lines 197-248: the new members and
    the statements collected in [constructorStatements]. *)
Definition hoistConstructor (state : TransformState)
    (members : list ClassElement) (constructor : ClassElement)
    : Result (list ClassElement * list Node) :=
  match constructor with
  | ConstructorDeclaration _ parameters body =>
      let internalProp := f.identifier "constructor_parameters" true in
      parameterTypes ← mapM (λ x, deref "x.type" (param_type x)) parameters;
      let members :=
        f.propertyDeclaration internalProp None (Some (f.tupleType parameterTypes))
        :: members in
      let bound := bindParameter state <$> parameters in
      let parameterNames := (λ b, b.1.1) <$> bound in
      let parameters := (λ b, b.1.2) <$> bound in
      let constructorStatements :=
        f.variableStatement (f.arrayBindingDeclaration parameterNames)
          (f.fieldOf createThis internalProp)
        :: concat ((λ b, b.2) <$> bound) in
      superCall ← forEachChildRecursively (constructorNode constructor) isSuperCall;
      body ← deref "constructor.body" body;
      let constructorStatements :=
        constructorStatements
        ++ filter (λ x, Some x ≠ superCall ≫= parentIn (constructorNode constructor))
             (children body) in
      Ok (replaceValue members constructor
            (f.update.constructor constructor parameters
               (f.block
                  match superCall with
                  | Some superCall =>
                      [f.statement superCall;
                       setConstructorParameters internalProp parameterNames]
                  | None => [setConstructorParameters internalProp parameterNames]
                  end)),
          constructorStatements)
  | _ => Ok (members, [])
  end.

(** [this.name = initializer] *)
Definition assignProperty (declaration : string * Node) : Node :=
  f.statement
    (f.binary (f.field createThis declaration.1) (f.token EqualsToken)
       (CExpression declaration.2)).

(** The lifecycle hook and the members it is looked up in, lines 117-124:
    a hook that is missing is made and put first. *)
Definition locateOnStart (members : list ClassElement) : ClassElement * list ClassElement :=
  match list_find (λ x, named "onStart" (element_name x)) members with
  | Some (_, onStart) => (onStart, members)
  | None =>
      let onStart := f.methodDeclaration "onStart" (f.block []) in
      (onStart, onStart :: members)
  end.

(** The body of [if (decorators.some(...)) { ... }], lines 117-269. *)
Definition rewriteMembers (state : TransformState) (node : ClassDeclaration)
    (members : list ClassElement) : Result (list ClassElement) :=
  let onStart := (locateOnStart members).1 in
  let members := (locateOnStart members).2 in
  match onStart with
  | MethodDeclaration _ _ (Some onStartBody) =>
      let memberIndexMapping := indexMembers state 0 members ∅ in
      mapped ← mapMembers (deferInitializer state node memberIndexMapping) 0 members;
      let members := mapped.1 in
      let propertyDeclarations := mapped.2 in
      hoisted ←
        match list_find (λ x, f.is_constructor x) members with
        | Some (_, constructor) => hoistConstructor state members constructor
        | None => Ok (members, [])
        end;
      let members := hoisted.1 in
      let constructorStatements := hoisted.2 in
      let newOnStart :=
        f.update.methodDeclaration onStart
          (f.block ((assignProperty <$> propertyDeclarations)
                      ++ f.block constructorStatements :: children onStartBody)) in
      Ok match list_find (λ x, named "onStart" (element_name x)) members with
         | Some (onStartIndex, _) => <[onStartIndex := newOnStart]> members
         | None => members
         end
  | _ => Ok members
  end.

Definition updateClass (state : TransformState) (node : ClassDeclaration)
    (decorators : list DecoratorInfo) : Result ClassDeclaration :=
  members ←
    (if existsb isComponent decorators
     then rewriteMembers state node (members node)
     else Ok (members node));
  Ok (transform state (f.update.classDeclaration node (class_name node) members)).

(** The two ends of [transformClassDeclaration], lines 100-110: the fields
    become statements, the first one gets the comment, and the rewritten
    class comes first. *)
Definition emitFields (state : TransformState) (node : ClassDeclaration)
    (name : Node) (fields : list (string * ConvertableExpression))
    : list EmittedStatement :=
  let importIdentifier :=
    addFileImport state (getSourceFile state (class_id node)) "@flamework/core" "Reflect" in
  withLeadingComment ("(Flamework) " +:+ text name +:+ " metadata")
    (defineMetadata importIdentifier name <$> fields).

Definition transformClassDeclaration (state : TransformState) (node : ClassDeclaration)
    : Result VisitResult :=
  match getSymbol state (class_id node), class_name node with
  | Some symbol, Some name =>
      match classes state !! sym_id symbol with
      | None => Ok (VisitedNode (transform state node))
      | Some classInfo =>
          fields ← metadataFields state node classInfo;
          let decorators := List.filter isWithNodes (decorators classInfo) in
          let realFields := emitFields state node name fields in
          updated ← updateClass state node decorators;
          Ok (VisitedNodes updated realFields)
      end
  | _, _ => Ok (VisitedNode (transform state node))
  end.

(** ** The earlier revision of the transformer

    [transformations/statements/transformClassDeclaration.ts] has the same
    configuration builder, where the factory function that makes a property
    assignment still goes by the name [f.propertyDeclaration]; its
    [transformClassDeclaration] collects the implemented interfaces without
    injecting [OnStart] and leaves the members of the class as they are. *)
Module Legacy.

Definition implementsField (state : TransformState) (node : ClassDeclaration)
    : Result (list (string * ConvertableExpression)) :=
  match heritageClauses node with
  | Some clauses =>
      let implementClauses := collectImplements state clauses in
      if bool_decide (0 < length implementClauses)
      then Ok [("flamework:implements", CExpression (f.array implementClauses false))]
      else Ok []
  | None => Ok []
  end.

Definition metadataFields (state : TransformState) (node : ClassDeclaration)
    (classInfo : ClassInfo) : Result (list (string * ConvertableExpression)) :=
  let fields :=
    [("identifier", CString (getUid state (class_id node)));
     ("flamework:isExternal", CBoolean (isExternal classInfo))] in
  dependencies ← dependenciesField state node;
  let fields := fields ++ dependencies in
  implements ← implementsField state node;
  let fields := fields ++ implements in
  let decorators := List.filter isWithNodes (decorators classInfo) in
  collected ← collectDecorators state node decorators;
  Ok (fields ++ decoratorFields collected.1 collected.2).

Definition transformClassDeclaration (state : TransformState) (node : ClassDeclaration)
    : Result VisitResult :=
  match getSymbol state (class_id node), class_name node with
  | Some symbol, Some name =>
      match classes state !! sym_id symbol with
      | None => Ok (VisitedNode (transform state node))
      | Some classInfo =>
          fields ← metadataFields state node classInfo;
          let realFields := emitFields state node name fields in
          Ok (VisitedNodes
                (transform state
                   (f.update.classDeclaration node (class_name node) (members node)))
                realFields)
      end
  | _, _ => Ok (VisitedNode (transform state node))
  end.

End Legacy.

(** ** A small program to run the transformer on

    A [World] lists what the checker and the transformer's state know; the
    environment built from it answers by table lookup. Guards are rendered as
    [t.instanceIsA("<type name>")], identifiers of declarations as
    ["$<name>"]. *)
Module Examples.

Record World := {
  symbols : list (NodeId * Symbol);
  uids : list (NodeId * string);
  classInfos : list (nat * ClassInfo);
  superClasses : list (NodeId * NodeId);
  typesAt : list (NodeId * TsType);
  typeNames : list (TsType * string);
  properties : list (TsType * list (Symbol * TsType));
  assignable : list (TsType * TsType);
  flameworkSymbols : list (string * Symbol);
  componentsSymbols : list (string * Symbol);
}.

Definition assoc {A} (table : list (nat * A)) (key : nat) : option A :=
  snd <$> List.find (λ entry, bool_decide (entry.1 = key)) table.

Definition propertiesOf (w : World) (t : TsType) : list (Symbol * TsType) :=
  default [] (assoc (properties w) t).

Definition propertyNamed (w : World) (t : TsType) (name : string)
    : option (Symbol * TsType) :=
  List.find (λ entry, bool_decide (sym_name entry.1 = name)) (propertiesOf w t).

Definition typeOfSymbol (w : World) (s : Symbol) : option TsType :=
  snd <$> List.find (λ entry, bool_decide (sym_id entry.1 = sym_id s))
            (concat (snd <$> properties w)).

Definition guardOf (w : World) (t : TsType) : Node :=
  f.call (f.field (f.identifier "t" false) "instanceIsA")
    [CString (default "unknown" (assoc (typeNames w) t))].

Definition checkerOf (w : World) : TypeChecker := {|
  getTypeAtLocation := assoc (typesAt w);
  getTypeOfSymbolAtLocation := λ s _, typeOfSymbol w s;
  getTypeOfPropertyOfType := λ t name, snd <$> propertyNamed w t name;
  isTypeAssignableTo := λ source target,
    bool_decide (source = target) || bool_decide ((source, target) ∈ assignable w);
  getProperty := λ t name, fst <$> propertyNamed w t name;
  getProperties := λ t, fst <$> propertiesOf w t;
|}.

Definition stateOf (w : World) : TransformState := {|
  getSymbol := assoc (symbols w);
  getUid := λ declaration, default "$" (assoc (uids w) declaration);
  classes := list_to_map (classInfos w);
  typeChecker := checkerOf w;
  symbolProvider := {|
    flameworkFile := list_to_map (flameworkSymbols w);
    componentsFile := Some (list_to_map (componentsSymbols w));
  |};
  getSourceFile := λ _, 1;
  addFileImport := λ _ _ name, f.identifier name false;
  transform := λ node, node;
  transformNode := λ x, x;
  buildGuardFromType := λ _ t, guardOf w t;
  buildGuardsFromType := λ _ t,
    (λ entry, f.propertyAssignmentDeclaration (sym_name entry.1)
                (CExpression (guardOf w entry.2))) <$> propertiesOf w t;
  getInferExpression := λ _, f.identifier "inferType" false;
  getPrettyName := λ _ name, name;
  getSuperClasses := λ node, option_list (assoc (superClasses w) node);
  getUniversalTypeNode := λ _ _, None;
|}.

(** Source nodes. *)
Definition ident (id : NodeId) (name : string) : Node := mkNode id Identifier name [].
Definition typeRef (id : NodeId) (name : string) : Node :=
  mkNode id TypeReference "" [ident (S id) name].
Definition this (id : NodeId) : Node := mkNode id ThisKeyword "" [].
(** [this.name] *)
Definition thisField (id : NodeId) (name : string) : Node :=
  mkNode id PropertyAccessExpression "" [this (id + 1); ident (id + 2) name].
Definition number (id : NodeId) (value : string) : Node :=
  mkNode id NumericLiteral value [].
Definition param (id : NodeId) (name type : string) : ParameterDeclaration := {|
  param_id := id; param_name := ident (id + 1) name;
  param_type := Some (typeRef (id + 2) type); param_initializer := None;
|}.
Definition symbol (id : nat) (name : string) (parent : option nat)
    (declarations : list NodeId) : Symbol :=
  {| sym_id := id; sym_name := name; sym_parent := parent;
     sym_declarations := declarations |}.

(** The symbols of the framework: [BaseComponent] and [OnStart]. *)
Definition BaseComponent : Symbol := symbol 2 "BaseComponent" None [20].
Definition OnStart : Symbol := symbol 3 "OnStart" None [30].

(** Instance types of the engine: [Part <: BasePart <: Instance]. *)
Definition Instance_t : TsType := 200.
Definition BasePart_t : TsType := 201.
Definition Part_t : TsType := 202.
Definition string_t : TsType := 210.
Definition literal_t : TsType := 211.
Definition number_t : TsType := 212.

(** *** Components and their guards *)

Definition instanceSymbol (id : nat) : Symbol := symbol id "instance" (Some 2) [].
Definition attributesSymbol (id : nat) : Symbol := symbol id "attributes" (Some 2) [].

(** [@Component() class Sub extends Base {}], where [Base] is a component on
    a [BasePart] with attributes [{ x: string, y: number }]; [Sub] narrows
    the instance to [Part] and the attribute [x] to a literal type. *)
Definition componentWorld : World := {|
  symbols := [(10, symbol 1 "Sub" None [10])];
  uids := [(10, "$Sub"); (30, "$OnStart"); (50, "$Component")];
  classInfos :=
    [(1, {| isExternal := false;
            decorators := [DecoratorWithNodes "Component" true 50 []] |})];
  superClasses := [(10, 40)];
  typesAt := [(10, 100); (40, 101)];
  typeNames :=
    [(Instance_t, "Instance"); (BasePart_t, "BasePart"); (Part_t, "Part");
     (string_t, "string"); (literal_t, "literal"); (number_t, "number")];
  properties :=
    [(100, [(instanceSymbol 4, Part_t); (attributesSymbol 5, 300)]);
     (101, [(instanceSymbol 6, BasePart_t); (attributesSymbol 7, 301)]);
     (300, [(symbol 8 "x" None [], literal_t); (symbol 9 "y" None [], number_t)]);
     (301, [(symbol 12 "x" None [], string_t); (symbol 13 "y" None [], number_t)])];
  assignable :=
    [(Part_t, BasePart_t); (BasePart_t, Instance_t); (Part_t, Instance_t);
     (literal_t, string_t)];
  flameworkSymbols := [("OnStart", OnStart)];
  componentsSymbols := [("BaseComponent", BaseComponent)];
|}.

Definition extendsBase : HeritageClause :=
  {| token := ExtendsKeyword;
     types := [{| expression := ident 41 "Base"; typeArguments := [] |}] |}.

Definition Sub : ClassDeclaration := {|
  class_id := 10; class_name := Some (ident 11 "Sub");
  heritageClauses := Some [extendsBase]; members := [];
|}.

Definition ComponentDecorator : DecoratorInfo :=
  DecoratorWithNodes "Component" true 50 [].

(** The author's [attributes: { x: myGuard }]. *)
Definition customAttributes : Node :=
  mkNode 80 PropertyAssignment ""
    [ident 81 "attributes";
     mkNode 82 ObjectLiteralExpression ""
       [mkNode 83 PropertyAssignment "" [ident 84 "x"; ident 85 "myGuard"]]].

(** *** Metadata records *)

(** [@Tagged("fast", 1)], a decorator that is not one of the framework. *)
Definition TaggedFast : DecoratorInfo :=
  DecoratorWithNodes "Tagged" false 52
    [mkNode 90 StringLiteral "fast" []; number 91 "1"].

(** A program with these classes:
    [@Service() class Store implements Saveable
       { constructor(a: Database, b: Logger) {} }],
    [@Tagged("fast", 1) @Tagged("slow", 2) class Job {}] with a decorator
    that is not one of the framework, [@Tagged("fast", 1) class Tag {}], and
    [class Plain {}] whose only decorator is known by name. *)
Definition metadataWorld : World := {|
  symbols :=
    [(110, symbol 31 "Store" None [110]); (120, symbol 32 "Job" None [120]);
     (130, symbol 33 "Plain" None [130]); (140, symbol 34 "Broken" None [140]);
     (170, symbol 35 "Tag" None [170]);
     (63, symbol 21 "Database" None [70]); (67, symbol 22 "Logger" None [71]);
     (45, symbol 23 "Saveable" None [72])];
  uids :=
    [(110, "$Store"); (120, "$Job"); (130, "$Plain"); (140, "$Broken");
     (170, "$Tag");
     (70, "$Database"); (71, "$Logger"); (72, "$Saveable");
     (51, "$Service"); (52, "$Tagged"); (30, "$OnStart")];
  classInfos :=
    [(31, {| isExternal := false;
             decorators := [DecoratorWithNodes "Service" true 51 []] |});
     (32, {| isExternal := false;
             decorators :=
               [DecoratorWithNodes "Tagged" false 52
                  [mkNode 90 StringLiteral "fast" []; number 91 "1"];
                DecoratorWithNodes "Tagged" false 52
                  [mkNode 92 StringLiteral "slow" []; number 93 "2"]] |});
     (33, {| isExternal := true;
             decorators := [BaseDecoratorInfo "Service" true] |});
     (34, {| isExternal := false;
             decorators := [DecoratorWithNodes "Service" true 51 []] |});
     (35, {| isExternal := false; decorators := [TaggedFast] |})];
  superClasses := [];
  typesAt := [];
  typeNames := [];
  properties := [];
  assignable := [];
  flameworkSymbols := [("OnStart", OnStart)];
  componentsSymbols := [("BaseComponent", BaseComponent)];
|}.

Definition StoreConstructor : ClassElement :=
  ConstructorDeclaration 59 [param 60 "a" "Database"; param 64 "b" "Logger"]
    (Some (mkNode 68 Block "" [])).

Definition implementsSaveable : HeritageClause :=
  {| token := ImplementsKeyword;
     types := [{| expression := ident 45 "Saveable"; typeArguments := [] |}] |}.

Definition Store : ClassDeclaration := {|
  class_id := 110; class_name := Some (ident 111 "Store");
  heritageClauses := Some [implementsSaveable]; members := [StoreConstructor];
|}.


Definition Job : ClassDeclaration := {|
  class_id := 120; class_name := Some (ident 121 "Job");
  heritageClauses := None; members := [];
|}.


Definition Plain : ClassDeclaration := {|
  class_id := 130; class_name := Some (ident 131 "Plain");
  heritageClauses := None; members := [];
|}.

(** [@Service() class Broken { constructor(a: Database, n: number, c: Cache) {} }]:
    the second parameter has a keyword type, the third a type that does not
    resolve. *)
Definition Broken : ClassDeclaration := {|
  class_id := 140; class_name := Some (ident 141 "Broken");
  heritageClauses := None;
  members :=
    [ConstructorDeclaration 142
       [param 60 "a" "Database";
        {| param_id := 150; param_name := ident 151 "n";
           param_type := Some (mkNode 152 (OtherKind 1) "number" []);
           param_initializer := None |};
        param 160 "c" "Cache"]
       (Some (mkNode 143 Block "" []))];
|}.

(** *** Lifecycle *)

(** Member names [b], [c], [k] and the hook, with the symbols of the fields. *)
Definition lifecycleWorld : World := {|
  symbols :=
    [(210, symbol 41 "Timer" None [210]);
     (221, symbol 42 "b" None [220]); (231, symbol 43 "c" None [230]);
     (227, symbol 43 "c" None [230]); (247, symbol 42 "b" None [220]);
     (263, symbol 21 "Database" None [70]);
     (46, OnStart)];
  uids := [(210, "$Timer"); (30, "$OnStart"); (50, "$Component"); (70, "$Database")];
  classInfos :=
    [(41, {| isExternal := false; decorators := [ComponentDecorator] |})];
  superClasses := [];
  typesAt := [(210, 400); (221, number_t); (231, number_t); (241, number_t)];
  typeNames := [(number_t, "number")];
  properties := [];
  assignable := [];
  flameworkSymbols := [("OnStart", OnStart)];
  componentsSymbols := [("BaseComponent", BaseComponent)];
|}.

Definition field (id : NodeId) (name : Node) (initializer : Node) : ClassElement :=
  PropertyDeclaration id name false false None (Some initializer).

(** [b = this.c], [c = 1], [b = this.b], [[k] = this.c]. *)
Definition b_uses_c : ClassElement := field 220 (ident 221 "b") (thisField 225 "c").
Definition c_is_1 : ClassElement := field 230 (ident 231 "c") (number 232 "1").
Definition b_uses_b : ClassElement := field 220 (ident 221 "b") (thisField 245 "b").
Definition k_uses_c : ClassElement :=
  field 240 (mkNode 241 ComputedPropertyName "" [ident 242 "k"]) (thisField 225 "c").
Definition onStartMethod : ClassElement :=
  MethodDeclaration 250 (ident 251 "onStart") (Some (mkNode 252 Block "" [])).

Definition implementsOnStart : HeritageClause :=
  {| token := ImplementsKeyword;
     types := [{| expression := ident 46 "OnStart"; typeArguments := [] |}] |}.

Definition Timer (members : list ClassElement) : ClassDeclaration := {|
  class_id := 210; class_name := Some (ident 211 "Timer");
  heritageClauses := Some [extendsBase; implementsOnStart]; members := members;
|}.

(** [constructor(db: Database) { super(); this.ready(db); }] *)
Definition superStatement : Node :=
  mkNode 270 ExpressionStatement ""
    [mkNode 271 CallExpression "" [mkNode 272 SuperKeyword "" []]].
Definition readyStatement : Node :=
  mkNode 280 ExpressionStatement ""
    [mkNode 281 CallExpression "" [thisField 282 "ready"; ident 285 "db"]].
Definition TimerConstructor : ClassElement :=
  ConstructorDeclaration 259 [param 260 "db" "Database"]
    (Some (mkNode 269 Block "" [superStatement; readyStatement])).

(** A component without heritage clauses that declares the hook itself. *)
Definition Loose : ClassDeclaration := {|
  class_id := 210; class_name := Some (ident 211 "Timer");
  heritageClauses := None; members := [onStartMethod];
|}.

(** A component that extends [Base] and declares the hook without
    implementing [OnStart]. *)
Definition Clash : ClassDeclaration := {|
  class_id := 210; class_name := Some (ident 211 "Timer");
  heritageClauses := Some [extendsBase]; members := [onStartMethod];
|}.

(** A component that extends [Base] and leaves the hook to the transformer. *)
Definition Quiet : ClassDeclaration := {|
  class_id := 210; class_name := Some (ident 211 "Timer");
  heritageClauses := Some [extendsBase]; members := [];
|}.

End Examples.


(** * Notions used in the statements *)

(** The class is a component with a superclass: its [instance] property comes
    from [BaseComponent] and has type [instanceType], and the [instance]
    property of its first superclass has type [superInstanceType]. *)
Definition DeclaredInstanceTypes (state : TransformState) (node : ClassDeclaration)
    (instanceType superInstanceType : TsType) : Prop :=
  let checker := typeChecker state in
  ∃ type baseComponent property superClass superType superProperty,
    getTypeAtLocation checker (class_id node) = Some type
    ∧ baseComponentSymbol state = Ok baseComponent
    ∧ getProperty checker type "instance" = Some property
    ∧ sym_parent property = Some (sym_id baseComponent)
    ∧ head (getSuperClasses state (class_id node)) = Some superClass
    ∧ getTypeOfSymbolAtLocation checker property (class_id node) = Some instanceType
    ∧ getTypeAtLocation checker superClass = Some superType
    ∧ getProperty checker superType "instance" = Some superProperty
    ∧ getTypeOfSymbolAtLocation checker superProperty superClass = Some superInstanceType.

(** [x.name.text === "instanceGuard"] for no property of the list. *)
Definition noCustomGuard (properties : list Node) : Prop :=
  List.find (λ x, named "instanceGuard" (node_name x)) properties = None.

(** The field [instanceGuard] with the compiled guard of a type. *)
Definition instanceGuardFor (state : TransformState) (node : ClassDeclaration)
    (instanceType : TsType) : Node :=
  f.propertyAssignmentDeclaration "instanceGuard"
    (CExpression (buildGuardFromType state (getSourceFile state (class_id node)) instanceType)).

(** The [attributes] property of the class has type [attributes], the one of
    its first superclass has type [superAttributes]. *)
Definition DeclaredAttributes (state : TransformState) (node : ClassDeclaration)
    (attributes superAttributes : TsType) : Prop :=
  let checker := typeChecker state in
  ∃ type property superClass superType superProperty,
    getTypeAtLocation checker (class_id node) = Some type
    ∧ getProperty checker type "attributes" = Some property
    ∧ head (getSuperClasses state (class_id node)) = Some superClass
    ∧ getTypeAtLocation checker superClass = Some superType
    ∧ getProperty checker superType "attributes" = Some superProperty
    ∧ getTypeOfSymbolAtLocation checker property (class_id node) = Some attributes
    ∧ getTypeOfSymbolAtLocation checker superProperty superClass = Some superAttributes.

(** A parameter resolves to a declaration: its type is a type reference whose
    name has a symbol with a declaration. *)
Definition parameterDeclaration (state : TransformState) (param : ParameterDeclaration)
    : option NodeId :=
  if f.is_referenceType (param_type param)
  then firstDeclaration state (param_type param ≫= typeName)
  else None.

(** The shape of the optional records. *)
Definition optionalRecord (key : string) (nonEmpty : ConvertableExpression → Prop)
    (fields : list (string * ConvertableExpression)) : Prop :=
  fields = [] ∨ ∃ value, fields = [(key, value)] ∧ nonEmpty value.

(** [state.getUid(decorator.declaration)] *)
Definition decoratorUid (state : TransformState) (decorator : DecoratorInfo) : string :=
  getUid state (dec_declaration decorator).

(** The keys under which the records are registered. *)
Definition fixedKeys : list string :=
  ["identifier"; "flamework:isExternal"; "flamework:dependencies";
   "flamework:implements"; "flamework:decorators"].

(** The key a statement [Reflect.defineMetadata(target, key, value)] of the
    output registers. *)
Definition metadataKey (s : EmittedStatement) : option string :=
  call ← head (children (statement s));
  key ← children call !! 2;
  Some (text key).

(** The value they register. *)
Definition metadataValue (s : EmittedStatement) : option Node :=
  call ← head (children (statement s));
  children call !! 3.

(** The two revisions of the transformer at hand. *)
Definition revisions : list (TransformState → ClassDeclaration → Result VisitResult) :=
  [transformClassDeclaration; Legacy.transformClassDeclaration].

(** The implements record, when there is one, holds a list that is not empty. *)
Definition implementsShape_ok (implements : list (string * ConvertableExpression)) : Prop :=
  optionalRecord "flamework:implements"
    (λ value, ∃ clauses : list Node,
       clauses ≠ [] ∧ value = CExpression (f.array clauses false))
    implements.

(** [implementClauses.some((x) => x.text === onStartId)] *)
Definition implementsOnStart (onStartId : string) (implementClauses : list Node) : bool :=
  existsb (λ x, bool_decide (text x = onStartId)) implementClauses.

(** The first result over a list of nodes that is not [undefined]. *)
Fixpoint scan {T} (g : Node → Result (option T)) (l : list Node) : Result (option T) :=
  match l with
  | [] => Ok None
  | n :: rest =>
      res ← g n;
      match res with
      | Some r => Ok (Some r)
      | None => scan g rest
      end
  end.

(** The symbol a member declares, as the rewriter records it. *)
Definition declaredSymbol (state : TransformState) (member : ClassElement) : option nat :=
  match member with
  | PropertyDeclaration _ name _ _ _ _ => sym_id <$> getSymbol state (node_id name)
  | _ => None
  end.

(** The diagnostic of the rewriter. *)
Definition UseBeforeInitialization (e : Failure) : Prop :=
  ∃ node name,
    e = DiagnosticError node
          ("Property '" +:+ name +:+ "' is used before its initialization.").

(** The hook the rewriter works with is a method with a body: the class's
    own [onStart], or the empty one the rewriter makes. *)
Definition hookIsMethod (members : list ClassElement) : Prop :=
  ∃ id name body, (locateOnStart members).1 = MethodDeclaration id name (Some body).

(** ** Notions used in the further properties *)

(** The class is not registered with the transformer: it has no symbol, no
    name, or no class information. *)
Definition unregistered (state : TransformState) (node : ClassDeclaration) : Prop :=
  getSymbol state (class_id node) = None
  ∨ class_name node = None
  ∨ ∃ symbol, getSymbol state (class_id node) = Some symbol
              ∧ classes state !! sym_id symbol = None.

(** The function called by a statement of the output and the object it
    registers the record on. *)
Definition metadataCallee (s : EmittedStatement) : option Node :=
  call ← head (children (statement s));
  head (children call).

Definition metadataTarget (s : EmittedStatement) : option Node :=
  call ← head (children (statement s));
  children call !! 1.

(** [Reflect.defineMetadata] of the import added to the file of the class. *)
Definition defineMetadataOf (state : TransformState) (node : ClassDeclaration) : Node :=
  f.field
    (addFileImport state (getSourceFile state (class_id node)) "@flamework/core" "Reflect")
    "defineMetadata".

(** The statements of the output other than the implements record. *)
Definition withoutImplements (realFields : list EmittedStatement) : list EmittedStatement :=
  filter (λ s, metadataKey s ≠ Some "flamework:implements") realFields.

(** The keys of a [Map] after [set] was called with each of [ids] in turn:
    every identifier once, at the place of its first occurrence. *)
Definition firstOccurrences (ids : list string) : list string :=
  foldl (λ keys id, if bool_decide (id ∈ keys) then keys else keys ++ [id]) [] ids.

(** The property [name] of the class is the one [BaseComponent] declares. *)
Definition declaredByBaseComponent (state : TransformState) (node : ClassDeclaration)
    (name : string) : Prop :=
  ∃ type baseComponent property,
    getTypeAtLocation (typeChecker state) (class_id node) = Some type
    ∧ baseComponentSymbol state = Ok baseComponent
    ∧ getProperty (typeChecker state) type name = Some property
    ∧ sym_parent property = Some (sym_id baseComponent).

(** The [attributes] the author wrote in a configuration. *)
Definition writtenAttributes (properties : list Node) : option Node :=
  List.find (λ x, named "attributes" (node_name x)) properties.

(** The author wrote [name] as a key of [attributes: { ... }]: the property
    is an assignment whose value is an object literal, and one of the entries
    of the literal has [name] as its key, written as an identifier or as a
    string literal. A key that is a number or is computed is no such key. *)
Definition writtenKey (customAttributes : option Node) (name : string) : Prop :=
  ∃ assignment initializer entry key,
    customAttributes = Some assignment
    ∧ kind assignment = PropertyAssignment
    ∧ node_initializer assignment = Some initializer
    ∧ kind initializer = ObjectLiteralExpression
    ∧ entry ∈ children initializer
    ∧ node_name entry = Some key
    ∧ (kind key = Identifier ∨ kind key = StringLiteral)
    ∧ text key = name.

(** The attribute [name] is inherited as it is: the attributes of the first
    superclass have a property [name], and the checker gives it the very same
    type in the attributes of the class and in those of the superclass. *)
Definition inheritedUnchanged (state : TransformState) (node : ClassDeclaration)
    (name : string) : Prop :=
  ∃ attributes superAttributes prop,
    DeclaredAttributes state node attributes superAttributes
    ∧ name ∈ sym_name <$> getProperties (typeChecker state) superAttributes
    ∧ getTypeOfPropertyOfType (typeChecker state) attributes name = Some prop
    ∧ getTypeOfPropertyOfType (typeChecker state) superAttributes name = Some prop.

(** The generated field [type: "<name>"] of a configuration. *)
Definition typeField (decorator : DecoratorInfo) : Node :=
  f.propertyAssignmentDeclaration "type" (CString (dec_name decorator)).

(** The type of the [attributes] property of the class, when it has one. *)
Definition declaredAttributesType (state : TransformState) (node : ClassDeclaration)
    : option TsType :=
  type ← getTypeAtLocation (typeChecker state) (class_id node);
  property ← getProperty (typeChecker state) type "attributes";
  getTypeOfSymbolAtLocation (typeChecker state) property (class_id node).

(** The initializer the rewriter takes from a member: that of a field whose
    name has a text and a type the checker knows. *)
Definition deferred (state : TransformState) (x : ClassElement) : option (string * Node) :=
  match x with
  | PropertyDeclaration _ name _ _ _ (Some initializer) =>
      if has_text name
      then _ ← getTypeAtLocation (typeChecker state) (node_id name);
           Some (text name, initializer)
      else None
  | _ => None
  end.

(** [inferExpression(() => initializer)] for the file of the class. *)
Definition inferCall (state : TransformState) (node : ClassDeclaration)
    (initializer : Node) : Node :=
  f.call (getInferExpression state (getSourceFile state (class_id node)))
    [CExpression (f.arrowFunction initializer)].

(** The failure is the dereference of a value that is [undefined]. *)
Definition isTypeError (e : Failure) : Prop := ∃ what, e = TypeError what.

(** ** Further classes and configurations to run the transformer on *)
Module Cases.

(** A class the transformer has no symbol for. *)
Definition Unknown : ClassDeclaration := {|
  class_id := 900; class_name := Some (Examples.ident 901 "Unknown");
  heritageClauses := None; members := [];
|}.

(** The properties [tag: "door"], [attributes: { y: myGuard }],
    [attributes: shared] and [instanceGuard: myGuard] of a configuration. *)
Definition tag : Node :=
  mkNode 500 PropertyAssignment ""
    [Examples.ident 501 "tag"; mkNode 502 StringLiteral "door" []].
Definition attributesY : Node :=
  mkNode 503 PropertyAssignment ""
    [Examples.ident 504 "attributes";
     mkNode 505 ObjectLiteralExpression ""
       [mkNode 506 PropertyAssignment ""
          [Examples.ident 507 "y"; Examples.ident 508 "myGuard"]]].
Definition attributesShared : Node :=
  mkNode 503 PropertyAssignment ""
    [Examples.ident 504 "attributes"; Examples.ident 509 "shared"].
Definition instanceGuard : Node :=
  mkNode 510 PropertyAssignment ""
    [Examples.ident 511 "instanceGuard"; Examples.ident 512 "myGuard"].

(** The program of [Examples.componentWorld] with the attribute [x] under the
    name [5]: [Base] has the attributes [{ 5: string, y: number }] and [Sub]
    narrows [5] to a literal type. *)
Definition numberedWorld : Examples.World := {|
  Examples.symbols := Examples.symbols Examples.componentWorld;
  Examples.uids := Examples.uids Examples.componentWorld;
  Examples.classInfos := Examples.classInfos Examples.componentWorld;
  Examples.superClasses := Examples.superClasses Examples.componentWorld;
  Examples.typesAt := Examples.typesAt Examples.componentWorld;
  Examples.typeNames := Examples.typeNames Examples.componentWorld;
  Examples.properties :=
    [(100, [(Examples.instanceSymbol 4, Examples.Part_t);
            (Examples.attributesSymbol 5, 300)]);
     (101, [(Examples.instanceSymbol 6, Examples.BasePart_t);
            (Examples.attributesSymbol 7, 301)]);
     (300, [(Examples.symbol 8 "5" None [], Examples.literal_t);
            (Examples.symbol 9 "y" None [], Examples.number_t)]);
     (301, [(Examples.symbol 12 "5" None [], Examples.string_t);
            (Examples.symbol 13 "y" None [], Examples.number_t)])];
  Examples.assignable := Examples.assignable Examples.componentWorld;
  Examples.flameworkSymbols := Examples.flameworkSymbols Examples.componentWorld;
  Examples.componentsSymbols := Examples.componentsSymbols Examples.componentWorld;
|}.

(** The author's [attributes: { 5: myGuard }], with a key that is a number. *)
Definition attributesNumbered : Node :=
  mkNode 503 PropertyAssignment ""
    [Examples.ident 504 "attributes";
     mkNode 505 ObjectLiteralExpression ""
       [mkNode 506 PropertyAssignment ""
          [Examples.number 507 "5"; Examples.ident 508 "myGuard"]]].

(** The generated guard of the attribute [5] of [Sub] in that program. *)
Definition guardFive : Node :=
  f.propertyAssignmentDeclaration "5"
    (CExpression (Examples.guardOf numberedWorld Examples.literal_t)).

(** The object literal of a configuration. *)
Definition config (properties : list Node) : Node :=
  mkNode 499 ObjectLiteralExpression "" properties.

(** The generated guard of the attribute [x] of [Sub]. *)
Definition guardX : Node :=
  f.propertyAssignmentDeclaration "x"
    (CExpression (Examples.guardOf Examples.componentWorld Examples.literal_t)).

(** [constructor({ a, b }: Options) { this.ready(db); }], a constructor with
    a parameter that is a pattern and without a call of [super]. *)
Definition options : ParameterDeclaration := {|
  param_id := 520;
  param_name :=
    mkNode 521 ObjectBindingPattern ""
      [Examples.ident 522 "a"; Examples.ident 523 "b"];
  param_type := Some (Examples.typeRef 524 "Options");
  param_initializer := None;
|}.
Definition OptionsConstructor : ClassElement :=
  ConstructorDeclaration 519 [options]
    (Some (mkNode 526 Block "" [Examples.readyStatement])).

(** [constructor(db: Database) { super(db).go(); this.ready(db); }], a
    constructor where the call of [super] is inside a larger expression. *)
Definition nestedCall : Node :=
  mkNode 293 CallExpression "" [mkNode 294 SuperKeyword "" []; Examples.ident 295 "db"].
Definition nestedStatement : Node :=
  mkNode 290 ExpressionStatement ""
    [mkNode 291 CallExpression ""
       [mkNode 292 PropertyAccessExpression "" [nestedCall; Examples.ident 296 "go"]]].
Definition NestedConstructor : ClassElement :=
  ConstructorDeclaration 259 [Examples.param 260 "db" "Database"]
    (Some (mkNode 269 Block "" [nestedStatement; Examples.readyStatement])).

(** The program of [Examples.lifecycleWorld] where the decorator of [Timer]
    is known by name only. *)
Definition namedWorld : Examples.World := {|
  Examples.symbols := Examples.symbols Examples.lifecycleWorld;
  Examples.uids := Examples.uids Examples.lifecycleWorld;
  Examples.classInfos :=
    [(41, {| isExternal := true;
             decorators := [BaseDecoratorInfo "Component" true] |})];
  Examples.superClasses := [];
  Examples.typesAt := Examples.typesAt Examples.lifecycleWorld;
  Examples.typeNames := Examples.typeNames Examples.lifecycleWorld;
  Examples.properties := [];
  Examples.assignable := [];
  Examples.flameworkSymbols := Examples.flameworkSymbols Examples.lifecycleWorld;
  Examples.componentsSymbols := Examples.componentsSymbols Examples.lifecycleWorld;
|}.

End Cases.


(** * Properties *)

(** Induction over a node and all of its children. *)
Lemma Node_ind_children (P : Node → Prop) :
  (∀ i k t c, Forall P c → P (mkNode i k t c)) → ∀ n, P n.
Proof.
  intros step.
  fix IH 1. intros [i k t c]. apply step.
  induction c as [|x c IHc]; constructor; [apply IH | exact IHc].
Qed.

(** ** Instance guards *)

Lemma updateInstanceGuard_spec state node properties instanceType superInstanceType :
  DeclaredInstanceTypes state node instanceType superInstanceType →
  noCustomGuard properties →
  updateInstanceGuard state node properties =
    Ok (Some (properties ++
                if isTypeAssignableTo (typeChecker state) superInstanceType instanceType
                then [] else [instanceGuardFor state node instanceType])).
Proof.
  intros (type & baseComponent & property & superClass & superType & superProperty
          & Htype & Hbase & Hprop & Hparent & Hsuper & Hinst & HsuperType & HsuperProp & HsuperInst)
         Hcustom.
  unfold updateInstanceGuard, noCustomGuard in *.
  rewrite Hbase. simpl. rewrite Htype. simpl. rewrite Hprop, Hparent.
  rewrite bool_decide_eq_true_2 by done. simpl.
  rewrite Hsuper, Hcustom, Hinst, HsuperType. simpl.
  rewrite HsuperProp, HsuperInst.
  destruct (isTypeAssignableTo _ _ _); simpl; [by rewrite app_nil_r | done].
Qed.

(** Case analysis on binds and matches of the error monad. *)
Lemma bind_Ok {A B} (m : Result A) (k : A → Result B) b :
  m ≫= k = Ok b → ∃ a, m = Ok a ∧ k a = Ok b.
Proof. destruct m as [a|e]; simpl; [eauto | discriminate]. Qed.

Ltac inv_result :=
  repeat match goal with
  | H : mret _ = _ |- _ => unfold mret, Result_ret in H
  | H : Ok _ = Ok _ |- _ => injection H as H; try subst
  | H : Err _ = Ok _ |- _ => discriminate H
  | H : Ok _ = Err _ |- _ => discriminate H
  | H : _ ≫= _ = Ok _ |- _ =>
      let a := fresh "a" in let Ha := fresh "Ha" in
      apply bind_Ok in H as (a & Ha & H)
  | H : mbind _ _ = Ok _ |- _ =>
      let a := fresh "a" in let Ha := fresh "Ha" in
      apply bind_Ok in H as (a & Ha & H)
  end.

(** Membership in a list that is written out. *)
Ltac elem_of_list := repeat first [apply list_elem_of_here | apply list_elem_of_further].
Ltac elem_of_cases H :=
  repeat (apply elem_of_cons in H as [H|H]); try (by apply elem_of_nil in H).

Lemma find_None {A} (p : A → bool) (l : list A) :
  List.find p l = None ↔ Forall (λ x, p x = false) l.
Proof.
  induction l as [|x l IH]; simpl; [by split; [constructor |]|].
  destruct (p x) eqn:E.
  - split; [discriminate | intros H; apply Forall_cons in H as [H _]; congruence].
  - rewrite IH. split; [by constructor | by intros [_ H]%Forall_cons].
Qed.

Lemma find_Some_named (s : string) (l : list Node) (x : Node) :
  List.find (λ x, named s (node_name x)) l = Some x →
  ∃ name, node_name x = Some name ∧ text name = s.
Proof.
  intros H. apply find_some in H as [_ H]. unfold named in H.
  destruct (node_name x) as [name|]; [|done].
  apply andb_true_iff in H as [_ H%bool_decide_eq_true]. eauto.
Qed.

Lemma updateAttributeGuards_keeps_noCustomGuard state node properties updated :
  updateAttributeGuards state node properties = Ok updated →
  noCustomGuard properties →
  noCustomGuard (default properties updated).
Proof.
  unfold updateAttributeGuards, noCustomGuard. intros H Hno.
  assert (Hfilter : ∀ attributes : option Node,
    Forall (λ x, named "instanceGuard" (node_name x) = false)
      (filter (λ x, Some x ≠ attributes) properties)).
  { intros attributes. apply find_None in Hno.
    rewrite Forall_forall in *. intros x [_ Hx]%list_elem_of_filter. by apply Hno. }
  inv_result.
  destruct (getProperty _ _ _) as [property|]; [|by inv_result].
  destruct (negb _); [by inv_result|].
  destruct (getTypeOfSymbolAtLocation _ _ _) as [attributesType|]; [|by inv_result].
  inv_result.
  destruct (objectAssignment _) as [[[attributes name] initializer]|] eqn:Hobj;
    inv_result; simpl; apply find_None, Forall_app; (split; [apply Hfilter|]);
    repeat constructor.
  unfold objectAssignment in Hobj.
  destruct (List.find _ properties) as [x|] eqn:Hfind; [|done]. simpl in Hobj.
  apply find_Some_named in Hfind as (name' & Hname & Htext).
  rewrite Hname in Hobj. simpl in Hobj.
  destruct (node_initializer x); [|done]. simpl in Hobj.
  destruct (_ && _); [|done]. injection Hobj as -> -> ->.
  unfold named, f.update.propertyAssignmentDeclaration, node_name. simpl.
  rewrite Htext. by rewrite andb_false_r.
Qed.

(** ** Omitted attribute guards *)

(** The loop over the properties of the superclass's attributes. *)
Lemma omitted_fold_spec (checker : TypeChecker) (attributes superAttributes : TsType)
    (l : list Symbol) (init : gset string) (x : string) :
  x ∈ foldl (λ omittedNames symbol,
               let name := sym_name symbol in
               match getTypeOfPropertyOfType checker attributes name,
                     getTypeOfPropertyOfType checker superAttributes name with
               | Some prop, Some superProp =>
                   if bool_decide (superProp = prop)
                   then Set_add omittedNames name else omittedNames
               | _, _ => omittedNames
               end) init l
  ↔ x ∈ init
    ∨ (x ∈ sym_name <$> l
       ∧ ∃ prop, getTypeOfPropertyOfType checker attributes x = Some prop
                 ∧ getTypeOfPropertyOfType checker superAttributes x = Some prop).
Proof.
  revert init. induction l as [|symbol l IH]; intros init; simpl.
  - split; [by left | intros [H | [H _]]; [done | by apply elem_of_nil in H]].
  - rewrite IH. clear IH. rewrite elem_of_cons.
    match goal with |- x ∈ ?s ∨ _ ↔ _ =>
      assert (Hstep : x ∈ s ↔ x ∈ init
        ∨ (x = sym_name symbol
           ∧ ∃ prop, getTypeOfPropertyOfType checker attributes x = Some prop
                     ∧ getTypeOfPropertyOfType checker superAttributes x = Some prop))
    end.
    { destruct (getTypeOfPropertyOfType checker attributes (sym_name symbol))
        as [prop|] eqn:Hp;
      destruct (getTypeOfPropertyOfType checker superAttributes (sym_name symbol))
        as [superProp|] eqn:Hs;
      try case_bool_decide; unfold Set_add;
      rewrite ?elem_of_union, ?elem_of_singleton;
      (split; [intros Hx | intros [Hx | [-> (p & H1 & H2)]]]);
      try tauto; try congruence.
      destruct Hx as [Hx | ->]; [tauto|]. subst superProp. eauto. }
    rewrite Hstep. clear Hstep. split.
    + intros [[H | [-> H]] | [H H']]; eauto.
    + intros [H | [[-> | H] H']]; eauto.
Qed.

Lemma foldlM_pure {A B} (step : B → A → Result B) (g : B → A → B) acc l :
  (∀ acc x, step acc x = Ok (g acc x)) → foldlM step acc l = Ok (foldl g acc l).
Proof.
  intros Hstep. revert acc. induction l as [|x l IH]; intros acc; [done|].
  simpl. rewrite Hstep. simpl. apply IH.
Qed.

Lemma calculateOmittedGuards_spec state node customAttributes attributes superAttributes :
  DeclaredAttributes state node attributes superAttributes →
  ∃ omittedNames,
    calculateOmittedGuards state node customAttributes = Ok omittedNames
    ∧ ∀ x, x ∈ omittedNames ↔
        x ∈ customAttributeNames customAttributes
        ∨ (x ∈ sym_name <$> getProperties (typeChecker state) superAttributes
           ∧ ∃ prop,
               getTypeOfPropertyOfType (typeChecker state) attributes x = Some prop
               ∧ getTypeOfPropertyOfType (typeChecker state) superAttributes x = Some prop).
Proof.
  intros (type & property & superClass & superType & superProperty
          & Htype & Hprop & Hsuper & HsuperType & HsuperProp & Hattr & HsuperAttr).
  unfold calculateOmittedGuards.
  rewrite Htype. simpl. rewrite Hprop, Hsuper, HsuperType. simpl.
  rewrite HsuperProp, Hattr, HsuperAttr. simpl.
  erewrite foldlM_pure by (intros; reflexivity).
  eexists. split; [reflexivity|]. intros x. apply omitted_fold_spec.
Qed.

Lemma filterGuards_keeps omittedGuards guards kept guard name :
  filterGuards omittedGuards guards = Ok kept →
  guard ∈ guards → node_name guard = Some name → text name ∉ omittedGuards →
  guard ∈ kept.
Proof.
  revert kept. induction guards as [|x guards IH]; intros kept H Hin Hname Hnot.
  - by apply elem_of_nil in Hin.
  - simpl in H.
    destruct (node_name x) as [xname|] eqn:Hx; simpl in H; [|discriminate].
    destruct (filterGuards _ guards) as [rest|] eqn:Hrest; simpl in H; [|discriminate].
    injection H as <-.
    apply elem_of_cons in Hin as [-> | Hin].
    + rewrite Hname in Hx. injection Hx as <-.
      rewrite bool_decide_eq_false_2 by done. apply list_elem_of_here.
    + case_bool_decide; [|apply list_elem_of_further]; eauto.
Qed.

(** C1 (amended). For a component class whose [instance] property is the one
    [BaseComponent] declares, with a first superclass that has an [instance]
    property, both with a type the checker knows, and without an
    [instanceGuard] written by the author: once the attribute guards are
    settled, the configuration gets no [instanceGuard] field when the
    superclass's declared instance type is assignable to the subclass's
    declared instance type, and otherwise gets the compiled guard of the
    subclass's instance type as [instanceGuard], after the properties left
    by the attribute guards. *)
Theorem instance_guard_unless_superclass_type_assignable
    state node decorator config updated instanceType superInstanceType :
  dec_name decorator = "Component" →
  DeclaredInstanceTypes state node instanceType superInstanceType →
  noCustomGuard (children config) →
  updateAttributeGuards state node (children config) = Ok updated →
  generateFlameworkConfig state node decorator config =
    Ok (f.update.object config
          (f.propertyAssignmentDeclaration "type" (CString "Component")
           :: default (children config) updated
           ++ if isTypeAssignableTo (typeChecker state) superInstanceType instanceType
              then [] else [instanceGuardFor state node instanceType])).
Proof.
  intros Hname Htypes Hcustom Hattributes.
  unfold generateFlameworkConfig, updateComponentConfig.
  rewrite Hname, bool_decide_eq_true_2 by done.
  rewrite Hattributes. simpl.
  erewrite updateInstanceGuard_spec by
    eauto using updateAttributeGuards_keeps_noCustomGuard.
  done.
Qed.

Lemma instance_guard_unless_superclass_type_assignable_witness :
  let state := Examples.stateOf Examples.componentWorld in
  dec_name Examples.ComponentDecorator = "Component"
  ∧ DeclaredInstanceTypes state Examples.Sub Examples.Part_t Examples.BasePart_t
  ∧ noCustomGuard (children (f.object []))
  ∧ isTypeAssignableTo (typeChecker state) Examples.BasePart_t Examples.Part_t = false
  ∧ generateFlameworkConfig state Examples.Sub Examples.ComponentDecorator (f.object []) =
      Ok (f.object
            [f.propertyAssignmentDeclaration "type" (CString "Component");
             f.propertyAssignmentDeclaration "attributes"
               (CExpression
                  (f.object
                     [f.propertyAssignmentDeclaration "x"
                        (CExpression
                           (Examples.guardOf Examples.componentWorld Examples.literal_t))]));
             instanceGuardFor state Examples.Sub Examples.Part_t]).
Proof.
  assert (Htypes : DeclaredInstanceTypes (Examples.stateOf Examples.componentWorld)
                     Examples.Sub Examples.Part_t Examples.BasePart_t).
  { unfold DeclaredInstanceTypes. do 6 eexists. repeat split; reflexivity. }
  split; [reflexivity|]. split; [exact Htypes|].
  split; [reflexivity|]. split; [reflexivity|].
  exact (instance_guard_unless_superclass_type_assignable
           (Examples.stateOf Examples.componentWorld) Examples.Sub
           Examples.ComponentDecorator (f.object [])
           (Some [f.propertyAssignmentDeclaration "attributes"
                    (CExpression
                       (f.object
                          [f.propertyAssignmentDeclaration "x"
                             (CExpression
                                (Examples.guardOf Examples.componentWorld
                                   Examples.literal_t))]))])
           Examples.Part_t Examples.BasePart_t
           eq_refl Htypes eq_refl eq_refl).
Defined.

(** C1 as stated fails: [Sub] narrows the instance type of [Base] from
    [BasePart] to [Part]; its type is assignable to the superclass's, and the
    configuration still gets the guard of [Part]. *)
Lemma instance_guard_subclass_assignable_counterexample :
  let state := Examples.stateOf Examples.componentWorld in
  DeclaredInstanceTypes state Examples.Sub Examples.Part_t Examples.BasePart_t
  ∧ noCustomGuard (children (f.object []))
  ∧ isTypeAssignableTo (typeChecker state) Examples.Part_t Examples.BasePart_t = true
  ∧ ∃ config,
      generateFlameworkConfig state Examples.Sub Examples.ComponentDecorator (f.object [])
        = Ok config
      ∧ List.find (λ x, named "instanceGuard" (node_name x)) (children config)
        = Some (instanceGuardFor state Examples.Sub Examples.Part_t).
Proof.
  repeat split; try reflexivity.
  - unfold DeclaredInstanceTypes. do 6 eexists. repeat split; reflexivity.
  - eexists. split; reflexivity.
Qed.

(** ** The metadata records *)

Lemma mapM_Ok_Forall2 {A B} (step : A → Result B) (l : list A) (k : list B) :
  mapM step l = Ok k ↔ Forall2 (λ x y, step x = Ok y) l k.
Proof.
  revert k. induction l as [|x l IH]; intros k; simpl.
  - split; [intros [= <-]; constructor | by inversion 1].
  - split.
    + intros H. inv_result. constructor; [done | by apply IH].
    + inversion 1 as [|? y ? k' Hx Hl]; subst. rewrite Hx. simpl.
      apply IH in Hl. rewrite Hl. done.
Qed.

Lemma constructorDependency_resolved state param declaration :
  parameterDeclaration state param = Some declaration →
  constructorDependency state param = Ok (getUid state declaration).
Proof.
  unfold parameterDeclaration, constructorDependency.
  destruct (f.is_referenceType _); [|done]. simpl. by intros ->.
Qed.


Lemma constructorDependencies_resolved state parameters declarations :
  Forall2 (λ p d, parameterDeclaration state p = Some d) parameters declarations →
  mapM (constructorDependency state) parameters = Ok (getUid state <$> declarations).
Proof.
  intros H. apply mapM_Ok_Forall2. induction H; constructor; [|done].
  by apply constructorDependency_resolved.
Qed.


Lemma dependenciesField_shape state node dependencies :
  dependenciesField state node = Ok dependencies →
  optionalRecord "flamework:dependencies"
    (λ value, ∃ uids : list string, uids ≠ [] ∧ value = CArray (CString <$> uids))
    dependencies.
Proof.
  unfold dependenciesField.
  destruct (List.find _ _) as [[| |id parameters body|]|]; try (intros [= <-]; by left).
  intros H. inv_result. apply mapM_Ok_Forall2, Forall2_length in Ha.
  case_bool_decide; inv_result; [right | by left].
  eexists. split; [reflexivity|]. exists a. split; [|done].
  intros ->. simpl in Ha. lia.
Qed.

Lemma implementsShape implementClauses :
  optionalRecord "flamework:implements"
    (λ value, ∃ clauses : list Node,
       clauses ≠ [] ∧ value = CExpression (f.array clauses false))
    (if bool_decide (0 < length implementClauses)
     then [("flamework:implements", CExpression (f.array implementClauses false))]
     else []).
Proof.
  case_bool_decide; [right | by left].
  eexists. split; [reflexivity|]. exists implementClauses. split; [|done].
  intros ->. simpl in *. lia.
Qed.

Lemma implementsField_shape state node classInfo implements :
  implementsField state node classInfo = Ok implements →
  optionalRecord "flamework:implements"
    (λ value, ∃ clauses : list Node,
       clauses ≠ [] ∧ value = CExpression (f.array clauses false))
    implements.
Proof.
  unfold implementsField.
  destruct (heritageClauses node) as [clauses|]; [|intros [= <-]; by left].
  intros H. inv_result.
  pose proof (implementsShape a) as Hshape.
  destruct (bool_decide _); by inv_result.
Qed.

Lemma Legacy_implementsField_shape state node implements :
  Legacy.implementsField state node = Ok implements →
  optionalRecord "flamework:implements"
    (λ value, ∃ clauses : list Node,
       clauses ≠ [] ∧ value = CExpression (f.array clauses false))
    implements.
Proof.
  unfold Legacy.implementsField.
  destruct (heritageClauses node) as [clauses|]; [|intros [= <-]; by left].
  pose proof (implementsShape (collectImplements state clauses)) as Hshape.
  destruct (bool_decide _); intros H; by inv_result.
Qed.

(** The map of configurations: its keys stay distinct, and are the
    identifiers pushed. *)
Lemma Map_set_keys {V} (m : list (string * V)) (k : string) (v : V) :
  (Map_set m k v).*1 = if bool_decide (k ∈ m.*1) then m.*1 else m.*1 ++ [k].
Proof.
  induction m as [|[k' v'] m IH]; [done|]. cbn [Map_set].
  destruct (decide (k' = k)) as [->|Hne]; rewrite !fmap_cons; cbn [fst].
  - rewrite bool_decide_eq_true_2; [done | apply list_elem_of_here].
  - rewrite IH. do 2 case_bool_decide; try done.
    + exfalso. eauto using list_elem_of_further.
    + exfalso. match goal with H : k ∈ _ :: _ |- _ =>
        apply elem_of_cons in H as [->|] end; done.
Qed.

Lemma Map_set_NoDup {V} (m : list (string * V)) (k : string) (v : V) :
  NoDup m.*1 → NoDup (Map_set m k v).*1.
Proof.
  intros H. rewrite Map_set_keys. case_bool_decide; [done|].
  apply NoDup_app. split; [done|]. split; [|apply NoDup_singleton].
  intros x Hx ->%list_elem_of_singleton. done.
Qed.

Lemma Map_set_lookup {V} (m : list (string * V)) (k : string) (v : V) :
  (k, v) ∈ Map_set m k v.
Proof.
  induction m as [|[k' v'] m IH]; simpl; [apply list_elem_of_here|].
  destruct (decide (k' = k)); [apply list_elem_of_here | by apply list_elem_of_further].
Qed.

Lemma Map_set_other {V} (m : list (string * V)) (k k' : string) (v v' : V) :
  k' ≠ k → (k', v') ∈ m → (k', v') ∈ Map_set m k v.
Proof.
  intros Hne. induction m as [|[k0 v0] m IH]; simpl;
    [intros H; by apply elem_of_nil in H|].
  intros [[= <- <-] | Hin]%elem_of_cons.
  - rewrite decide_False by done. apply list_elem_of_here.
  - destruct (decide (k0 = k)) as [->|]; apply list_elem_of_further; eauto.
Qed.

Lemma collectDecorators_keeps state node decorators acc acc' k config :
  foldlM (collectDecorator state node) acc decorators = Ok acc' →
  (k, config) ∈ acc.2 → k ∉ decoratorUid state <$> decorators →
  (k, config) ∈ acc'.2.
Proof.
  revert acc. induction decorators as [|d decorators IH]; intros acc H Hin Hnot.
  - simpl in H. by injection H as <-.
  - simpl in H. inv_result. rewrite fmap_cons, not_elem_of_cons in Hnot.
    destruct Hnot as [Hne Hnot]. eapply IH; [exact H | | exact Hnot].
    unfold collectDecorator in Ha. inv_result. simpl.
    by apply Map_set_other.
Qed.

Lemma collectDecorators_from state node decorators acc acc' :
  foldlM (collectDecorator state node) acc decorators = Ok acc' →
  acc'.1 = acc.1 ++ (decoratorUid state <$> decorators)
  ∧ (NoDup acc.2.*1 → NoDup acc'.2.*1)
  ∧ (∀ before decorator after config,
       decorators = before ++ decorator :: after →
       decoratorConfig state node decorator = Ok config →
       decoratorUid state decorator ∉ decoratorUid state <$> after →
       (decoratorUid state decorator, config) ∈ acc'.2).
Proof.
  revert acc. induction decorators as [|d decorators IH]; intros acc H.
  - simpl in H. injection H as <-. rewrite app_nil_r.
    split; [done|]. split; [done|]. intros [|??] ????; discriminate.
  - simpl in H. inv_result.
    pose proof (λ config, collectDecorators_keeps _ _ _ _ _ (decoratorUid state d) config H)
      as Hkeep.
    apply IH in H as (-> & Hdup & Hlast). clear IH.
    unfold collectDecorator in Ha. inv_result. simpl in *.
    split; [by rewrite <- app_assoc|].
    split; [eauto using Map_set_NoDup|].
    intros before decorator after config Heq Hconfig Hnot.
    destruct before as [|d' before]; simpl in Heq; injection Heq as ? ?; subst.
    + rewrite Hconfig in Ha0. injection Ha0 as <-.
      apply Hkeep; [apply Map_set_lookup | done].
    + eapply Hlast; eauto.
Qed.

Lemma collectDecorators_spec state node decorators ids configs :
  collectDecorators state node decorators = Ok (ids, configs) →
  ids = decoratorUid state <$> decorators
  ∧ NoDup configs.*1
  ∧ (∀ before decorator after config,
       decorators = before ++ decorator :: after →
       decoratorConfig state node decorator = Ok config →
       decoratorUid state decorator ∉ decoratorUid state <$> after →
       (decoratorUid state decorator, config) ∈ configs).
Proof.
  intros H. apply collectDecorators_from in H as (H1 & H2 & H3). simpl in *.
  split; [done|]. split; [apply H2; constructor | done].
Qed.


Lemma decorator_key_fresh (id : string) :
  "flamework:decorators." +:+ id ∉ fixedKeys.
Proof.
  unfold fixedKeys. intros H.
  repeat (apply elem_of_cons in H as [H|H]; [simpl in H; discriminate H|]).
  by apply elem_of_nil in H.
Qed.

Lemma decoratorFields_keys ids (configs : list (string * Node)) :
  (decoratorFields ids configs).*1 =
    "flamework:decorators" :: ((λ id, "flamework:decorators." +:+ id) <$> configs.*1).
Proof.
  unfold decoratorFields. rewrite fmap_cons. simpl. f_equal.
  rewrite <- !list_fmap_compose. done.
Qed.

Lemma optionalRecord_keys key nonEmpty fields :
  optionalRecord key nonEmpty fields → fields.*1 = [] ∨ fields.*1 = [key].
Proof. intros [-> | (value & -> & _)]; [by left | by right]. Qed.

Lemma metadata_keys_NoDup uid external P Q dependencies implements ids
    (configs : list (string * Node)) :
  optionalRecord "flamework:dependencies" P dependencies →
  optionalRecord "flamework:implements" Q implements →
  NoDup configs.*1 →
  NoDup (([("identifier", uid); ("flamework:isExternal", external)]
            ++ dependencies ++ implements ++ decoratorFields ids configs).*1).
Proof.
  intros Hdeps Himpl Hconfigs.
  rewrite !fmap_app, decoratorFields_keys.
  set (dynamic := (λ id, "flamework:decorators." +:+ id) <$> configs.*1).
  assert (Hdynamic : NoDup dynamic).
  { apply NoDup_fmap_2; [|done]. intros a b H. by apply String.app_inj in H. }
  assert (Hfresh : ∀ x, x ∈ fixedKeys → x ∉ dynamic).
  { intros x Hx (id & -> & _)%list_elem_of_fmap. by apply decorator_key_fresh in Hx. }
  apply optionalRecord_keys in Hdeps as [-> | ->];
  apply optionalRecord_keys in Himpl as [-> | ->]; simpl;
  repeat (apply NoDup_cons; split;
          [ rewrite ?not_elem_of_cons;
            repeat (split; [discriminate|]);
            apply Hfresh; unfold fixedKeys; elem_of_list
          | ]);
  done.
Qed.

Lemma emitFields_keys state node name fields :
  omap metadataKey (emitFields state node name fields) = fields.*1.
Proof.
  unfold emitFields, withLeadingComment.
  destruct fields as [|field fields]; [done|]. simpl. f_equal.
  induction fields as [|field' fields IH]; [done|]. simpl. by rewrite IH.
Qed.

Lemma emitFields_lookup state node name fields i field :
  fields !! i = Some field →
  ∃ s, emitFields state node name fields !! i = Some s
       ∧ metadataKey s = Some field.1
       ∧ metadataValue s = Some (f.toExpression field.2)
       ∧ (leadingComment s ≠ None ↔ i = 0).
Proof.
  unfold emitFields, withLeadingComment.
  destruct fields as [|first fields]; [done|].
  destruct i as [|i]; simpl.
  - intros [= ->]. eexists. split; [reflexivity|]. by repeat split.
  - intros H. rewrite list_lookup_fmap, list_lookup_fmap, H. simpl.
    eexists. split; [reflexivity|]. repeat split; [done | lia].
Qed.

(** How the transformer produces its result. *)
Lemma transformClassDeclaration_inv state node updated realFields :
  transformClassDeclaration state node = Ok (VisitedNodes updated realFields) →
  ∃ symbol name classInfo fields,
    getSymbol state (class_id node) = Some symbol
    ∧ class_name node = Some name
    ∧ classes state !! sym_id symbol = Some classInfo
    ∧ metadataFields state node classInfo = Ok fields
    ∧ realFields = emitFields state node name fields
    ∧ updateClass state node (List.filter isWithNodes (decorators classInfo)) = Ok updated.
Proof.
  unfold transformClassDeclaration.
  destruct (getSymbol _ _) as [symbol|] eqn:Hsymbol; [|done].
  destruct (class_name node) as [name|] eqn:Hname; [|done].
  destruct (classes state !! _) as [classInfo|] eqn:Hinfo; [|done].
  intros H. inv_result. do 4 eexists. repeat split; eauto.
Qed.

Lemma Legacy_transformClassDeclaration_inv state node updated realFields :
  Legacy.transformClassDeclaration state node = Ok (VisitedNodes updated realFields) →
  ∃ symbol name classInfo fields,
    getSymbol state (class_id node) = Some symbol
    ∧ class_name node = Some name
    ∧ classes state !! sym_id symbol = Some classInfo
    ∧ Legacy.metadataFields state node classInfo = Ok fields
    ∧ realFields = emitFields state node name fields.
Proof.
  unfold Legacy.transformClassDeclaration.
  destruct (getSymbol _ _) as [symbol|] eqn:Hsymbol; [|done].
  destruct (class_name node) as [name|] eqn:Hname; [|done].
  destruct (classes state !! _) as [classInfo|] eqn:Hinfo; [|done].
  intros H. inv_result. do 4 eexists. repeat split; eauto.
Qed.

Lemma metadataFields_inv state node classInfo fields :
  metadataFields state node classInfo = Ok fields →
  ∃ dependencies implements ids configs,
    dependenciesField state node = Ok dependencies
    ∧ implementsField state node classInfo = Ok implements
    ∧ collectDecorators state node (List.filter isWithNodes (decorators classInfo))
      = Ok (ids, configs)
    ∧ fields = [("identifier", CString (getUid state (class_id node)));
                ("flamework:isExternal", CBoolean (isExternal classInfo))]
               ++ dependencies ++ implements ++ decoratorFields ids configs.
Proof.
  unfold metadataFields. intros H. inv_result.
  destruct a1 as [ids configs]. exists a, a0, ids, configs.
  by rewrite <- !app_assoc.
Qed.

Lemma Legacy_metadataFields_inv state node classInfo fields :
  Legacy.metadataFields state node classInfo = Ok fields →
  ∃ dependencies implements ids configs,
    dependenciesField state node = Ok dependencies
    ∧ Legacy.implementsField state node = Ok implements
    ∧ collectDecorators state node (List.filter isWithNodes (decorators classInfo))
      = Ok (ids, configs)
    ∧ fields = [("identifier", CString (getUid state (class_id node)));
                ("flamework:isExternal", CBoolean (isExternal classInfo))]
               ++ dependencies ++ implements ++ decoratorFields ids configs.
Proof.
  unfold Legacy.metadataFields. intros H. inv_result.
  destruct a1 as [ids configs]. exists a, a0, ids, configs.
  by rewrite <- !app_assoc.
Qed.


(** A class with a symbol, a name and class information is processed; when
    no step aborts, the records are the identifier, the external flag, the
    optional dependencies and implements records, and the decorators. *)
Lemma revision_processed transformer state node symbol name classInfo result :
  transformer ∈ revisions →
  getSymbol state (class_id node) = Some symbol →
  class_name node = Some name →
  classes state !! sym_id symbol = Some classInfo →
  transformer state node = Ok result →
  ∃ updated dependencies implements ids configs,
    result =
      VisitedNodes updated
        (emitFields state node name
           ([("identifier", CString (getUid state (class_id node)));
             ("flamework:isExternal", CBoolean (isExternal classInfo))]
            ++ dependencies ++ implements ++ decoratorFields ids configs))
    ∧ dependenciesField state node = Ok dependencies
    ∧ implementsShape_ok implements
    ∧ (transformer = transformClassDeclaration →
       implementsField state node classInfo = Ok implements)
    ∧ collectDecorators state node (List.filter isWithNodes (decorators classInfo))
      = Ok (ids, configs).
Proof.
  intros Hrev Hsymbol Hname Hinfo H.
  apply elem_of_cons in Hrev as [-> | Hrev];
    [|apply list_elem_of_singleton in Hrev as ->].
  - unfold transformClassDeclaration in H. rewrite Hsymbol, Hname, Hinfo in H.
    inv_result.
    apply metadataFields_inv in Ha as (deps & impl & ids & configs & H1 & H2 & H3 & ->).
    exists a0, deps, impl, ids, configs.
    repeat split; eauto. eapply implementsField_shape; eauto.
  - unfold Legacy.transformClassDeclaration in H. rewrite Hsymbol, Hname, Hinfo in H.
    inv_result.
    apply Legacy_metadataFields_inv in Ha
      as (deps & impl & ids & configs & H1 & H2 & H3 & ->).
    eexists _, deps, impl, ids, configs.
    repeat split; eauto; [eapply Legacy_implementsField_shape; eauto|].
    intros Heq. exfalso. revert Heq. clear.
    intros Heq.
    assert (Hx : Legacy.transformClassDeclaration (Examples.stateOf Examples.lifecycleWorld)
                   Examples.Clash
                 = transformClassDeclaration (Examples.stateOf Examples.lifecycleWorld)
                     Examples.Clash) by (by rewrite Heq).
    vm_compute in Hx. discriminate Hx.
Qed.


(** Where a record with one of the optional keys can sit. *)
Lemma optional_record_in key value base dependencies implements ids configs :
  key ∈ ["flamework:dependencies"; "flamework:implements"] →
  base.*1 = ["identifier"; "flamework:isExternal"] →
  (key, value) ∈ base ++ dependencies ++ implements ++ decoratorFields ids configs →
  (key, value) ∈ dependencies ++ implements.
Proof.
  intros Hkey Hbase. rewrite !elem_of_app.
  intros [H | [H | [H | H]]]; [|tauto|tauto|].
  - exfalso. apply (list_elem_of_fmap_2 fst) in H. rewrite Hbase in H. simpl in H.
    elem_of_cases Hkey; subst key; elem_of_cases H; discriminate.
  - exfalso. apply (list_elem_of_fmap_2 fst) in H.
    rewrite decoratorFields_keys in H. simpl in H.
    apply elem_of_cons in H as [-> | (id & -> & _)%list_elem_of_fmap].
    + elem_of_cases Hkey; discriminate.
    + apply (decorator_key_fresh id). unfold fixedKeys.
      elem_of_cases Hkey; rewrite Hkey; elem_of_list.
Qed.

Lemma optionalRecord_in key nonEmpty fields k value :
  optionalRecord key nonEmpty fields → (k, value) ∈ fields → k = key ∧ nonEmpty value.
Proof.
  intros [-> | (v & -> & Hv)] Hin; [by apply elem_of_nil in Hin|].
  by apply list_elem_of_singleton in Hin as [= -> ->].
Qed.

(** C9. The records emitted for a class have pairwise distinct keys, in
    either revision of the transformer: the identifier, the external flag,
    the dependencies, the implements and the decorators record occur at most
    once, and so does every [flamework:decorators.<uid>] record, also when a
    decorator declaration is applied twice. Every statement registers a key. *)
Theorem metadata_keys_are_unique transformer state node updated realFields :
  transformer ∈ revisions →
  transformer state node = Ok (VisitedNodes updated realFields) →
  NoDup (omap metadataKey realFields)
  ∧ length (omap metadataKey realFields) = length realFields.
Proof.
  intros Hrev H.
  assert (∃ symbol name classInfo,
            getSymbol state (class_id node) = Some symbol
            ∧ class_name node = Some name
            ∧ classes state !! sym_id symbol = Some classInfo)
    as (symbol & name & classInfo & Hsymbol & Hname & Hinfo).
  { pose proof Hrev as Hrev'.
    apply elem_of_cons in Hrev' as [-> | Hrev'];
      [|apply list_elem_of_singleton in Hrev' as ->].
    - apply transformClassDeclaration_inv in H
        as (symbol & name & classInfo & _ & ? & ? & ? & _). eauto 10.
    - apply Legacy_transformClassDeclaration_inv in H
        as (symbol & name & classInfo & _ & ? & ? & ? & _). eauto 10. }
  destruct (revision_processed _ _ _ _ _ _ _ Hrev Hsymbol Hname Hinfo H)
    as (updated' & deps & impl & ids & configs & [= -> ->] & Hdeps & Himpl & _ & Hdecorators).
  apply collectDecorators_spec in Hdecorators as (_ & Hdup & _).
  apply dependenciesField_shape in Hdeps.
  rewrite emitFields_keys. split.
  - eapply metadata_keys_NoDup; eauto.
  - unfold emitFields, withLeadingComment.
    rewrite length_fmap. simpl. by rewrite !length_fmap.
Qed.

Lemma metadata_keys_are_unique_witness :
  ∃ updated realFields,
    transformClassDeclaration (Examples.stateOf Examples.metadataWorld) Examples.Job
      = Ok (VisitedNodes updated realFields)
    ∧ omap metadataKey realFields =
        ["identifier"; "flamework:isExternal"; "flamework:decorators";
         "flamework:decorators.$Tagged"]
    ∧ NoDup (omap metadataKey realFields)
    ∧ length (omap metadataKey realFields) = length realFields.
Proof.
  do 2 eexists. split; [vm_compute; reflexivity|]. split; [reflexivity|].
  eapply (metadata_keys_are_unique transformClassDeclaration
            (Examples.stateOf Examples.metadataWorld) Examples.Job).
  - apply list_elem_of_here.
  - vm_compute. reflexivity.
Defined.












(** C8 (amended). For a class that has heritage clauses, carries the
    component decorator and does not yet list the [OnStart] interface among
    the implemented interfaces it resolves: a member named [onStart] aborts
    the class with the collision diagnostic at that member (once the
    constructor's parameters have resolved); without such a member the
    identifier of [OnStart] is added after the collected interfaces, and the
    implements record holds that list. *)
Theorem component_implements_onStart state node symbol name classInfo
    clauses onStartId dependencies :
  getSymbol state (class_id node) = Some symbol →
  class_name node = Some name →
  classes state !! sym_id symbol = Some classInfo →
  heritageClauses node = Some clauses →
  existsb isComponent (decorators classInfo) = true →
  onStartUid state = Ok onStartId →
  implementsOnStart onStartId (collectImplements state clauses) = false →
  dependenciesField state node = Ok dependencies →
  (∀ existingOnStart,
     List.find (λ x, named "onStart" (element_name x)) (members node)
       = Some existingOnStart →
     transformClassDeclaration state node =
       Err (DiagnosticError (element_id existingOnStart)
              "Components can not have a member named 'onStart'"))
  ∧ (List.find (λ x, named "onStart" (element_name x)) (members node) = None →
     implementsField state node classInfo =
       Ok [("flamework:implements",
            CExpression
              (f.array (collectImplements state clauses ++ [f.string onStartId]) false))]
     ∧ ∀ updated realFields,
         transformClassDeclaration state node = Ok (VisitedNodes updated realFields) →
         ∃ s, realFields !! (2 + length dependencies) = Some s
              ∧ metadataKey s = Some "flamework:implements"
              ∧ metadataValue s =
                  Some (f.array (collectImplements state clauses ++ [f.string onStartId])
                          false)).
Proof.
  intros Hsymbol Hname Hinfo Hclauses Hcomponent HonStart Himplements Hdeps.
  unfold implementsOnStart in Himplements. split.
  - intros existingOnStart Hfind.
    unfold transformClassDeclaration, metadataFields, implementsField, injectOnStart.
    rewrite Hsymbol, Hname, Hinfo, Hdeps. simpl.
    rewrite Hclauses, Hcomponent, HonStart. simpl.
    by rewrite Himplements, Hfind.
  - intros Hfind.
    assert (Himpl : implementsField state node classInfo =
              Ok [("flamework:implements",
                   CExpression
                     (f.array (collectImplements state clauses ++ [f.string onStartId])
                        false))]).
    { unfold implementsField, injectOnStart.
      rewrite Hclauses, Hcomponent, HonStart. simpl.
      rewrite Himplements, Hfind. simpl.
      rewrite bool_decide_eq_true_2; [done|]. rewrite length_app. simpl. lia. }
    split; [exact Himpl|]. intros updated realFields H.
    apply transformClassDeclaration_inv in H
      as (symbol' & name' & classInfo' & fields & Hsymbol' & Hname' & Hinfo' & Hfields & -> & _).
    rewrite Hsymbol in Hsymbol'. injection Hsymbol' as <-.
    rewrite Hname in Hname'. injection Hname' as <-.
    rewrite Hinfo in Hinfo'. injection Hinfo' as <-.
    apply metadataFields_inv in Hfields
      as (deps & impl & ids & configs & Hdeps' & Himpl' & _ & ->).
    rewrite Hdeps in Hdeps'. injection Hdeps' as <-.
    rewrite Himpl in Himpl'. injection Himpl' as <-.
    match goal with |- ∃ s, emitFields _ _ _ ?fields !! ?i = _ ∧ _ =>
      destruct (emitFields_lookup state node name fields i
                  ("flamework:implements",
                   CExpression
                     (f.array (collectImplements state clauses ++ [f.string onStartId])
                        false)))
        as (s & Hs & Hkey & Hvalue & _)
    end.
    { simpl. rewrite lookup_app_r by lia. by rewrite Nat.sub_diag. }
    by exists s.
Qed.

Lemma component_implements_onStart_witness :
  let state := Examples.stateOf Examples.lifecycleWorld in
  existsb isComponent [Examples.ComponentDecorator] = true
  ∧ onStartUid state = Ok "$OnStart"
  ∧ implementsOnStart "$OnStart" (collectImplements state [Examples.extendsBase]) = false
  ∧ transformClassDeclaration state Examples.Clash =
      Err (DiagnosticError 250 "Components can not have a member named 'onStart'")
  ∧ implementsField state Examples.Quiet
      {| isExternal := false; decorators := [Examples.ComponentDecorator] |} =
      Ok [("flamework:implements", CExpression (f.array [f.string "$OnStart"] false))]
  ∧ ∃ updated realFields s,
      transformClassDeclaration state Examples.Quiet
        = Ok (VisitedNodes updated realFields)
      ∧ realFields !! 2 = Some s
      ∧ metadataKey s = Some "flamework:implements"
      ∧ metadataValue s = Some (f.array [f.string "$OnStart"] false).
Proof.
  split; [reflexivity|]. split; [reflexivity|]. split; [reflexivity|].
  split.
  - exact (proj1 (component_implements_onStart
                    (Examples.stateOf Examples.lifecycleWorld) Examples.Clash
                    (Examples.symbol 41 "Timer" None [210]) (Examples.ident 211 "Timer")
                    {| isExternal := false; decorators := [Examples.ComponentDecorator] |}
                    [Examples.extendsBase] "$OnStart" []
                    eq_refl eq_refl eq_refl eq_refl eq_refl eq_refl eq_refl eq_refl)
                 Examples.onStartMethod eq_refl).
  - destruct (proj2 (component_implements_onStart
                       (Examples.stateOf Examples.lifecycleWorld) Examples.Quiet
                       (Examples.symbol 41 "Timer" None [210]) (Examples.ident 211 "Timer")
                       {| isExternal := false; decorators := [Examples.ComponentDecorator] |}
                       [Examples.extendsBase] "$OnStart" []
                       eq_refl eq_refl eq_refl eq_refl eq_refl eq_refl eq_refl eq_refl)
                    eq_refl) as [Himpl Hemitted].
    split; [exact Himpl|].
    assert (Hrun : ∃ updated realFields,
              transformClassDeclaration (Examples.stateOf Examples.lifecycleWorld)
                Examples.Quiet = Ok (VisitedNodes updated realFields)).
    { do 2 eexists. vm_compute. reflexivity. }
    destruct Hrun as (updated & realFields & Hrun).
    destruct (Hemitted _ _ Hrun) as (s & H1 & H2 & H3).
    by exists updated, realFields, s.
Defined.

(** C8 as stated fails: [Loose] carries the component decorator, does not
    implement [OnStart] and declares [onStart], but has no heritage clause;
    the transformer completes on it and emits no implements record. *)
Lemma component_without_heritage_counterexample :
  let state := Examples.stateOf Examples.lifecycleWorld in
  existsb isComponent [Examples.ComponentDecorator] = true
  ∧ heritageClauses Examples.Loose = None
  ∧ List.find (λ x, named "onStart" (element_name x)) (members Examples.Loose)
    = Some Examples.onStartMethod
  ∧ ∃ updated realFields,
      transformClassDeclaration state Examples.Loose
        = Ok (VisitedNodes updated realFields)
      ∧ omap metadataKey realFields =
          ["identifier"; "flamework:isExternal"; "flamework:decorators";
           "flamework:decorators.$Component"].
Proof.
  split; [reflexivity|]. split; [reflexivity|]. split; [reflexivity|].
  do 2 eexists. split; [vm_compute; reflexivity | reflexivity].
Qed.

(** ** The lifecycle rewriter *)

Lemma scan_app {T} (g : Node → Result (option T)) (l1 l2 : list Node) :
  scan g (l1 ++ l2) =
    res ← scan g l1; match res with Some r => Ok (Some r) | None => scan g l2 end.
Proof.
  induction l1 as [|n l1 IH]; simpl; [done|].
  destruct (g n) as [[r|]|e]; simpl; done.
Qed.

(** A traversal whose callback ignores the parent scans the descendants. *)
Lemma visitNode_scan {T} (g : Node → Result (option T)) (current parent : Node) :
  visitNode (λ n _, g n) parent current = scan g (current :: descendants current).
Proof.
  revert parent. induction current as [i k t cs IH] using Node_ind_children.
  intros parent. simpl. destruct (g (mkNode i k t cs)) as [[r|]|e]; simpl; try done.
  generalize (mkNode i k t cs). intros current.
  induction IH as [|child rest Hchild _ IHrest]; [done|].
  rewrite Hchild, app_comm_cons, scan_app.
  destruct (scan g (child :: descendants child)) as [[r|]|e]; simpl; try done.
Qed.

Lemma forEachChildRecursively_scan {T} (g : Node → Result (option T)) (root : Node) :
  forEachChildRecursively root (λ n _, g n) = scan g (descendants root).
Proof.
  unfold forEachChildRecursively. destruct root as [i k t cs]. simpl.
  generalize (mkNode i k t cs). intros parent.
  induction cs as [|child rest IH]; [done|]. simpl visitNodes.
  rewrite visitNode_scan, app_comm_cons, scan_app.
  destruct (scan g (child :: descendants child)) as [[r|]|e]; simpl; try done.
Qed.

Lemma scan_Err {T} (g : Node → Result (option T)) (l : list Node) e :
  scan g l = Err e → ∃ n, n ∈ l ∧ g n = Err e.
Proof.
  induction l as [|n l IH]; simpl; [done|].
  destruct (g n) as [[r|]|e'] eqn:Hn; simpl; [done| |].
  - intros (n' & Hin & Hn')%IH. eauto using list_elem_of_further.
  - intros [= ->]. eauto using list_elem_of_here.
Qed.

Lemma scan_fails (g : Node → Result (option Empty_set)) (l : list Node) n e :
  n ∈ l → g n = Err e → ∃ e', scan g l = Err e'.
Proof.
  induction l as [|n' l IH]; intros Hin Hn; [by apply elem_of_nil in Hin|].
  simpl. apply elem_of_cons in Hin as [<- | Hin].
  - rewrite Hn. eauto.
  - destruct (g n') as [[[]|]|e']; simpl; eauto.
Qed.

Lemma indexMembers_step state i member rest (m : gmap nat nat) :
  indexMembers state i (member :: rest) m =
    indexMembers state (S i) rest
      match declaredSymbol state member with
      | Some s => <[s := i]> m
      | None => m
      end.
Proof.
  simpl. f_equal. destruct member; try done. simpl.
  by destruct (getSymbol state (node_id name)).
Qed.

(** An index in the map is the position of a member that declares the symbol. *)
Lemma indexMembers_lookup_Some state i members (m : gmap nat nat) s j :
  indexMembers state i members m !! s = Some j →
  m !! s = Some j
  ∨ ∃ k member, members !! k = Some member
                ∧ declaredSymbol state member = Some s ∧ j = i + k.
Proof.
  revert i m. induction members as [|member rest IH]; intros i m; [by left|].
  rewrite indexMembers_step. intros [H | (k & x & Hk & Hx & ->)]%IH.
  - destruct (declaredSymbol state member) as [s'|] eqn:Hs; [|by left].
    destruct (decide (s' = s)) as [->|Hne].
    + rewrite lookup_insert_eq in H. injection H as <-.
      right. exists 0, member. split; [done|]. split; [done | lia].
    + rewrite lookup_insert_ne in H by done. by left.
  - right. exists (S k), x. split; [done|]. split; [done | lia].
Qed.

(** The map holds, for a declared symbol, an index at or after each of its
    declarations. *)
Lemma indexMembers_lookup_ge state i members (m : gmap nat nat) s k member :
  members !! k = Some member → declaredSymbol state member = Some s →
  ∃ j, indexMembers state i members m !! s = Some j ∧ i + k ≤ j.
Proof.
  assert (Hkeep : ∀ members i (m : gmap nat nat) j,
            m !! s = Some j → j ≤ i →
            ∃ j', indexMembers state i members m !! s = Some j' ∧ j ≤ j').
  { clear. intros members. induction members as [|x rest IH]; intros i m j Hj Hle;
      [eauto|].
    rewrite indexMembers_step.
    destruct (declaredSymbol state x) as [s'|]; [|apply IH; [done | lia]].
    destruct (decide (s' = s)) as [->|Hne].
    - destruct (IH (S i) (<[s := i]> m) i) as (j' & Hj' & Hle');
        [apply lookup_insert_eq | lia |].
      exists j'. split; [done | lia].
    - apply IH; [by rewrite lookup_insert_ne | lia]. }
  revert i m k. induction members as [|x rest IH]; intros i m k Hk Hs; [done|].
  rewrite indexMembers_step. destruct k as [|k]; simpl in Hk.
  - injection Hk as ->. rewrite Hs.
    destruct (Hkeep rest (S i) (<[s := i]> m) i) as (j & Hj & Hle);
      [apply lookup_insert_eq | lia |].
    exists j. split; [done | lia].
  - destruct (IH (S i)
                match declaredSymbol state x with
                | Some s' => <[s' := i]> m
                | None => m
                end k Hk Hs) as (j & Hj & Hle).
    exists j. split; [done | lia].
Qed.


Lemma validator_Err state (m : gmap nat nat) i n e :
  validator state m i n = Err e →
  UseBeforeInitialization e
  ∧ ∃ symbol j, getSymbol state (node_id n) = Some symbol
                ∧ m !! sym_id symbol = Some j ∧ 0 < j ∧ i ≤ j.
Proof.
  unfold validator. destruct (getSymbol state (node_id n)) as [symbol|]; [|done].
  destruct (m !! sym_id symbol) as [[|j]|] eqn:Hj; try done.
  case_bool_decide; [|done]. intros [= <-]. split.
  - by exists (node_id n), (sym_name symbol).
  - exists symbol, (S j). repeat split; [done | lia | done].
Qed.

Lemma validator_fails state (m : gmap nat nat) i n symbol j :
  getSymbol state (node_id n) = Some symbol →
  m !! sym_id symbol = Some j → 0 < j → i ≤ j →
  ∃ e, validator state m i n = Err e.
Proof.
  intros Hsymbol Hj Hpos Hle. unfold validator. rewrite Hsymbol, Hj.
  destruct j as [|j]; [lia|]. rewrite bool_decide_eq_true_2 by done. eauto.
Qed.

(** The callback of [members.map] fails only through the validator. *)
Lemma deferInitializer_Err state node (m : gmap nat nat) x i e :
  deferInitializer state node m x i = Err e →
  ∃ id name q ex t initializer type n,
    x = PropertyDeclaration id name q ex t (Some initializer)
    ∧ has_text name = true
    ∧ getTypeAtLocation (typeChecker state) (node_id name) = Some type
    ∧ n ∈ descendants initializer
    ∧ validator state m i n = Err e.
Proof.
  unfold deferInitializer.
  destruct x as [id name q ex t [initializer|]| | |]; try done.
  destruct (has_text name) eqn:Htext; [|done]. simpl.
  destruct (getTypeAtLocation _ _) as [type|] eqn:Htype; [|done].
  rewrite forEachChildRecursively_scan.
  destruct (scan _ _) as [r|e'] eqn:Hscan; [done|]. simpl. intros [= ->].
  apply scan_Err in Hscan as (n & Hin & Hn). eauto 15.
Qed.

Lemma deferInitializer_fails state node (m : gmap nat nat) i
    id name q ex t initializer type n e :
  has_text name = true →
  getTypeAtLocation (typeChecker state) (node_id name) = Some type →
  n ∈ descendants initializer →
  validator state m i n = Err e →
  ∃ e', deferInitializer state node m
          (PropertyDeclaration id name q ex t (Some initializer)) i = Err e'.
Proof.
  intros Htext Htype Hin Hn. unfold deferInitializer.
  rewrite Htext, Htype. simpl. rewrite forEachChildRecursively_scan.
  destruct (scan_fails _ _ _ _ Hin Hn) as [e' ->]. eauto.
Qed.

Lemma mapMembers_Err {X} (callback : ClassElement → nat → Result (ClassElement * list X))
    i members e :
  mapMembers callback i members = Err e →
  ∃ k x, members !! k = Some x ∧ callback x (i + k) = Err e.
Proof.
  revert i. induction members as [|x rest IH]; intros i; [done|]. simpl.
  destruct (callback x i) as [first|e'] eqn:Hx; simpl.
  - destruct (mapMembers callback (S i) rest) as [others|e'] eqn:Hrest; [done|].
    simpl. intros [= ->]. apply IH in Hrest as (k & y & Hk & Hy).
    exists (S k), y. split; [done|]. by rewrite <- Nat.add_succ_comm.
  - intros [= ->]. exists 0, x. split; [done|]. by rewrite Nat.add_0_r.
Qed.

Lemma mapMembers_fails {X} (callback : ClassElement → nat → Result (ClassElement * list X))
    i members k x e :
  members !! k = Some x → callback x (i + k) = Err e →
  ∃ e', mapMembers callback i members = Err e'.
Proof.
  revert i k. induction members as [|y rest IH]; intros i k Hk Hx; [done|]. simpl.
  destruct (callback y i) as [first|e'] eqn:Hy; simpl; [|eauto].
  destruct k as [|k]; simpl in Hk.
  - injection Hk as ->. rewrite Nat.add_0_r in Hx. congruence.
  - rewrite <- Nat.add_succ_comm in Hx.
    destruct (IH (S i) k Hk Hx) as [e' ->]. eauto.
Qed.

(** The traversal of a callback that does not throw does not throw. *)
Lemma visitNode_total {T} (cb : Node → Node → Result (option T)) :
  (∀ n p, ∃ r, cb n p = Ok r) →
  ∀ current parent, ∃ r, visitNode cb parent current = Ok r.
Proof.
  intros Hcb current.
  induction current as [i k t cs IH] using Node_ind_children. intros parent. simpl.
  destruct (Hcb (mkNode i k t cs) parent) as [[r|] ->]; simpl; [eauto|].
  generalize (mkNode i k t cs). intros current.
  induction IH as [|child rest Hchild _ IHrest]; [eauto|].
  destruct (Hchild current) as [[r|] ->]; simpl; eauto.
Qed.

Lemma forEachChildRecursively_total {T} (cb : Node → Node → Result (option T)) root :
  (∀ n p, ∃ r, cb n p = Ok r) →
  ∃ r, forEachChildRecursively root cb = Ok r.
Proof.
  intros Hcb. unfold forEachChildRecursively.
  generalize (children root). intros l.
  induction l as [|child rest IH]; simpl; [eauto|].
  destruct (visitNode_total cb Hcb child root) as [[r|] ->]; simpl; eauto.
Qed.

Lemma bind_Err {A B} (m : Result A) (k : A → Result B) e :
  m ≫= k = Err e → m = Err e ∨ ∃ a, m = Ok a ∧ k a = Err e.
Proof. destruct m as [a|e']; simpl; [eauto | intros [= ->]; by left]. Qed.

Lemma parameterTypes_Err (parameters : list ParameterDeclaration) e :
  mapM (λ x, deref "x.type" (param_type x)) parameters = Err e →
  ∃ what, e = TypeError what.
Proof.
  induction parameters as [|p parameters IH]; [done|]. simpl.
  intros [H | (type & _ & [H | (types & _ & H)]%bind_Err)]%bind_Err.
  - destruct (param_type p); [done|]. injection H as <-. eauto.
  - by apply IH.
  - done.
Qed.

(** The block on the constructor raises no diagnostic. *)
Lemma hoistConstructor_Err state members constructor e :
  hoistConstructor state members constructor = Err e → ∃ what, e = TypeError what.
Proof.
  unfold hoistConstructor. destruct constructor as [| |id parameters body|]; try done.
  intros [H | (types & _ & [H | (superCall & _ & [H | (b & _ & H)]%bind_Err)]%bind_Err)]%bind_Err.
  - by apply parameterTypes_Err in H.
  - destruct (forEachChildRecursively_total isSuperCall
                (constructorNode (ConstructorDeclaration id parameters body)))
      as [r Hr]; [intros n p; unfold isSuperCall; eauto|]. congruence.
  - destruct body; [done|]. injection H as <-. eauto.
  - done.
Qed.

(** C5 (amended). Positions are those of the member list the rewriter works
    on, with the hook first when the class declares none. For a component
    whose hook is a method with a body: a field with a name that has a text,
    a type and an initializer that mentions, below its root, a field declared
    at or after it and not in the first position, makes [updateClass] raise
    the diagnostic "Property ... is used before its initialization". When
    every field mentioned by an initializer is declared strictly before the
    field of that initializer, [updateClass] raises no diagnostic. *)
Theorem use_before_initialization state node decorators :
  let memberList := (locateOnStart (members node)).2 in
  (existsb isComponent decorators = true →
   hookIsMethod (members node) →
   ∀ i id name q ex t initializer type reference symbol j declaring,
     memberList !! i = Some (PropertyDeclaration id name q ex t (Some initializer)) →
     has_text name = true →
     getTypeAtLocation (typeChecker state) (node_id name) = Some type →
     reference ∈ descendants initializer →
     getSymbol state (node_id reference) = Some symbol →
     memberList !! j = Some declaring →
     declaredSymbol state declaring = Some (sym_id symbol) →
     i ≤ j → 0 < j →
     ∃ e, updateClass state node decorators = Err e ∧ UseBeforeInitialization e)
  ∧ ((∀ i id name q ex t initializer reference symbol j declaring,
        memberList !! i = Some (PropertyDeclaration id name q ex t (Some initializer)) →
        reference ∈ descendants initializer →
        getSymbol state (node_id reference) = Some symbol →
        memberList !! j = Some declaring →
        declaredSymbol state declaring = Some (sym_id symbol) →
        j < i) →
     ∀ location message,
       updateClass state node decorators ≠ Err (DiagnosticError location message)).
Proof.
  intros memberList. split.
  - intros Hcomponent (hid & hname & hbody & Hhook)
           i id name q ex t initializer type reference symbol j declaring
           Hi Htext Htype Hreference Hsymbol Hj Hdeclares Hle Hpos.
    destruct (indexMembers_lookup_ge state 0 memberList ∅ _ _ _ Hj Hdeclares)
      as (j' & Hj' & Hle').
    destruct (validator_fails state _ i reference symbol j' Hsymbol Hj')
      as [e1 He1]; [lia | lia |].
    destruct (deferInitializer_fails state node _ i id name q ex t initializer
                type reference e1 Htext Htype Hreference He1) as [e2 He2].
    destruct (mapMembers_fails
                (deferInitializer state node (indexMembers state 0 memberList ∅))
                0 memberList i _ e2 Hi He2) as [e Hmap].
    exists e. split.
    + unfold updateClass. rewrite Hcomponent. unfold rewriteMembers.
      rewrite Hhook. fold memberList. by rewrite Hmap.
    + apply mapMembers_Err in Hmap as (k & x & _ & Hx).
      apply deferInitializer_Err in Hx as (?&?&?&?&?&?&?& n & _ & _ & _ & _ & Hn).
      by apply validator_Err in Hn as [? _].
  - intros Hbefore location message H. unfold updateClass in H.
    apply bind_Err in H as [H | (? & _ & H)]; [|done].
    destruct (existsb isComponent decorators); [|done].
    unfold rewriteMembers in H. fold memberList in H.
    destruct ((locateOnStart (members node)).1) as [|hid hname [hbody|]| |]; try done.
    apply bind_Err in H as [H | (mapped & _ & H)].
    + apply mapMembers_Err in H as (k & x & Hk & Hx). simpl in Hx.
      apply deferInitializer_Err in Hx
        as (id & name & q & ex & t & initializer & type & n & -> & _ & _ & Hn & Hv).
      apply validator_Err in Hv as (_ & symbol & j & Hsymbol & Hj & Hpos & Hle).
      apply indexMembers_lookup_Some in Hj as [Hj | (k' & x' & Hk' & Hx' & ->)].
      * by rewrite lookup_empty in Hj.
      * specialize (Hbefore _ _ _ _ _ _ _ _ _ _ _ Hk Hn Hsymbol Hk' Hx'). simpl in Hle. lia.
    + apply bind_Err in H as [H | (? & _ & H)]; [|done].
      destruct (list_find _ mapped.1) as [[? constructor]|]; [|done].
      by apply hoistConstructor_Err in H as [what [=]].
Qed.

Lemma use_before_initialization_witness :
  let state := Examples.stateOf Examples.lifecycleWorld in
  (∃ e, updateClass state (Examples.Timer [Examples.b_uses_c; Examples.c_is_1])
          [Examples.ComponentDecorator] = Err e
        ∧ UseBeforeInitialization e)
  ∧ ∀ location message,
      updateClass state (Examples.Timer [Examples.c_is_1; Examples.b_uses_c])
        [Examples.ComponentDecorator] ≠ Err (DiagnosticError location message).
Proof.
  split.
  - refine (proj1 (use_before_initialization
                     (Examples.stateOf Examples.lifecycleWorld)
                     (Examples.Timer [Examples.b_uses_c; Examples.c_is_1])
                     [Examples.ComponentDecorator])
                  eq_refl _
                  1 220 (Examples.ident 221 "b") false false None
                  (Examples.thisField 225 "c") Examples.number_t
                  (Examples.ident 227 "c") (Examples.symbol 43 "c" None [230])
                  2 Examples.c_is_1
                  eq_refl eq_refl eq_refl _ eq_refl eq_refl eq_refl _ _).
    + do 3 eexists. reflexivity.
    + simpl. elem_of_list.
    + lia.
    + lia.
  - apply (proj2 (use_before_initialization
                    (Examples.stateOf Examples.lifecycleWorld)
                    (Examples.Timer [Examples.c_is_1; Examples.b_uses_c])
                    [Examples.ComponentDecorator])).
    intros i id name q ex t initializer reference symbol j declaring
           Hi Hreference Hsymbol Hj Hdeclares.
    destruct i as [|[|[|i]]]; simpl in Hi; try discriminate Hi;
      injection Hi as <- <- <- <- <- <-; simpl in Hreference.
    + by apply elem_of_nil in Hreference.
    + elem_of_cases Hreference; subst reference;
        vm_compute in Hsymbol; try discriminate Hsymbol.
      injection Hsymbol as <-.
      destruct j as [|[|[|j]]]; simpl in Hj; try discriminate Hj;
        injection Hj as <-; vm_compute in Hdeclares; try discriminate Hdeclares.
      lia.
Defined.

(** C5 as stated fails: the field [[k] = this.c] comes before the field [c]
    it mentions, and [updateClass] raises nothing, because a field whose
    name is computed is left as it is. *)
Lemma computed_name_not_checked_counterexample :
  let state := Examples.stateOf Examples.lifecycleWorld in
  let memberList := [Examples.onStartMethod; Examples.k_uses_c; Examples.c_is_1] in
  (locateOnStart memberList).2 = memberList
  ∧ memberList !! 1 = Some Examples.k_uses_c
  ∧ Examples.ident 227 "c" ∈ descendants (Examples.thisField 225 "c")
  ∧ getSymbol state 227 = Some (Examples.symbol 43 "c" None [230])
  ∧ memberList !! 2 = Some Examples.c_is_1
  ∧ declaredSymbol state Examples.c_is_1 = Some 43
  ∧ ∃ updated,
      updateClass state (Examples.Timer memberList) [Examples.ComponentDecorator]
        = Ok updated.
Proof.
  split; [reflexivity|]. split; [reflexivity|].
  split; [simpl; elem_of_list|]. split; [reflexivity|].
  split; [reflexivity|]. split; [reflexivity|].
  eexists. vm_compute. reflexivity.
Qed.

(** The test [!symbolIndex] of the validator also holds for the index 0: a
    field in the first position that mentions itself is not reported, and is
    reported once another member comes first. *)
Lemma first_member_mentions_itself :
  let state := Examples.stateOf Examples.lifecycleWorld in
  (∃ updated,
     updateClass state (Examples.Timer [Examples.b_uses_b; Examples.onStartMethod])
       [Examples.ComponentDecorator] = Ok updated)
  ∧ updateClass state (Examples.Timer [Examples.onStartMethod; Examples.b_uses_b])
      [Examples.ComponentDecorator]
    = Err (DiagnosticError 247 "Property 'b' is used before its initialization.").
Proof. split; [eexists|]; vm_compute; reflexivity. Qed.

(** The rewritten constructor takes the place of the first constructor. *)
Lemma replaceValue_constructor (members : list ClassElement) k constructor
    internal newConstructor :
  list_find (λ x, f.is_constructor x) members = Some (k, constructor) →
  f.is_constructor internal = false →
  replaceValue (internal :: members) constructor newConstructor
    = <[S k := newConstructor]> (internal :: members).
Proof.
  intros (Hk & Hconstructor & Hfirst)%list_find_Some Hinternal.
  unfold replaceValue.
  assert (Hfind : list_find (λ x, x = constructor) (internal :: members)
                  = Some (S k, constructor)).
  { apply list_find_Some. split; [done|]. split; [done|].
    intros [|j] y Hy Hlt ->; simpl in Hy.
    - injection Hy as ->. by rewrite Hinternal in Hconstructor.
    - apply (Hfirst j constructor Hy); [lia | done]. }
  by rewrite Hfind.
Qed.

Lemma locateOnStart_named (members : list ClassElement) :
  named "onStart" (element_name (locateOnStart members).1) = true.
Proof.
  unfold locateOnStart.
  destruct (list_find _ members) as [[i onStart]|] eqn:H; [|done].
  apply list_find_Some in H as (_ & H & _). simpl. by destruct (named _ _).
Qed.
(** * Further properties *)

(** ** Classes the transformer does not know *)

Ltac revision_cases H :=
  apply elem_of_cons in H as [-> | H];
  [|apply list_elem_of_singleton in H as ->].

(** X1. In either revision, a class without a symbol, without a name or
    without class information is handed to [state.transform] as it is: the
    transformer returns that node alone and cannot fail; and it returns a
    node alone for such a class only. *)
Theorem unregistered_class_passes_through transformer state node :
  transformer ∈ revisions →
  (unregistered state node →
   transformer state node = Ok (VisitedNode (transform state node)))
  ∧ (∀ result, transformer state node = Ok (VisitedNode result) →
       unregistered state node ∧ result = transform state node).
Proof.
  intros Hrev. unfold unregistered.
  revision_cases Hrev;
    [unfold transformClassDeclaration | unfold Legacy.transformClassDeclaration].
  all: destruct (getSymbol state (class_id node)) as [symbol|] eqn:Hsymbol;
    [|split; [done | intros result [= <-]; auto]].
  all: destruct (class_name node) as [name|] eqn:Hname;
    [|split; [done | intros result [= <-]; auto]].
  all: destruct (classes state !! sym_id symbol) as [classInfo|] eqn:Hinfo;
    [|split; [done | intros result [= <-]; eauto 10]].
  all: split;
    [ intros [? | [? | (symbol' & [= <-] & ?)]]; congruence
    | intros result H; exfalso; inv_result; discriminate ].
Qed.

Lemma unregistered_class_passes_through_witness :
  let state := Examples.stateOf Examples.metadataWorld in
  unregistered state Cases.Unknown
  ∧ transformClassDeclaration state Cases.Unknown = Ok (VisitedNode Cases.Unknown).
Proof.
  assert (H : unregistered (Examples.stateOf Examples.metadataWorld) Cases.Unknown)
    by (left; reflexivity).
  split; [exact H|].
  exact (proj1 (unregistered_class_passes_through transformClassDeclaration
                  (Examples.stateOf Examples.metadataWorld) Cases.Unknown
                  (list_elem_of_here _ _)) H).
Defined.

(** ** The statements that register the records *)

Lemma emitFields_statement state node name fields s :
  s ∈ emitFields state node name fields →
  kind (statement s) = ExpressionStatement
  ∧ metadataCallee s = Some (defineMetadataOf state node)
  ∧ metadataTarget s = Some name.
Proof.
  unfold emitFields, withLeadingComment. destruct fields as [|field fields]; simpl.
  - by intros ?%elem_of_nil.
  - intros [-> | (x & -> & (field' & -> & _)%list_elem_of_fmap)%list_elem_of_fmap]%elem_of_cons;
      done.
Qed.

Lemma emitFields_comments state node name field fields :
  ∃ first rest,
    emitFields state node name (field :: fields) = first :: rest
    ∧ leadingComment first = Some ("(Flamework) " +:+ text name +:+ " metadata")
    ∧ Forall (λ s, leadingComment s = None) rest.
Proof.
  unfold emitFields, withLeadingComment. simpl. do 2 eexists.
  split; [done|]. split; [done|].
  apply Forall_forall. by intros s (x & -> & _)%list_elem_of_fmap.
Qed.

(** X2. In either revision, the statements returned for a class are calls
    [Reflect.defineMetadata(<class name>, key, value)] on the import added to
    the file of the class. The first one registers [identifier] with the
    identifier of the class and is the only one with a leading comment,
    [(Flamework) <name> metadata]; the second one registers
    [flamework:isExternal] with the flag of the class information. *)
Theorem metadata_statements_shape transformer state node updated realFields :
  transformer ∈ revisions →
  transformer state node = Ok (VisitedNodes updated realFields) →
  ∃ symbol name classInfo first second rest,
    getSymbol state (class_id node) = Some symbol
    ∧ class_name node = Some name
    ∧ classes state !! sym_id symbol = Some classInfo
    ∧ realFields = first :: second :: rest
    ∧ leadingComment first = Some ("(Flamework) " +:+ text name +:+ " metadata")
    ∧ metadataKey first = Some "identifier"
    ∧ metadataValue first = Some (f.string (getUid state (class_id node)))
    ∧ metadataKey second = Some "flamework:isExternal"
    ∧ metadataValue second =
        Some (f.make (if isExternal classInfo then TrueKeyword else FalseKeyword) "" [])
    ∧ Forall (λ s, leadingComment s = None) (second :: rest)
    ∧ Forall (λ s, kind (statement s) = ExpressionStatement
                   ∧ metadataCallee s = Some (defineMetadataOf state node)
                   ∧ metadataTarget s = Some name) realFields.
Proof.
  intros Hrev H.
  assert (∃ symbol name classInfo,
            getSymbol state (class_id node) = Some symbol
            ∧ class_name node = Some name
            ∧ classes state !! sym_id symbol = Some classInfo)
    as (symbol & name & classInfo & Hsymbol & Hname & Hinfo).
  { pose proof Hrev as Hrev'. revision_cases Hrev'.
    - apply transformClassDeclaration_inv in H
        as (symbol & name & classInfo & _ & ? & ? & ? & _). eauto 10.
    - apply Legacy_transformClassDeclaration_inv in H
        as (symbol & name & classInfo & _ & ? & ? & ? & _). eauto 10. }
  destruct (revision_processed _ _ _ _ _ _ _ Hrev Hsymbol Hname Hinfo H)
    as (updated' & deps & impl & ids & configs & [= -> ->] & _).
  set (fields := deps ++ impl ++ decoratorFields ids configs).
  exists symbol, name, classInfo.
  destruct (emitFields_comments state node name
              ("identifier", CString (getUid state (class_id node)))
              (("flamework:isExternal", CBoolean (isExternal classInfo)) :: fields))
    as (first & rest & Hemit & Hcomment & Hrest).
  change ([("identifier", CString (getUid state (class_id node)));
           ("flamework:isExternal", CBoolean (isExternal classInfo))]
          ++ deps ++ impl ++ decoratorFields ids configs)
    with (("identifier", CString (getUid state (class_id node)))
          :: ("flamework:isExternal", CBoolean (isExternal classInfo)) :: fields).
  destruct (emitFields_lookup state node name
              (("identifier", CString (getUid state (class_id node)))
               :: ("flamework:isExternal", CBoolean (isExternal classInfo)) :: fields)
              0 _ eq_refl) as (s0 & Hs0 & Hkey0 & Hvalue0 & _).
  destruct (emitFields_lookup state node name
              (("identifier", CString (getUid state (class_id node)))
               :: ("flamework:isExternal", CBoolean (isExternal classInfo)) :: fields)
              1 _ eq_refl) as (s1 & Hs1 & Hkey1 & Hvalue1 & _).
  rewrite Hemit in Hs0, Hs1. simpl in Hs0, Hs1. injection Hs0 as ->.
  destruct rest as [|second rest]; [done|]. simpl in Hs1. injection Hs1 as ->.
  exists s0, s1, rest. repeat split; try done.
  - rewrite Hvalue1. simpl. by destruct (isExternal classInfo).
  - apply Forall_forall. intros s Hs.
    by apply emitFields_statement in Hs.
Qed.

Lemma metadata_statements_shape_witness :
  let state := Examples.stateOf Examples.metadataWorld in
  ∃ updated first second rest,
    transformClassDeclaration state Examples.Store =
      Ok (VisitedNodes updated (first :: second :: rest))
    ∧ leadingComment first = Some "(Flamework) Store metadata"
    ∧ metadataKey first = Some "identifier"
    ∧ metadataValue second = Some (f.make FalseKeyword "" [])
    ∧ Forall (λ s, leadingComment s = None) (second :: rest)
    ∧ length rest = 4.
Proof.
  destruct (metadata_statements_shape transformClassDeclaration
              (Examples.stateOf Examples.metadataWorld) Examples.Store
              Examples.Store
              (emitFields (Examples.stateOf Examples.metadataWorld) Examples.Store
                 (Examples.ident 111 "Store")
                 [("identifier", CString "$Store");
                  ("flamework:isExternal", CBoolean false);
                  ("flamework:dependencies", CArray [CString "$Database"; CString "$Logger"]);
                  ("flamework:implements",
                   CExpression (f.array [f.string "$Saveable"] false));
                  ("flamework:decorators", CArray [CString "$Service"]);
                  ("flamework:decorators.$Service",
                   CExpression
                     (f.object [f.propertyAssignmentDeclaration "type" (CString "Service")]))]))
    as (symbol & name & classInfo & first & second & rest
        & Hsymbol & Hname & Hinfo & Hfields & Hcomment & Hkey & _ & _ & Hvalue & Hrest & _).
  - apply list_elem_of_here.
  - vm_compute. reflexivity.
  - injection Hname as <-. vm_compute in Hsymbol. injection Hsymbol as <-.
    vm_compute in Hinfo. injection Hinfo as <-.
    exists Examples.Store, first, second, rest.
    split; [rewrite <- Hfields; vm_compute; reflexivity|].
    split; [exact Hcomment|]. split; [exact Hkey|]. split; [exact Hvalue|].
    split; [exact Hrest|].
    apply (f_equal length) in Hfields.
    unfold emitFields, withLeadingComment in Hfields. simpl in Hfields. simpl. lia.
Defined.

(** ** The two revisions *)

Lemma existsb_filter_false {A} (p q : A → bool) (l : list A) :
  existsb p l = false → existsb p (List.filter q l) = false.
Proof.
  induction l as [|x l IH]; simpl; [done|].
  intros [Hx Hl]%orb_false_iff. destruct (q x); simpl; [|auto].
  by rewrite Hx, IH.
Qed.

Lemma implementsField_without_component state node classInfo :
  existsb isComponent (decorators classInfo) = false →
  implementsField state node classInfo = Legacy.implementsField state node.
Proof.
  intros Hcomponent. unfold implementsField, Legacy.implementsField, injectOnStart.
  rewrite Hcomponent. by destruct (heritageClauses node).
Qed.

(** X3. The later revision changes nothing for a class that is not a
    component: when the class information lists no decorator [Component] of
    the framework, both revisions return the same class and the same
    statements, or abort with the same failure. The configuration builder
    is the same in both revisions, the factory function for a property
    assignment going by its earlier name in the earlier one. *)
Theorem revisions_agree_without_component state node :
  (∀ symbol classInfo,
     getSymbol state (class_id node) = Some symbol →
     classes state !! sym_id symbol = Some classInfo →
     existsb isComponent (decorators classInfo) = false) →
  transformClassDeclaration state node = Legacy.transformClassDeclaration state node.
Proof.
  intros Hcomponent.
  unfold transformClassDeclaration, Legacy.transformClassDeclaration, updateClass.
  destruct (getSymbol state (class_id node)) as [symbol|] eqn:Hsymbol; [|done].
  destruct (class_name node) as [name|]; [|done].
  destruct (classes state !! sym_id symbol) as [classInfo|] eqn:Hinfo; [|done].
  specialize (Hcomponent symbol classInfo eq_refl Hinfo).
  unfold metadataFields, Legacy.metadataFields, updateClass.
  rewrite implementsField_without_component by done.
  rewrite existsb_filter_false by done.
  destruct (dependenciesField state node) as [dependencies|]; [|done]. simpl.
  destruct (Legacy.implementsField state node) as [implements|]; [|done]. simpl.
  by destruct (collectDecorators state node _) as [collected|].
Qed.

Lemma revisions_agree_without_component_witness :
  let state := Examples.stateOf Examples.metadataWorld in
  (∀ symbol classInfo,
     getSymbol state (class_id Examples.Store) = Some symbol →
     classes state !! sym_id symbol = Some classInfo →
     existsb isComponent (decorators classInfo) = false)
  ∧ transformClassDeclaration state Examples.Store
    = Legacy.transformClassDeclaration state Examples.Store.
Proof.
  assert (H : ∀ symbol classInfo,
     getSymbol (Examples.stateOf Examples.metadataWorld) (class_id Examples.Store)
       = Some symbol →
     classes (Examples.stateOf Examples.metadataWorld) !! sym_id symbol = Some classInfo →
     existsb isComponent (decorators classInfo) = false).
  { intros symbol classInfo Hsymbol Hinfo.
    vm_compute in Hsymbol. injection Hsymbol as <-.
    vm_compute in Hinfo. injection Hinfo as <-. reflexivity. }
  split; [exact H|].
  exact (revisions_agree_without_component _ _ H).
Defined.

(** ** The decorators list and the configuration records *)

Lemma collectDecorators_keys state node decorators acc acc' :
  foldlM (collectDecorator state node) acc decorators = Ok acc' →
  acc'.2.*1 =
    foldl (λ keys id, if bool_decide (id ∈ keys) then keys else keys ++ [id])
      acc.2.*1 (decoratorUid state <$> decorators).
Proof.
  revert acc. induction decorators as [|d decorators IH]; intros acc H; simpl in H.
  - by injection H as <-.
  - inv_result. apply IH in H as ->. unfold collectDecorator in Ha. inv_result.
    simpl. by rewrite Map_set_keys.
Qed.

Lemma collectDecorators_configs state node decorators acc acc' :
  foldlM (collectDecorator state node) acc decorators = Ok acc' →
  Forall (λ d, ∃ config, decoratorConfig state node d = Ok config) decorators.
Proof.
  revert acc. induction decorators as [|d decorators IH]; intros acc H; simpl in H;
    [constructor|].
  inv_result. constructor; [|eauto].
  unfold collectDecorator in Ha. inv_result. eauto.
Qed.

(** X4. In either revision, the configuration records of a class follow
    its [flamework:decorators] record and close the output: there is one
    record [flamework:decorators.<uid>] for every identifier of the list, at
    the place of the first occurrence of the identifier, and nothing else.
    The record of an identifier holds the configuration of the last
    decorator with nodes that has this identifier, whether the decorator is
    one of the framework or not. *)
Theorem decorator_records_follow_the_list
    transformer state node symbol classInfo updated realFields :
  transformer ∈ revisions →
  getSymbol state (class_id node) = Some symbol →
  classes state !! sym_id symbol = Some classInfo →
  transformer state node = Ok (VisitedNodes updated realFields) →
  let applied := List.filter isWithNodes (decorators classInfo) in
  (∃ before,
     omap metadataKey realFields =
       before ++ "flamework:decorators"
         :: ((λ id, "flamework:decorators." +:+ id)
               <$> firstOccurrences (decoratorUid state <$> applied))
     ∧ Forall (λ key, key ∈ fixedKeys) before)
  ∧ ∀ earlier decorator later,
      applied = earlier ++ decorator :: later →
      decoratorUid state decorator ∉ decoratorUid state <$> later →
      ∃ config s,
        decoratorConfig state node decorator = Ok config
        ∧ s ∈ realFields
        ∧ metadataKey s = Some ("flamework:decorators." +:+ decoratorUid state decorator)
        ∧ metadataValue s = Some config.
Proof.
  intros Hrev Hsymbol Hinfo H applied.
  destruct (class_name node) as [name|] eqn:Hname.
  2:{ exfalso. revision_cases Hrev.
      - apply transformClassDeclaration_inv in H as (?&?&?&?&?&?&?); congruence.
      - apply Legacy_transformClassDeclaration_inv in H as (?&?&?&?&?&?&?); congruence. }
  destruct (revision_processed _ _ _ _ _ _ _ Hrev Hsymbol Hname Hinfo H)
    as (updated' & deps & impl & ids & configs & [= -> ->] & Hdeps & Himpl & _ & Hcollect).
  fold applied in Hcollect. split.
  - exists (["identifier"; "flamework:isExternal"] ++ deps.*1 ++ impl.*1). split.
    + rewrite emitFields_keys, !fmap_cons, !fmap_app, decoratorFields_keys. cbn [fst].
      unfold collectDecorators in Hcollect.
      apply collectDecorators_keys in Hcollect. simpl in Hcollect.
      rewrite Hcollect. unfold firstOccurrences. simpl. by rewrite <- !app_assoc.
    + apply dependenciesField_shape, optionalRecord_keys in Hdeps.
      apply optionalRecord_keys in Himpl. unfold fixedKeys.
      repeat apply Forall_app_2; [repeat constructor; elem_of_list | |].
      * destruct Hdeps as [-> | ->]; repeat constructor; elem_of_list.
      * destruct Himpl as [-> | ->]; repeat constructor; elem_of_list.
  - intros earlier decorator later Happlied Hlast.
    pose proof (collectDecorators_configs _ _ _ _ _ Hcollect) as Hconfigs.
    rewrite Forall_forall in Hconfigs.
    destruct (Hconfigs decorator) as [config Hconfig].
    { rewrite Happlied, elem_of_app. right. apply list_elem_of_here. }
    apply collectDecorators_spec in Hcollect as (_ & _ & Hin).
    specialize (Hin _ _ _ _ Happlied Hconfig Hlast).
    set (field := ("flamework:decorators." +:+ decoratorUid state decorator,
                   CExpression config)).
    assert (Hfield : field ∈ decoratorFields ids configs).
    { unfold decoratorFields. apply list_elem_of_further.
      apply list_elem_of_fmap. eexists. split; [|exact Hin]. done. }
    match goal with |- ∃ c s, _ ∧ s ∈ emitFields _ _ _ ?fields ∧ _ =>
      assert (Hfields : field ∈ fields)
        by (simpl; do 2 apply list_elem_of_further; rewrite !elem_of_app; eauto)
    end.
    apply list_elem_of_lookup in Hfields as [i Hi].
    destruct (emitFields_lookup state node name _ _ _ Hi) as (s & Hs & Hkey & Hvalue & _).
    exists config, s. split; [done|]. split; [by eapply list_elem_of_lookup_2|]. by split.
Qed.

Lemma decorator_records_follow_the_list_witness :
  let state := Examples.stateOf Examples.metadataWorld in
  let slow :=
    DecoratorWithNodes "Tagged" false 52
      [mkNode 92 StringLiteral "slow" []; Examples.number 93 "2"] in
  ∃ updated realFields,
    transformClassDeclaration state Examples.Job = Ok (VisitedNodes updated realFields)
    ∧ omap metadataKey realFields =
        ["identifier"; "flamework:isExternal"; "flamework:decorators";
         "flamework:decorators.$Tagged"]
    ∧ ∃ s, s ∈ realFields
           ∧ metadataKey s = Some "flamework:decorators.$Tagged"
           ∧ metadataValue s =
               Some (f.objectOf
                       [("type", CString "Arbitrary");
                        ("arguments", CArray (CExpression <$> dec_arguments slow))]).
Proof.
  intros state slow.
  destruct (transformClassDeclaration state Examples.Job) as [[|updated realFields]|]
    eqn:H; try (vm_compute in H; discriminate H).
  exists updated, realFields. split; [reflexivity|].
  split; [vm_compute in H; injection H as <- <-; reflexivity|].
  destruct (proj2 (decorator_records_follow_the_list transformClassDeclaration
                     state Examples.Job (Examples.symbol 32 "Job" None [120])
                     {| isExternal := false;
                        decorators := [Examples.TaggedFast; slow] |}
                     updated realFields
                     (list_elem_of_here _ _) eq_refl eq_refl H)
                  [Examples.TaggedFast] slow [] eq_refl)
    as (config & s & Hconfig & Hs & Hkey & Hvalue).
  - simpl. apply not_elem_of_nil.
  - exists s. split; [exact Hs|]. split; [exact Hkey|].
    vm_compute in Hconfig. injection Hconfig as <-. exact Hvalue.
Defined.

(** ** Failures *)

Lemma deref_Err {A} what (o : option A) e : deref what o = Err e → isTypeError e.
Proof. destruct o; [done|]. intros [= <-]. by eexists. Qed.

Lemma foldlM_Err {A B} (step : B → A → Result B) acc l e :
  foldlM step acc l = Err e → ∃ acc' x, x ∈ l ∧ step acc' x = Err e.
Proof.
  revert acc. induction l as [|x l IH]; intros acc; [done|]. simpl.
  intros [H | (acc' & _ & H)]%bind_Err.
  - exists acc, x. split; [apply list_elem_of_here | done].
  - destruct (IH _ H) as (acc'' & y & Hy & Hstep).
    exists acc'', y. split; [by apply list_elem_of_further | done].
Qed.

(** Case analysis on a computation that fails. *)
Ltac failure H :=
  repeat (cbv zeta in H;
    match type of H with
    | Ok _ = Err _ => discriminate H
    | Err _ = Err _ => injection H as <-
    | deref _ _ = Err _ => apply deref_Err in H
    | _ ≫= _ = Err _ => apply bind_Err in H as [H | (? & ? & H)]
    | mbind _ _ = Err _ => apply bind_Err in H as [H | (? & ? & H)]
    | match ?scrutinee with _ => _ end = Err _ =>
        let E := fresh "E" in destruct scrutinee eqn:E
    | (if ?condition then _ else _) = Err _ =>
        let E := fresh "E" in destruct condition eqn:E
    end).

Lemma calculateOmittedGuards_Err state node customAttributes e :
  calculateOmittedGuards state node customAttributes = Err e → isTypeError e.
Proof.
  unfold calculateOmittedGuards. intros H. failure H; try done.
  apply foldlM_Err in H as (acc & symbol & _ & H). by failure H.
Qed.

Lemma filterGuards_Err omittedGuards guards e :
  filterGuards omittedGuards guards = Err e → isTypeError e.
Proof.
  induction guards as [|x guards IH]; simpl; intros H; failure H; auto.
Qed.

Lemma baseComponentSymbol_Err state e :
  baseComponentSymbol state = Err e → isTypeError e.
Proof. unfold baseComponentSymbol. intros H. by failure H. Qed.

Lemma updateAttributeGuards_Err state node properties e :
  updateAttributeGuards state node properties = Err e → isTypeError e.
Proof.
  unfold updateAttributeGuards. intros H.
  failure H; eauto using baseComponentSymbol_Err, calculateOmittedGuards_Err, filterGuards_Err.
Qed.

Lemma updateInstanceGuard_Err state node properties e :
  updateInstanceGuard state node properties = Err e → isTypeError e.
Proof.
  unfold updateInstanceGuard. intros H.
  failure H; eauto using baseComponentSymbol_Err.
Qed.

Lemma generateFlameworkConfig_Err state node decorator config e :
  generateFlameworkConfig state node decorator config = Err e → isTypeError e.
Proof.
  unfold generateFlameworkConfig, updateComponentConfig. intros H.
  failure H; eauto using updateAttributeGuards_Err, updateInstanceGuard_Err.
Qed.

Lemma collectDecorators_Err state node decorators e :
  collectDecorators state node decorators = Err e → isTypeError e.
Proof.
  unfold collectDecorators. intros (acc & x & _ & H)%foldlM_Err.
  unfold collectDecorator, decoratorConfig in H.
  failure H; eauto using generateFlameworkConfig_Err.
Qed.

Lemma onStartUid_Err state e : onStartUid state = Err e → isTypeError e.
Proof. unfold onStartUid. intros H. by failure H. Qed.

Lemma mapM_Err {A B} (step : A → Result B) (l : list A) e :
  mapM step l = Err e → ∃ x, x ∈ l ∧ step x = Err e.
Proof.
  induction l as [|x l IH]; [done|]. simpl.
  intros [H | (y & _ & [H | (ys & _ & H)]%bind_Err)]%bind_Err.
  - exists x. split; [apply list_elem_of_here | done].
  - destruct (IH H) as (x' & Hx' & Hstep).
    exists x'. split; [by apply list_elem_of_further | done].
  - done.
Qed.

(** The loop over the parameters fails at a parameter, with one of its two
    diagnostics. *)
Lemma dependenciesField_Err state node e :
  dependenciesField state node = Err e →
  ∃ id parameters body param,
    List.find f.is_constructor (members node)
      = Some (ConstructorDeclaration id parameters body)
    ∧ param ∈ parameters
    ∧ (e = DiagnosticError (param_id param) "Expected type reference"
       ∨ e = DiagnosticError (param_id param) "Could not find declaration").
Proof.
  unfold dependenciesField.
  destruct (List.find _ _) as [[| |id parameters body|]|]; try done.
  intros [H | (uids & _ & H)]%bind_Err; [|by destruct (bool_decide _)].
  apply mapM_Err in H as (param & Hin & H).
  exists id, parameters, body, param. split; [done|]. split; [done|].
  unfold constructorDependency, Diagnostics.error in H.
  destruct (negb _); [injection H as <-; by left|].
  destruct (firstDeclaration _ _); [done|]. injection H as <-. by right.
Qed.

Lemma implementsField_Err state node classInfo e :
  implementsField state node classInfo = Err e →
  isTypeError e
  ∨ ∃ existingOnStart,
      List.find (λ x, named "onStart" (element_name x)) (members node)
        = Some existingOnStart
      ∧ e = DiagnosticError (element_id existingOnStart)
              "Components can not have a member named 'onStart'".
Proof.
  unfold implementsField, injectOnStart, Diagnostics.error. intros H.
  failure H; eauto using onStartUid_Err.
Qed.

Lemma updateClass_Err state node decorators e :
  updateClass state node decorators = Err e →
  isTypeError e ∨ UseBeforeInitialization e.
Proof.
  unfold updateClass, rewriteMembers. intros H. failure H.
  - right. apply mapMembers_Err in H as (k & x & _ & Hx).
    apply deferInitializer_Err in Hx as (?&?&?&?&?&?&?& reference & _ & _ & _ & _ & Hn).
    by apply validator_Err in Hn as [? _].
  - left. by apply hoistConstructor_Err in H.
Qed.

Lemma Legacy_implementsField_Ok state node :
  ∃ implements, Legacy.implementsField state node = Ok implements.
Proof.
  unfold Legacy.implementsField. destruct (heritageClauses node); [|eauto].
  destruct (bool_decide _); eauto.
Qed.

(** ** When the optional records are there *)










Lemma isTypeError_diagnostic location message :
  ¬ isTypeError (DiagnosticError location message).
Proof. by intros [what ?]. Qed.

(** X6. The fatal diagnostics of the transformer. In either revision a
    diagnostic raised for a class is "Expected type reference" or "Could not
    find declaration" at a parameter of the first constructor of the class;
    the later revision also raises "Components can not have a member named
    'onStart'" at the first member of that name, and "Property ... is used
    before its initialization". No other diagnostic comes out of the
    transformer. *)
Theorem diagnostics_of_the_transformer transformer state node location message :
  transformer ∈ revisions →
  transformer state node = Err (DiagnosticError location message) →
  (∃ id parameters body param,
     List.find f.is_constructor (members node)
       = Some (ConstructorDeclaration id parameters body)
     ∧ param ∈ parameters
     ∧ location = param_id param
     ∧ (message = "Expected type reference" ∨ message = "Could not find declaration"))
  ∨ (transformer = transformClassDeclaration
     ∧ ((∃ existingOnStart,
           List.find (λ x, named "onStart" (element_name x)) (members node)
             = Some existingOnStart
           ∧ location = element_id existingOnStart
           ∧ message = "Components can not have a member named 'onStart'")
        ∨ UseBeforeInitialization (DiagnosticError location message))).
Proof.
  intros Hrev H.
  assert (Hdependencies : ∀ e,
            dependenciesField state node = Err e → e = DiagnosticError location message →
            ∃ id parameters body param,
              List.find f.is_constructor (members node)
                = Some (ConstructorDeclaration id parameters body)
              ∧ param ∈ parameters
              ∧ location = param_id param
              ∧ (message = "Expected type reference"
                 ∨ message = "Could not find declaration")).
  { intros e (id & parameters & body & param & Hfind & Hin & He)%dependenciesField_Err ->.
    exists id, parameters, body, param. split; [done|]. split; [done|].
    destruct He as [[= -> ->] | [= -> ->]]; auto. }
  revision_cases Hrev.
  - unfold transformClassDeclaration, metadataFields in H.
    failure H; try (by left; eapply Hdependencies).
    + apply implementsField_Err in H as [H | (existingOnStart & Hfind & [= -> ->])].
      * by apply isTypeError_diagnostic in H.
      * right. split; [done|]. left. by exists existingOnStart.
    + by apply collectDecorators_Err, isTypeError_diagnostic in H.
    + apply updateClass_Err in H as [H | H].
      * by apply isTypeError_diagnostic in H.
      * right. split; [done|]. by right.
  - unfold Legacy.transformClassDeclaration, Legacy.metadataFields in H.
    failure H; try (by left; eapply Hdependencies).
    + destruct (Legacy_implementsField_Ok state node) as [implements Himplements].
      congruence.
    + by apply collectDecorators_Err, isTypeError_diagnostic in H.
Qed.

Lemma diagnostics_of_the_transformer_witness :
  let state := Examples.stateOf Examples.metadataWorld in
  transformClassDeclaration state Examples.Broken
    = Err (DiagnosticError 150 "Expected type reference")
  ∧ ((∃ id parameters body param,
        List.find f.is_constructor (members Examples.Broken)
          = Some (ConstructorDeclaration id parameters body)
        ∧ param ∈ parameters
        ∧ 150 = param_id param
        ∧ ("Expected type reference" = "Expected type reference"
           ∨ "Expected type reference" = "Could not find declaration"))
     ∨ (transformClassDeclaration = transformClassDeclaration
        ∧ ((∃ existingOnStart,
              List.find (λ x, named "onStart" (element_name x)) (members Examples.Broken)
                = Some existingOnStart
              ∧ 150 = element_id existingOnStart
              ∧ "Expected type reference"
                = "Components can not have a member named 'onStart'")
           ∨ UseBeforeInitialization (DiagnosticError 150 "Expected type reference")))).
Proof.
  split; [reflexivity|].
  exact (diagnostics_of_the_transformer transformClassDeclaration
           (Examples.stateOf Examples.metadataWorld) Examples.Broken 150
           "Expected type reference" (list_elem_of_here _ _) eq_refl).
Defined.

(** ** Classes the transformer completes on *)

Lemma dependenciesField_completes state node :
  (∀ id parameters body,
     List.find f.is_constructor (members node)
       = Some (ConstructorDeclaration id parameters body) →
     Forall (λ param, is_Some (parameterDeclaration state param)) parameters) →
  ∃ dependencies, dependenciesField state node = Ok dependencies.
Proof.
  intros Hresolved. unfold dependenciesField.
  destruct (List.find _ _) as [[| |id parameters body|]|]; eauto.
  specialize (Hresolved _ _ _ eq_refl).
  assert (∃ declarations,
            Forall2 (λ p d, parameterDeclaration state p = Some d) parameters declarations)
    as [declarations Hdeclarations].
  { induction Hresolved as [|p parameters [d Hd] _ [declarations IH]].
    - exists []. constructor.
    - exists (d :: declarations). by constructor. }
  rewrite (constructorDependencies_resolved _ _ _ Hdeclarations). simpl.
  destruct (bool_decide _); eauto.
Qed.

Lemma decoratorConfig_completes state node decorator :
  isComponent decorator = false →
  ∃ config, decoratorConfig state node decorator = Ok config.
Proof.
  unfold isComponent, decoratorConfig, generateFlameworkConfig. intros H.
  destruct (isFlameworkDecorator decorator); [|eauto]. simpl in H.
  rewrite H. simpl. eauto.
Qed.

Lemma collectDecorators_completes state node decorators acc :
  Forall (λ decorator, isComponent decorator = false) decorators →
  ∃ collected, foldlM (collectDecorator state node) acc decorators = Ok collected.
Proof.
  intros H. revert acc. induction H as [|d decorators Hd _ IH]; intros acc;
    cbn [foldlM]; [eauto|].
  destruct (decoratorConfig_completes state node d Hd) as [config Hconfig].
  assert (∃ acc', collectDecorator state node acc d = Ok acc') as [acc' ->]
    by (unfold collectDecorator; rewrite Hconfig; simpl; eauto).
  cbn [mbind Result_bind]. apply IH.
Qed.

Lemma existsb_false_Forall {A} (p : A → bool) (l : list A) :
  existsb p l = false → Forall (λ x, p x = false) l.
Proof.
  induction l as [|x l IH]; simpl; [constructor|].
  intros [? ?]%orb_false_iff. constructor; auto.
Qed.

(** X7. Apart from the parameters of the constructor, only a component
    can make the transformer stop: in either revision the transformer
    completes on every class whose class information lists no decorator
    [Component] of the framework and whose first constructor, when it has
    one, has parameters that all resolve to a declaration. *)
Theorem transformer_completes_without_component transformer state node :
  transformer ∈ revisions →
  (∀ id parameters body,
     List.find f.is_constructor (members node)
       = Some (ConstructorDeclaration id parameters body) →
     Forall (λ param, is_Some (parameterDeclaration state param)) parameters) →
  (∀ symbol classInfo,
     getSymbol state (class_id node) = Some symbol →
     classes state !! sym_id symbol = Some classInfo →
     existsb isComponent (decorators classInfo) = false) →
  ∃ result, transformer state node = Ok result.
Proof.
  intros Hrev Hresolved Hcomponent.
  destruct (dependenciesField_completes _ _ Hresolved) as [dependencies Hdependencies].
  destruct (Legacy_implementsField_Ok state node) as [implements Himplements].
  revision_cases Hrev;
    [unfold transformClassDeclaration, metadataFields, updateClass
    |unfold Legacy.transformClassDeclaration, Legacy.metadataFields].
  all: destruct (getSymbol state (class_id node)) as [symbol|] eqn:Hsymbol; [|eauto].
  all: destruct (class_name node) as [name|]; [|eauto].
  all: destruct (classes state !! sym_id symbol) as [classInfo|] eqn:Hinfo; [|eauto].
  all: specialize (Hcomponent symbol classInfo eq_refl Hinfo).
  all: rewrite ?implementsField_without_component by done.
  all: rewrite ?existsb_filter_false by done.
  all: rewrite Hdependencies, Himplements; simpl.
  all: destruct (collectDecorators_completes state node
                   (List.filter isWithNodes (decorators classInfo)) ([], []))
         as [collected Hcollected];
    [apply existsb_false_Forall; by apply existsb_filter_false|].
  all: unfold collectDecorators; rewrite Hcollected; simpl; eauto.
Qed.

Lemma transformer_completes_without_component_witness :
  let state := Examples.stateOf Examples.metadataWorld in
  ∃ result, Legacy.transformClassDeclaration state Examples.Store = Ok result.
Proof.
  apply (transformer_completes_without_component Legacy.transformClassDeclaration
           (Examples.stateOf Examples.metadataWorld) Examples.Store).
  - apply list_elem_of_further, list_elem_of_here.
  - intros id parameters body H. vm_compute in H. injection H as <- <- <-.
    repeat constructor; by eexists.
  - intros symbol classInfo Hsymbol Hinfo.
    vm_compute in Hsymbol. injection Hsymbol as <-.
    vm_compute in Hinfo. injection Hinfo as <-. reflexivity.
Defined.

(** ** What the later revision adds to the records *)

Lemma emitFields_cons state node name field fields :
  emitFields state node name (field :: fields) =
    {| leadingComment := Some ("(Flamework) " +:+ text name +:+ " metadata");
       statement :=
         defineMetadata
           (addFileImport state (getSourceFile state (class_id node))
              "@flamework/core" "Reflect") name field |}
    :: ((λ field,
           {| leadingComment := None;
              statement :=
                defineMetadata
                  (addFileImport state (getSourceFile state (class_id node))
                     "@flamework/core" "Reflect") name field |}) <$> fields).
Proof.
  unfold emitFields, withLeadingComment. rewrite fmap_cons.
  by rewrite <- list_fmap_compose.
Qed.

Lemma filter_skipped {A B} (P : B → Prop) `{∀ x, Decision (P x)} (f : A → B)
    (before skipped after : list A) :
  Forall (λ x, ¬ P (f x)) skipped →
  filter P (f <$> before ++ skipped ++ after) = filter P (f <$> before ++ after).
Proof.
  intros Hskipped. rewrite !fmap_app, !filter_app. f_equal.
  rewrite <- (app_nil_l (filter P (f <$> after))) at 2. f_equal.
  induction Hskipped as [|x skipped Hx _ IH]; [done|].
  by rewrite fmap_cons, filter_cons, decide_False.
Qed.

Lemma withoutImplements_fields state node name first before implements after P :
  optionalRecord "flamework:implements" P implements →
  withoutImplements (emitFields state node name (first :: before ++ implements ++ after))
  = withoutImplements (emitFields state node name (first :: before ++ after)).
Proof.
  intros Himplements. unfold withoutImplements. rewrite !emitFields_cons.
  rewrite (filter_cons _ _ (_ <$> before ++ implements ++ after)).
  rewrite (filter_cons _ _ (_ <$> before ++ after)).
  rewrite filter_skipped; [done|].
  destruct Himplements as [-> | (value & -> & _)]; repeat constructor.
  simpl. by intros [].
Qed.

(** X8. For the records, the later revision changes the implements
    record and nothing else: when it completes on a class, so does the
    earlier revision, and the statements the two return are the same, in the
    same order and with the same comment, once the statement that registers
    [flamework:implements] is left out of both. *)
Theorem later_revision_changes_the_implements_record_only
    state node updated realFields :
  transformClassDeclaration state node = Ok (VisitedNodes updated realFields) →
  ∃ updated' realFields',
    Legacy.transformClassDeclaration state node = Ok (VisitedNodes updated' realFields')
    ∧ withoutImplements realFields' = withoutImplements realFields.
Proof.
  intros H.
  apply transformClassDeclaration_inv in H
    as (symbol & name & classInfo & fields & Hsymbol & Hname & Hinfo & Hfields & -> & _).
  apply metadataFields_inv in Hfields
    as (dependencies & implements & ids & configs & Hdeps & Himpl & Hcollect & ->).
  destruct (Legacy_implementsField_Ok state node) as [implements' Himpl'].
  unfold Legacy.transformClassDeclaration, Legacy.metadataFields.
  rewrite Hsymbol, Hname, Hinfo, Hdeps. simpl. rewrite Himpl'. simpl.
  rewrite Hcollect. simpl. do 2 eexists. split; [reflexivity|].
  apply implementsField_shape in Himpl.
  apply Legacy_implementsField_shape in Himpl'.
  pose proof (withoutImplements_fields state node name
                ("identifier", CString (getUid state (class_id node)))
                (("flamework:isExternal", CBoolean (isExternal classInfo)) :: dependencies))
    as Hwithout.
  simpl in Hwithout. rewrite <- !app_assoc.
  rewrite (Hwithout implements' _ _ Himpl').
  by rewrite (Hwithout implements _ _ Himpl).
Qed.

Lemma later_revision_changes_the_implements_record_only_witness :
  let state := Examples.stateOf Examples.lifecycleWorld in
  ∃ updated realFields updated' realFields',
    transformClassDeclaration state Examples.Quiet = Ok (VisitedNodes updated realFields)
    ∧ Legacy.transformClassDeclaration state Examples.Quiet
      = Ok (VisitedNodes updated' realFields')
    ∧ omap metadataKey realFields
      = ["identifier"; "flamework:isExternal"; "flamework:implements";
         "flamework:decorators"; "flamework:decorators.$Component"]
    ∧ omap metadataKey realFields'
      = ["identifier"; "flamework:isExternal";
         "flamework:decorators"; "flamework:decorators.$Component"]
    ∧ withoutImplements realFields' = withoutImplements realFields.
Proof.
  intros state.
  destruct (transformClassDeclaration state Examples.Quiet)
    as [[|updated realFields]|e] eqn:H; try (vm_compute in H; discriminate H).
  destruct (later_revision_changes_the_implements_record_only state Examples.Quiet
              updated realFields H)
    as (updated' & realFields' & Hlegacy & Hsame).
  exists updated, realFields, updated', realFields'.
  split; [reflexivity|]. split; [exact Hlegacy|].
  split; [vm_compute in H; injection H as <- <-; reflexivity|].
  split; [vm_compute in Hlegacy; injection Hlegacy as <- <-; reflexivity|].
  exact Hsame.
Defined.

(** ** A class that implements [OnStart] itself *)

Lemma existsb_nonempty {A} (p : A → bool) (l : list A) :
  existsb p l = true → bool_decide (0 < length l) = true.
Proof. destruct l; [done|]. intros _. apply bool_decide_eq_true. simpl. lia. Qed.

(** X9. When the interfaces a class implements already hold the
    identifier of [OnStart], nothing is injected: the implements record is
    the list collected from the heritage clauses, the same in both
    revisions, and a member named [onStart] is no collision, so that the
    transformer does not raise "Components can not have a member named
    'onStart'". *)
Theorem written_onStart_is_not_injected state node classInfo clauses onStartId :
  heritageClauses node = Some clauses →
  onStartUid state = Ok onStartId →
  implementsOnStart onStartId (collectImplements state clauses) = true →
  implementsField state node classInfo
    = Ok [("flamework:implements",
           CExpression (f.array (collectImplements state clauses) false))]
  ∧ Legacy.implementsField state node = implementsField state node classInfo
  ∧ ∀ location,
      transformClassDeclaration state node
        ≠ Err (DiagnosticError location
                 "Components can not have a member named 'onStart'").
Proof.
  intros Hclauses HonStart Halready. unfold implementsOnStart in Halready.
  assert (Hmain : implementsField state node classInfo
            = Ok [("flamework:implements",
                   CExpression (f.array (collectImplements state clauses) false))]).
  { unfold implementsField, injectOnStart. rewrite Hclauses, HonStart. simpl.
    rewrite Halready. simpl.
    destruct (existsb isComponent _); simpl; by rewrite (existsb_nonempty _ _ Halready). }
  split; [done|]. split.
  { rewrite Hmain. unfold Legacy.implementsField. rewrite Hclauses.
    by rewrite (existsb_nonempty _ _ Halready). }
  intros location H.
  unfold transformClassDeclaration, metadataFields in H.
  destruct (getSymbol state (class_id node)) as [symbol|]; [|done].
  destruct (class_name node) as [name|]; [|done].
  destruct (classes state !! sym_id symbol) as [classInfo'|]; [|done].
  assert (Himplements : ∃ implements,
            implementsField state node classInfo' = Ok implements).
  { unfold implementsField, injectOnStart. rewrite Hclauses, HonStart. simpl.
    rewrite Halready. simpl. destruct (existsb isComponent _); simpl;
      destruct (bool_decide _); eauto. }
  destruct Himplements as [implements Himplements].
  apply bind_Err in H as [H | (fields & _ & H)].
  - apply bind_Err in H as [H | (dependencies & _ & H)].
    + apply dependenciesField_Err in H
        as (?&?&?&?&_&_& [[= _ ?] | [= _ ?]]); discriminate.
    + rewrite Himplements in H. simpl in H.
      apply bind_Err in H as [H | (? & _ & H)]; [|done].
      apply collectDecorators_Err in H as [what H]. discriminate H.
  - apply bind_Err in H as [H | (? & _ & H)]; [|done].
    apply updateClass_Err in H as [[what H] | (n & m & H)]; [discriminate H|].
    injection H as _ H. discriminate H.
Qed.

Lemma written_onStart_is_not_injected_witness :
  let state := Examples.stateOf Examples.lifecycleWorld in
  let node := Examples.Timer [Examples.onStartMethod] in
  implementsOnStart "$OnStart"
    (collectImplements state [Examples.extendsBase; Examples.implementsOnStart]) = true
  ∧ implementsField state node
      {| isExternal := false; decorators := [Examples.ComponentDecorator] |}
    = Ok [("flamework:implements", CExpression (f.array [f.string "$OnStart"] false))]
  ∧ ∀ location,
      transformClassDeclaration state node
        ≠ Err (DiagnosticError location
                 "Components can not have a member named 'onStart'").
Proof.
  split; [reflexivity|].
  destruct (written_onStart_is_not_injected
              (Examples.stateOf Examples.lifecycleWorld)
              (Examples.Timer [Examples.onStartMethod])
              {| isExternal := false; decorators := [Examples.ComponentDecorator] |}
              [Examples.extendsBase; Examples.implementsOnStart] "$OnStart"
              eq_refl eq_refl eq_refl) as (Hrecord & _ & Hquiet).
  split; [exact Hrecord | exact Hquiet].
Defined.

(** ** A component known by name only *)

Lemma collectImplements_strings state clauses x :
  x ∈ collectImplements state clauses → x = f.string (text x).
Proof.
  unfold collectImplements.
  intros (clause & Hx & _)%list_elem_of_bind.
  destruct (bool_decide _); [by apply elem_of_nil in Hx|].
  apply list_elem_of_bind in Hx as (type & Hx & _).
  destruct (negb _); [by apply elem_of_nil in Hx|].
  destruct (firstDeclaration _ _); [|by apply elem_of_nil in Hx].
  by apply list_elem_of_singleton in Hx as ->.
Qed.

Lemma injectOnStart_component state node classInfo implementClauses injected :
  existsb isComponent (decorators classInfo) = true →
  (∀ x, x ∈ implementClauses → x = f.string (text x)) →
  injectOnStart state node classInfo implementClauses = Ok injected →
  ∃ onStartId, onStartUid state = Ok onStartId ∧ f.string onStartId ∈ injected.
Proof.
  unfold injectOnStart, Diagnostics.error. intros -> Hstrings H. inv_result.
  exists a. split; [done|]. destruct (negb _) eqn:Halready.
  - destruct (List.find _ _); [discriminate|]. inv_result.
    rewrite elem_of_app. right. apply list_elem_of_here.
  - inv_result. apply negb_false_iff, existsb_exists in Halready
      as (x & Hx%list_elem_of_In & Htext%bool_decide_eq_true).
    rewrite <- Htext, <- (Hstrings x Hx). done.
Qed.

(** X10. The implements record looks at every decorator of the class
    information, the rewriter at the decorators with nodes only. For a class
    with heritage clauses whose decorator [Component] is known by name and
    not among the decorators with nodes, the transformer, when it completes,
    registers the identifier of [OnStart] in the implements record and
    leaves the members as they are: no hook is added and no initializer is
    moved. *)
Theorem component_by_name_is_not_rewritten
    state node symbol classInfo clauses updated realFields :
  getSymbol state (class_id node) = Some symbol →
  classes state !! sym_id symbol = Some classInfo →
  heritageClauses node = Some clauses →
  existsb isComponent (decorators classInfo) = true →
  existsb isComponent (List.filter isWithNodes (decorators classInfo)) = false →
  transformClassDeclaration state node = Ok (VisitedNodes updated realFields) →
  updated = transform state (f.update.classDeclaration node (class_name node) (members node))
  ∧ ∃ onStartId implementClauses s,
      onStartUid state = Ok onStartId
      ∧ s ∈ realFields
      ∧ metadataKey s = Some "flamework:implements"
      ∧ metadataValue s = Some (f.array implementClauses false)
      ∧ f.string onStartId ∈ implementClauses.
Proof.
  intros Hsymbol Hinfo Hclauses Hcomponent Hnodes H.
  apply transformClassDeclaration_inv in H
    as (symbol' & name & classInfo' & fields & Hsymbol' & Hname & Hinfo' & Hfields & ->
        & Hupdated).
  rewrite Hsymbol in Hsymbol'. injection Hsymbol' as <-.
  rewrite Hinfo in Hinfo'. injection Hinfo' as <-.
  split.
  { unfold updateClass in Hupdated. rewrite Hnodes in Hupdated. by inv_result. }
  apply metadataFields_inv in Hfields
    as (dependencies & implements & ids & configs & _ & Himpl & _ & ->).
  unfold implementsField in Himpl. rewrite Hclauses in Himpl. inv_result.
  destruct (injectOnStart_component _ _ _ _ _ Hcomponent
              (collectImplements_strings state clauses) Ha)
    as (onStartId & HonStart & Hin).
  rewrite bool_decide_eq_true_2 in Himpl
    by (destruct a; [by apply elem_of_nil in Hin | simpl; lia]).
  injection Himpl as <-.
  set (field := ("flamework:implements", CExpression (f.array a false))).
  match goal with |- ∃ _ _ s, _ ∧ s ∈ emitFields _ _ _ ?fields ∧ _ =>
    assert (Hfield : field ∈ fields)
      by (rewrite !elem_of_app; right; right; left; apply list_elem_of_here)
  end.
  apply list_elem_of_lookup in Hfield as [i Hi].
  destruct (emitFields_lookup state node name _ _ _ Hi) as (s & Hs & Hkey & Hvalue & _).
  exists onStartId, a, s. split; [done|].
  split; [by eapply list_elem_of_lookup_2|]. by repeat split.
Qed.

Lemma component_by_name_is_not_rewritten_witness :
  let state := Examples.stateOf Cases.namedWorld in
  ∃ updated realFields,
    transformClassDeclaration state Examples.Quiet = Ok (VisitedNodes updated realFields)
    ∧ updated = Examples.Quiet
    ∧ ∃ onStartId implementClauses s,
        onStartUid state = Ok onStartId
        ∧ s ∈ realFields
        ∧ metadataKey s = Some "flamework:implements"
        ∧ metadataValue s = Some (f.array implementClauses false)
        ∧ f.string onStartId ∈ implementClauses.
Proof.
  intros state.
  destruct (transformClassDeclaration state Examples.Quiet)
    as [[|updated realFields]|e] eqn:H; try (vm_compute in H; discriminate H).
  exists updated, realFields. split; [reflexivity|].
  exact (component_by_name_is_not_rewritten state Examples.Quiet
           (Examples.symbol 41 "Timer" None [210])
           {| isExternal := true; decorators := [BaseDecoratorInfo "Component" true] |}
           [Examples.extendsBase] updated realFields
           eq_refl eq_refl eq_refl eq_refl eq_refl H).
Defined.

(** ** The configuration of a decorator of the framework *)

Lemma filterGuards_spec omittedGuards guards kept :
  filterGuards omittedGuards guards = Ok kept →
  kept `sublist_of` guards
  ∧ ∀ guard, guard ∈ kept →
      ∃ name, node_name guard = Some name ∧ text name ∉ omittedGuards.
Proof.
  revert kept. induction guards as [|x guards IH]; intros kept H; simpl in H.
  - injection H as <-. split; [done|]. by intros guard ?%elem_of_nil.
  - destruct (node_name x) as [xname|] eqn:Hx; simpl in H; [|discriminate].
    destruct (filterGuards _ guards) as [rest|] eqn:Hrest; simpl in H; [|discriminate].
    injection H as <-. destruct (IH _ eq_refl) as [Hsub Hnames]. case_bool_decide.
    + split; [by apply sublist_cons | done].
    + split; [by apply sublist_skip|].
      intros guard [-> | Hin]%elem_of_cons; [eauto | by apply Hnames].
Qed.

(** The guards that are kept are the guards whose name is not omitted. *)
Lemma filterGuards_elem omittedGuards guards kept :
  filterGuards omittedGuards guards = Ok kept →
  ∀ guard, guard ∈ kept ↔
    guard ∈ guards
    ∧ ∃ name, node_name guard = Some name ∧ text name ∉ omittedGuards.
Proof.
  revert kept. induction guards as [|x guards IH]; intros kept H guard; simpl in H.
  - injection H as <-. split; [by intros ?%elem_of_nil | by intros [?%elem_of_nil _]].
  - destruct (node_name x) as [xname|] eqn:Hx; simpl in H; [|discriminate].
    destruct (filterGuards _ guards) as [rest|] eqn:Hrest; simpl in H; [|discriminate].
    injection H as <-. specialize (IH _ eq_refl guard). case_bool_decide as Homitted.
    + rewrite IH, elem_of_cons. split; [intros [? ?]; auto|].
      intros [[-> | ?] (name & Hname & Hnot)]; [|eauto].
      rewrite Hx in Hname. by injection Hname as <-.
    + rewrite !elem_of_cons, IH. split.
      * intros [-> | [? ?]]; [eauto | auto].
      * intros [[-> | ?] ?]; [by left | right; auto].
Qed.

(** Every built guard has a name: then the filter completes. *)
Lemma filterGuards_named omittedGuards guards :
  Forall (λ guard, is_Some (node_name guard)) guards →
  ∃ kept, filterGuards omittedGuards guards = Ok kept.
Proof.
  induction 1 as [|x guards [xname Hx] _ [rest IH]]; simpl; [by eexists|].
  rewrite Hx, IH. simpl. by eexists.
Qed.

(** How [updateAttributeGuards] produces a new list of properties. *)
Lemma updateAttributeGuards_inv state node properties updated :
  updateAttributeGuards state node properties = Ok (Some updated) →
  ∃ attributesType omittedGuards filteredGuards,
    declaredByBaseComponent state node "attributes"
    ∧ declaredAttributesType state node = Some attributesType
    ∧ calculateOmittedGuards state node (writtenAttributes properties) = Ok omittedGuards
    ∧ filterGuards omittedGuards
        (buildGuardsFromType state (getSourceFile state (class_id node)) attributesType)
      = Ok filteredGuards
    ∧ updated =
        filter (λ x, Some x ≠ writtenAttributes properties) properties
        ++ [match objectAssignment (writtenAttributes properties) with
            | Some (attributes, name, initializer) =>
                f.update.propertyAssignmentDeclaration attributes
                  (f.update.object initializer (children initializer ++ filteredGuards))
                  name
            | None => f.propertyAssignmentDeclaration "attributes" (f.object filteredGuards)
            end].
Proof.
  unfold updateAttributeGuards, writtenAttributes. intros H. inv_result.
  destruct (getTypeAtLocation _ _) as [type|] eqn:Htype; [|by inv_result].
  simpl in Ha0. injection Ha0 as <-.
  destruct (getProperty _ _ _) as [property|] eqn:Hproperty; [|by inv_result].
  destruct (negb _) eqn:Hparent; [by inv_result|].
  apply negb_false_iff, bool_decide_eq_true in Hparent.
  destruct (getTypeOfSymbolAtLocation _ _ _) as [attributesType|] eqn:Hattributes;
    [|by inv_result].
  inv_result. exists attributesType, a0, a1.
  split; [by exists type, a, property|].
  split; [unfold declaredAttributesType; rewrite Htype; simpl; by rewrite Hproperty|].
  split; [done|]. split; [done|].
  by destruct (objectAssignment _) as [[[? ?] ?]|]; inv_result.
Qed.

(** When the function returns nothing the properties stay as they are. *)
Lemma updateAttributeGuards_None state node properties :
  ¬ declaredByBaseComponent state node "attributes" →
  ∀ updated, updateAttributeGuards state node properties = Ok updated → updated = None.
Proof.
  intros Hnot [updated|] H; [|done].
  by apply updateAttributeGuards_inv in H as (?&?&?&?&_).
Qed.

Lemma objectAssignment_Some x attributes name initializer :
  objectAssignment x = Some (attributes, name, initializer) →
  x = Some attributes
  ∧ node_name attributes = Some name
  ∧ node_initializer attributes = Some initializer
  ∧ kind attributes = PropertyAssignment
  ∧ kind initializer = ObjectLiteralExpression.
Proof.
  unfold objectAssignment. destruct x as [a|]; [|done]. simpl.
  destruct (node_name a) as [n|] eqn:Hn; simpl; [|done].
  destruct (node_initializer a) as [i|] eqn:Hi; simpl; [|done].
  do 2 (case_bool_decide; simpl; [|done]). by intros [= <- <- <-].
Qed.

(** ** Omitted guards *)

(** The names the loop over the author's entries records are the keys the
    author wrote as identifiers or string literals. *)
Lemma customAttributeNames_fold (entries : list Node) (init : gset string) name :
  name ∈ foldl (λ omittedNames prop,
                  if f.is_string (node_name prop) || f.is_identifier (node_name prop)
                  then Set_add omittedNames (from_option text "" (node_name prop))
                  else omittedNames) init entries
  ↔ name ∈ init
    ∨ ∃ entry key,
        entry ∈ entries ∧ node_name entry = Some key
        ∧ (kind key = Identifier ∨ kind key = StringLiteral) ∧ text key = name.
Proof.
  revert init. induction entries as [|prop entries IH]; intros init; simpl.
  - split; [by left | intros [? | (?&?&?%elem_of_nil&_)]; done].
  - rewrite IH. clear IH.
    assert (Hstep :
      name ∈ (if f.is_string (node_name prop) || f.is_identifier (node_name prop)
              then Set_add init (from_option text "" (node_name prop)) else init)
      ↔ name ∈ init
        ∨ ∃ key, node_name prop = Some key
                 ∧ (kind key = Identifier ∨ kind key = StringLiteral) ∧ text key = name).
    { unfold f.is_string, f.is_identifier, f.is_kind, Set_add.
      destruct (node_name prop) as [key|]; simpl.
      - do 2 case_bool_decide; simpl;
          rewrite ?elem_of_union, ?elem_of_singleton;
          (split; [(intros [?|?]; [by left | right; eauto 10]) || (intros ?; by left)
                  | intros [? | (key' & [= <-] & [?|?] & ?)]; auto; congruence]).
      - split; [by left | intros [? | (? & ? & _)]; done]. }
    rewrite Hstep. clear Hstep. split.
    + intros [[? | (key & ? & ? & ?)] | (entry & key & ? & ?)]; [by left | |].
      * right. exists prop, key. split; [apply list_elem_of_here | done].
      * right. exists entry, key. split; [by apply list_elem_of_further | done].
    + intros [? | (entry & key & [-> | ?]%elem_of_cons & ?)]; [by do 2 left | |].
      * left. right. by exists key.
      * right. by exists entry, key.
Qed.

Lemma customAttributeNames_spec customAttributes name :
  name ∈ customAttributeNames customAttributes ↔ writtenKey customAttributes name.
Proof.
  unfold customAttributeNames, writtenKey.
  destruct (objectAssignment customAttributes) as [[[a n] initializer]|] eqn:Hobject.
  - apply objectAssignment_Some in Hobject as (-> & Hname & Hinit & Hkind & Hobj).
    rewrite customAttributeNames_fold. split.
    + intros [?%not_elem_of_empty | (entry & key & ? & ? & ? & ?)]; [done|].
      by exists a, initializer, entry, key.
    + intros (a' & initializer' & entry & key & [= <-] & _ & Hinit' & _ & ? & ? & ? & ?).
      rewrite Hinit in Hinit'. injection Hinit' as <-. right. by exists entry, key.
  - split; [by intros ?%not_elem_of_empty|].
    intros (a & initializer & entry & key & -> & Hkind & Hinit & Hobj & _).
    exfalso. unfold objectAssignment in Hobject. simpl in Hobject.
    assert (∃ n, node_name a = Some n) as [n Hn].
    { unfold node_name, node_initializer in *. rewrite Hkind in *.
      destruct (children a) as [|n [|i l]]; try done. by exists n. }
    rewrite Hn, Hinit in Hobject. simpl in Hobject.
    by rewrite !bool_decide_eq_true_2 in Hobject.
Qed.

Lemma omitted_fold_includes (checker : TypeChecker) (attributes : option TsType)
    (superAttributes : TsType) (l : list Symbol) (init omittedNames : gset string) :
  foldlM (λ omittedNames symbol,
            let name := sym_name symbol in
            attributes ← deref "attributes" attributes;
            Ok match getTypeOfPropertyOfType checker attributes name,
                     getTypeOfPropertyOfType checker superAttributes name with
               | Some prop, Some superProp =>
                   if bool_decide (superProp = prop)
                   then Set_add omittedNames name else omittedNames
               | _, _ => omittedNames
               end) init l = Ok omittedNames →
  init ⊆ omittedNames
  ∧ ∀ x, x ∈ omittedNames → x ∉ init →
      ∃ declared prop,
        attributes = Some declared
        ∧ x ∈ sym_name <$> l
        ∧ getTypeOfPropertyOfType checker declared x = Some prop
        ∧ getTypeOfPropertyOfType checker superAttributes x = Some prop.
Proof.
  destruct attributes as [declared|].
  - erewrite foldlM_pure by (intros; reflexivity). intros [= <-]. split.
    + intros x Hx. apply omitted_fold_spec. by left.
    + intros x [Hx | (Hin & prop & H1 & H2)]%omitted_fold_spec Hnot; [done|].
      eauto 10.
  - destruct l as [|symbol l]; simpl; [|done]. intros [= <-].
    split; [done|]. intros x Hx Hnot. done.
Qed.

Lemma calculateOmittedGuards_bounds state node customAttributes omittedNames :
  calculateOmittedGuards state node customAttributes = Ok omittedNames →
  customAttributeNames customAttributes ⊆ omittedNames
  ∧ ∀ name, name ∈ omittedNames → name ∉ customAttributeNames customAttributes →
      ∃ attributes superAttributes prop,
        DeclaredAttributes state node attributes superAttributes
        ∧ name ∈ sym_name <$> getProperties (typeChecker state) superAttributes
        ∧ getTypeOfPropertyOfType (typeChecker state) attributes name = Some prop
        ∧ getTypeOfPropertyOfType (typeChecker state) superAttributes name = Some prop.
Proof.
  unfold calculateOmittedGuards. intros H.
  destruct (getTypeAtLocation _ (class_id node)) as [type|] eqn:Htype; [|done].
  simpl in H.
  destruct (getProperty _ type _) as [property|] eqn:Hproperty;
    [|injection H as <-; split; [done | intros ???; done]].
  destruct (head _) as [superClass|] eqn:Hsuper;
    [|injection H as <-; split; [done | intros ???; done]].
  destruct (getTypeAtLocation _ superClass) as [superType|] eqn:HsuperType; [|done].
  simpl in H.
  destruct (getProperty _ superType _) as [superProperty|] eqn:HsuperProperty;
    [|injection H as <-; split; [done | intros ???; done]].
  destruct (getTypeOfSymbolAtLocation _ superProperty _) as [superAttributes|]
    eqn:HsuperAttributes; [|done].
  simpl in H. apply omitted_fold_includes in H as [Hincl Hnew].
  split; [done|]. intros name Hin Hnot.
  destruct (Hnew name Hin Hnot) as (declared & prop & Hdeclared & Hname & H1 & H2).
  exists declared, superAttributes, prop. split; [|done].
  by exists type, property, superClass, superType, superProperty.
Qed.

(** The names that are omitted, for every class. *)
Lemma calculateOmittedGuards_iff state node customAttributes omittedNames :
  calculateOmittedGuards state node customAttributes = Ok omittedNames →
  ∀ name, name ∈ omittedNames ↔
    writtenKey customAttributes name ∨ inheritedUnchanged state node name.
Proof.
  intros H name. pose proof H as [Hincl Hnew]%calculateOmittedGuards_bounds.
  rewrite <- customAttributeNames_spec. split.
  - intros Hin.
    destruct (decide (name ∈ customAttributeNames customAttributes)) as [|Hnot];
      [by left | right; by apply Hnew].
  - intros [Hin | (attributes & superAttributes & prop & Hdeclared & Hname & H1 & H2)];
      [by apply Hincl|].
    destruct (calculateOmittedGuards_spec state node customAttributes _ _ Hdeclared)
      as (omittedNames' & Hcalc & Hspec).
    rewrite H in Hcalc. injection Hcalc as <-. apply Hspec. right. eauto.
Qed.

(** X11. Whatever the class, a name is among those [calculateOmittedGuards]
    returns exactly when the author wrote it as a key of an object literal
    [attributes: { ... }], as an identifier or as a string literal, or when
    it is a property of the attributes of the first superclass to which the
    checker gives the very same type in the class. A key written as a number
    or computed adds no name. For a class without a superclass the names are
    those keys of the author and no other. *)
Theorem omitted_guards_are_written_or_inherited
    state node customAttributes omittedNames :
  calculateOmittedGuards state node customAttributes = Ok omittedNames →
  (∀ name, name ∈ omittedNames ↔
     writtenKey customAttributes name ∨ inheritedUnchanged state node name)
  ∧ (∀ assignment initializer,
       customAttributes = Some assignment →
       node_initializer assignment = Some initializer →
       Forall (λ entry, ∀ key, node_name entry = Some key →
                 kind key ≠ Identifier ∧ kind key ≠ StringLiteral)
         (children initializer) →
       ∀ name, name ∈ omittedNames ↔ inheritedUnchanged state node name)
  ∧ (getSuperClasses state (class_id node) = [] →
     ∀ name, name ∈ omittedNames ↔ writtenKey customAttributes name).
Proof.
  intros H. pose proof (calculateOmittedGuards_iff _ _ _ _ H) as Hiff.
  split; [done|]. split.
  - intros assignment initializer -> Hinit Hkeys name. rewrite Hiff.
    split; [|by right]. intros [Hwritten | ?]; [|done]. exfalso.
    destruct Hwritten as (a & i & entry & key & [= <-] & _ & Hi & _ & Hentry & Hkey
                          & Hkind & _).
    rewrite Hinit in Hi. injection Hi as <-.
    rewrite Forall_forall in Hkeys. destruct (Hkeys entry Hentry key Hkey).
    by destruct Hkind.
  - intros Hsuper name. rewrite Hiff. split; [|by left].
    intros [? | (?&?&?& (?&?&?&?&?&_&_&Hhead&_) &_)]; [done|].
    by rewrite Hsuper in Hhead.
Qed.

Lemma omitted_guards_are_written_or_inherited_witness :
  let state := Examples.stateOf Cases.numberedWorld in
  ∃ omittedNames,
    calculateOmittedGuards state Examples.Sub (Some Cases.attributesNumbered)
      = Ok omittedNames
    ∧ "y" ∈ omittedNames
    ∧ ("5" ∉ omittedNames)
    ∧ (∀ name, name ∈ omittedNames ↔
         writtenKey (Some Cases.attributesNumbered) name
         ∨ inheritedUnchanged state Examples.Sub name).
Proof.
  intros state.
  destruct (calculateOmittedGuards state Examples.Sub (Some Cases.attributesNumbered))
    as [omittedNames|e] eqn:H; [|vm_compute in H; discriminate H].
  destruct (omitted_guards_are_written_or_inherited state Examples.Sub
              (Some Cases.attributesNumbered) omittedNames H)
    as (Hiff & Hnumbered & _).
  assert (Hinherited : ∀ name, name ∈ omittedNames ↔
                         inheritedUnchanged state Examples.Sub name).
  { apply (Hnumbered Cases.attributesNumbered
             (mkNode 505 ObjectLiteralExpression ""
                [mkNode 506 PropertyAssignment ""
                   [Examples.number 507 "5"; Examples.ident 508 "myGuard"]])
             eq_refl eq_refl).
    apply Forall_singleton. intros key [= <-]. split; discriminate. }
  exists omittedNames. split; [reflexivity|]. split; [|split; [|exact Hiff]].
  - apply Hinherited. exists 300, 301, Examples.number_t.
    split; [unfold DeclaredAttributes; do 5 eexists; repeat split; reflexivity|].
    split; [|split; reflexivity].
    apply list_elem_of_further, list_elem_of_here.
  - intros (attributes & superAttributes & prop & Hdeclared & _ & H1 & H2)%Hinherited.
    destruct Hdeclared as (type & property & superClass & superType & superProperty
                           & E1 & E2 & E3 & E4 & E5 & E6 & E7).
    vm_compute in E1. injection E1 as <-.
    vm_compute in E2. injection E2 as <-.
    vm_compute in E3. injection E3 as <-.
    vm_compute in E4. injection E4 as <-.
    vm_compute in E5. injection E5 as <-.
    vm_compute in E6. injection E6 as <-.
    vm_compute in E7. injection E7 as <-.
    vm_compute in H1. vm_compute in H2. congruence.
Defined.

(** ** Attribute guards and the properties of the author *)

(** X12. When the author wrote [attributes] as an object literal, the
    attribute guards are added to that literal: the property is moved to the
    end of the configuration with its own entries first, followed by guards
    generated from the attributes of the class, in the order
    [buildGuardsFromType] gives them; the other properties keep their order.
    The guards added are the built guards whose name is neither a key the
    author wrote as an identifier or a string literal nor an attribute that
    is inherited as it is. So no guard is added under such a key of the
    author, while a key written as a number or computed does not stop the
    guard of that name. *)
Theorem written_attributes_are_extended
    state node properties updated attributes name initializer :
  updateAttributeGuards state node properties = Ok (Some updated) →
  objectAssignment (writtenAttributes properties) = Some (attributes, name, initializer) →
  ∃ attributesType generated,
    declaredAttributesType state node = Some attributesType
    ∧ updated =
        filter (λ x, x ≠ attributes) properties
        ++ [mkNode (node_id attributes) PropertyAssignment (text attributes)
              [name;
               mkNode (node_id initializer) ObjectLiteralExpression (text initializer)
                 (children initializer ++ generated)]]
    ∧ generated `sublist_of`
        buildGuardsFromType state (getSourceFile state (class_id node)) attributesType
    ∧ (∀ guard, guard ∈ generated ↔
         guard ∈ buildGuardsFromType state (getSourceFile state (class_id node))
                   attributesType
         ∧ ∃ guardName,
             node_name guard = Some guardName
             ∧ ¬ writtenKey (Some attributes) (text guardName)
             ∧ ¬ inheritedUnchanged state node (text guardName))
    ∧ (Forall (λ entry, ∀ key, node_name entry = Some key →
                 kind key ≠ Identifier ∧ kind key ≠ StringLiteral)
         (children initializer) →
       ∀ guard guardName,
         guard ∈ buildGuardsFromType state (getSourceFile state (class_id node))
                   attributesType →
         node_name guard = Some guardName →
         ¬ inheritedUnchanged state node (text guardName) →
         guard ∈ generated).
Proof.
  intros H Hobject.
  apply updateAttributeGuards_inv in H
    as (attributesType & omittedGuards & generated & _ & Htype & Homitted & Hfilter & ->).
  rewrite Hobject.
  apply objectAssignment_Some in Hobject as (Hwritten & _ & Hinit & _).
  rewrite Hwritten in *.
  pose proof (calculateOmittedGuards_iff _ _ _ _ Homitted) as Hiff.
  pose proof (filterGuards_elem _ _ _ Hfilter) as Helem.
  apply filterGuards_spec in Hfilter as [Hsub _].
  assert (Hgenerated : ∀ guard, guard ∈ generated ↔
            guard ∈ buildGuardsFromType state (getSourceFile state (class_id node))
                      attributesType
            ∧ ∃ guardName,
                node_name guard = Some guardName
                ∧ ¬ writtenKey (Some attributes) (text guardName)
                ∧ ¬ inheritedUnchanged state node (text guardName)).
  { intros guard. rewrite Helem. split.
    - intros [Hin (guardName & Hname & Hnot)]. split; [done|]. exists guardName.
      rewrite Hiff in Hnot. tauto.
    - intros [Hin (guardName & Hname & Hw & Hi)]. split; [done|]. exists guardName.
      rewrite Hiff. tauto. }
  exists attributesType, generated. split; [done|]. split; [|split; [done|]].
  - f_equal. apply list_filter_iff. intros x. split; congruence.
  - split; [exact Hgenerated|].
    intros Hkeys guard guardName Hin Hname Hinherited.
    apply Hgenerated. split; [done|]. exists guardName.
    split; [done|]. split; [|done].
    intros (a & i & entry & key & [= <-] & _ & Hi & _ & Hentry & Hkey & Hkind & _).
    rewrite Hinit in Hi. injection Hi as <-.
    rewrite Forall_forall in Hkeys. destruct (Hkeys entry Hentry key Hkey).
    by destruct Hkind.
Qed.

Lemma written_attributes_are_extended_witness :
  let state := Examples.stateOf Cases.numberedWorld in
  let written :=
    mkNode 506 PropertyAssignment ""
      [Examples.number 507 "5"; Examples.ident 508 "myGuard"] in
  let updated :=
    [Cases.tag;
     mkNode 503 PropertyAssignment ""
       [Examples.ident 504 "attributes";
        mkNode 505 ObjectLiteralExpression "" [written; Cases.guardFive]]] in
  updateAttributeGuards state Examples.Sub [Cases.attributesNumbered; Cases.tag]
    = Ok (Some updated)
  ∧ ∃ attributesType generated,
      declaredAttributesType state Examples.Sub = Some attributesType
      ∧ updated =
          filter (λ x, x ≠ Cases.attributesNumbered) [Cases.attributesNumbered; Cases.tag]
          ++ [mkNode 503 PropertyAssignment ""
                [Examples.ident 504 "attributes";
                 mkNode 505 ObjectLiteralExpression "" ([written] ++ generated)]]
      ∧ generated `sublist_of`
          buildGuardsFromType state (getSourceFile state (class_id Examples.Sub))
            attributesType
      ∧ (∀ guard, guard ∈ generated ↔
           guard ∈ buildGuardsFromType state (getSourceFile state (class_id Examples.Sub))
                     attributesType
           ∧ ∃ guardName,
               node_name guard = Some guardName
               ∧ ¬ writtenKey (Some Cases.attributesNumbered) (text guardName)
               ∧ ¬ inheritedUnchanged state Examples.Sub (text guardName))
      ∧ (Forall (λ entry, ∀ key, node_name entry = Some key →
                   kind key ≠ Identifier ∧ kind key ≠ StringLiteral) [written] →
         ∀ guard guardName,
           guard ∈ buildGuardsFromType state (getSourceFile state (class_id Examples.Sub))
                     attributesType →
           node_name guard = Some guardName →
           ¬ inheritedUnchanged state Examples.Sub (text guardName) →
           guard ∈ generated).
Proof.
  split; [reflexivity|].
  exact (written_attributes_are_extended
           (Examples.stateOf Cases.numberedWorld) Examples.Sub
           [Cases.attributesNumbered; Cases.tag] _ Cases.attributesNumbered
           (Examples.ident 504 "attributes")
           (mkNode 505 ObjectLiteralExpression ""
              [mkNode 506 PropertyAssignment ""
                 [Examples.number 507 "5"; Examples.ident 508 "myGuard"]])
           eq_refl eq_refl).
Defined.

(** X13. When the author wrote [attributes] in another form (a shorthand,
    or a value that is not an object literal), the property is taken out of
    the configuration and an object of generated guards is put at the end in
    its place. *)
Theorem other_attributes_are_replaced state node properties updated attributes :
  updateAttributeGuards state node properties = Ok (Some updated) →
  writtenAttributes properties = Some attributes →
  objectAssignment (Some attributes) = None →
  ∃ attributesType generated,
    declaredAttributesType state node = Some attributesType
    ∧ updated =
        filter (λ x, x ≠ attributes) properties
        ++ [f.propertyAssignmentDeclaration "attributes" (CExpression (f.object generated))]
    ∧ (attributes ∉ updated)
    ∧ generated `sublist_of`
        buildGuardsFromType state (getSourceFile state (class_id node)) attributesType.
Proof.
  intros H Hwritten Hobject.
  apply updateAttributeGuards_inv in H
    as (attributesType & omittedGuards & generated & _ & Htype & Homitted & Hfilter & ->).
  rewrite Hwritten, Hobject.
  apply filterGuards_spec in Hfilter as [Hsub _].
  exists attributesType, generated. split; [done|].
  assert (Hfiltered : filter (λ x, Some x ≠ Some attributes) properties
                      = filter (λ x, x ≠ attributes) properties).
  { apply list_filter_iff. intros x. split; congruence. }
  rewrite Hfiltered. split; [done|]. split; [|done].
  rewrite elem_of_app, list_elem_of_filter, list_elem_of_singleton.
  intros [[Hne _] | ->]; [done|]. discriminate Hobject.
Qed.

Lemma other_attributes_are_replaced_witness :
  let state := Examples.stateOf Examples.componentWorld in
  let updated :=
    [Cases.tag;
     f.propertyAssignmentDeclaration "attributes"
       (CExpression (f.object [Cases.guardX]))] in
  updateAttributeGuards state Examples.Sub [Cases.attributesShared; Cases.tag]
    = Ok (Some updated)
  ∧ objectAssignment (Some Cases.attributesShared) = None
  ∧ ∃ attributesType generated,
      declaredAttributesType state Examples.Sub = Some attributesType
      ∧ updated =
          filter (λ x, x ≠ Cases.attributesShared) [Cases.attributesShared; Cases.tag]
          ++ [f.propertyAssignmentDeclaration "attributes"
                (CExpression (f.object generated))]
      ∧ (Cases.attributesShared ∉ updated)
      ∧ generated `sublist_of`
          buildGuardsFromType state (getSourceFile state (class_id Examples.Sub))
            attributesType.
Proof.
  split; [reflexivity|]. split; [reflexivity|].
  exact (other_attributes_are_replaced
           (Examples.stateOf Examples.componentWorld) Examples.Sub
           [Cases.attributesShared; Cases.tag] _ Cases.attributesShared
           eq_refl eq_refl eq_refl).
Defined.

(** ** What a configuration keeps *)

Lemma filter_named_other (s s' : string) (properties : list Node) (x : option Node) :
  s ≠ s' →
  (∀ a, x = Some a → named s' (node_name a) = true) →
  List.filter (λ x, named s (node_name x)) (filter (λ y, Some y ≠ x) properties)
  = List.filter (λ x, named s (node_name x)) properties.
Proof.
  intros Hne Hx. induction properties as [|y properties IH]; [done|].
  rewrite filter_cons. destruct (decide (Some y ≠ x)) as [Hy|Hy]; simpl.
  - by rewrite IH.
  - rewrite IH. apply dec_stable in Hy. specialize (Hx _ (eq_sym Hy)).
    unfold named in *. destruct (node_name y) as [name|]; [|done].
    apply andb_true_iff in Hx as [_ Hx%bool_decide_eq_true].
    rewrite (bool_decide_eq_false_2 (text name = s)) by congruence.
    by rewrite andb_false_r.
Qed.

Lemma writtenAttributes_named properties a :
  writtenAttributes properties = Some a → named "attributes" (node_name a) = true.
Proof. intros H. by apply find_some in H as [_ H]. Qed.

(** The attribute guards leave the properties named [instanceGuard] alone. *)
Lemma updateAttributeGuards_instanceGuards state node properties updated :
  updateAttributeGuards state node properties = Ok updated →
  List.filter (λ x, named "instanceGuard" (node_name x)) (default properties updated)
  = List.filter (λ x, named "instanceGuard" (node_name x)) properties.
Proof.
  destruct updated as [updated|]; [|done]. intros H. simpl.
  apply updateAttributeGuards_inv in H as (?&?& generated &_&_&_&_& ->).
  rewrite List.filter_app, (filter_named_other _ "attributes");
    [|done | apply writtenAttributes_named].
  destruct (objectAssignment _) as [[[attributes name] initializer]|] eqn:Hobject.
  - apply objectAssignment_Some in Hobject as (Hwritten & Hname & _).
    apply writtenAttributes_named in Hwritten. unfold named in Hwritten.
    rewrite Hname in Hwritten.
    apply andb_true_iff in Hwritten as [_ Htext%bool_decide_eq_true].
    simpl. unfold named, node_name. simpl. rewrite Htext.
    by rewrite andb_false_r, app_nil_r.
  - simpl. by rewrite app_nil_r.
Qed.

(** With a guard of the author in the list, [updateInstanceGuard] returns
    nothing. *)
Lemma updateInstanceGuard_custom state node properties updated :
  ¬ noCustomGuard properties →
  updateInstanceGuard state node properties = Ok updated → updated = None.
Proof.
  unfold noCustomGuard, updateInstanceGuard. intros Hcustom H. inv_result.
  destruct (getProperty _ _ _); [|by inv_result].
  destruct (negb _); [by inv_result|].
  destruct (head _); [|by inv_result].
  destruct (List.find _ properties); [by inv_result | done].
Qed.

Lemma find_filter_nil {A} (p : A → bool) (l : list A) :
  List.find p l = None ↔ List.filter p l = [].
Proof.
  induction l as [|x l IH]; simpl; [done|]. by destruct (p x).
Qed.

Lemma updateInstanceGuard_None state node properties :
  ¬ declaredByBaseComponent state node "instance" →
  ∀ updated, updateInstanceGuard state node properties = Ok updated → updated = None.
Proof.
  unfold updateInstanceGuard. intros Hnot updated H. inv_result.
  destruct (getTypeAtLocation _ _) as [type|] eqn:Htype; [|by inv_result].
  simpl in Ha0. injection Ha0 as <-.
  destruct (getProperty _ _ _) as [property|] eqn:Hproperty; [|by inv_result].
  destruct (negb _) eqn:Hparent; [by inv_result|].
  apply negb_false_iff, bool_decide_eq_true in Hparent.
  destruct Hnot. by exists type, a, property.
Qed.

Lemma updateInstanceGuard_no_superclass state node properties updated :
  getSuperClasses state (class_id node) = [] →
  updateInstanceGuard state node properties = Ok updated → updated = None.
Proof.
  unfold updateInstanceGuard. intros Hsuper H. inv_result.
  destruct (getProperty _ _ _); [|by inv_result].
  destruct (negb _); [by inv_result|].
  rewrite Hsuper in H. simpl in H. by inv_result.
Qed.

(** X14. No [instanceGuard] is generated beside one the author wrote, for a
    class without a superclass, or for a class whose [instance] property is
    not the one [BaseComponent] declares: the configuration built for the
    decorator then has the properties named [instanceGuard] of the author's
    object and no other. *)
Theorem no_instance_guard_is_generated state node decorator config result :
  ¬ noCustomGuard (children config)
  ∨ getSuperClasses state (class_id node) = []
  ∨ ¬ declaredByBaseComponent state node "instance" →
  generateFlameworkConfig state node decorator config = Ok result →
  List.filter (λ x, named "instanceGuard" (node_name x)) (children result)
  = List.filter (λ x, named "instanceGuard" (node_name x)) (children config).
Proof.
  intros Hcases H. unfold generateFlameworkConfig in H. inv_result. simpl.
  case_bool_decide; [|by inv_result].
  unfold updateComponentConfig in Ha. inv_result.
  pose proof (updateAttributeGuards_instanceGuards _ _ _ _ Ha0) as Hkept.
  assert (a1 = None) as ->; [|done].
  destruct Hcases as [Hcustom | [Hsuper | Hinstance]].
  - apply updateInstanceGuard_custom in Ha1; [done|].
    unfold noCustomGuard in *. by rewrite find_filter_nil, Hkept, <- find_filter_nil.
  - by apply updateInstanceGuard_no_superclass in Ha1.
  - by apply (updateInstanceGuard_None _ _ _ Hinstance) in Ha1.
Qed.

Lemma no_instance_guard_is_generated_witness :
  let state := Examples.stateOf Examples.componentWorld in
  let result :=
    Cases.config
      [f.propertyAssignmentDeclaration "type" (CString "Component");
       Cases.instanceGuard; Cases.tag;
       f.propertyAssignmentDeclaration "attributes"
         (CExpression (f.object [Cases.guardX]))] in
  ¬ noCustomGuard [Cases.instanceGuard; Cases.tag]
  ∧ generateFlameworkConfig state Examples.Sub Examples.ComponentDecorator
      (Cases.config [Cases.instanceGuard; Cases.tag]) = Ok result
  ∧ List.filter (λ x, named "instanceGuard" (node_name x)) (children result)
    = [Cases.instanceGuard].
Proof.
  assert (H : ¬ noCustomGuard [Cases.instanceGuard; Cases.tag]) by discriminate.
  split; [exact H|]. split; [reflexivity|].
  exact (no_instance_guard_is_generated
           (Examples.stateOf Examples.componentWorld) Examples.Sub
           Examples.ComponentDecorator (Cases.config [Cases.instanceGuard; Cases.tag])
           _ (or_introl H) eq_refl).
Defined.

(** X15. Guards are generated only for what [BaseComponent] declares: when
    neither the [attributes] nor the [instance] property of the class is the
    one of [BaseComponent] (the class has no such property, or declares its
    own), the configuration is the author's object with [type] put first and
    nothing else added, also for the decorator [Component]. *)
Theorem guards_only_for_base_component state node decorator config result :
  ¬ declaredByBaseComponent state node "attributes" →
  ¬ declaredByBaseComponent state node "instance" →
  generateFlameworkConfig state node decorator config = Ok result →
  result = f.update.object config (typeField decorator :: children config).
Proof.
  intros Hattributes Hinstance H. unfold generateFlameworkConfig in H. inv_result.
  case_bool_decide; [|by inv_result].
  unfold updateComponentConfig in Ha. inv_result.
  apply (updateAttributeGuards_None _ _ _ Hattributes) in Ha0 as ->.
  by apply (updateInstanceGuard_None _ _ _ Hinstance) in Ha1 as ->.
Qed.

Lemma guards_only_for_base_component_witness :
  let state := Examples.stateOf Examples.lifecycleWorld in
  ¬ declaredByBaseComponent state (Examples.Timer []) "attributes"
  ∧ ¬ declaredByBaseComponent state (Examples.Timer []) "instance"
  ∧ generateFlameworkConfig state (Examples.Timer []) Examples.ComponentDecorator
      (Cases.config [Cases.tag])
    = Ok (Cases.config
            [f.propertyAssignmentDeclaration "type" (CString "Component"); Cases.tag]).
Proof.
  assert (H : ∀ name,
            ¬ declaredByBaseComponent (Examples.stateOf Examples.lifecycleWorld)
                (Examples.Timer []) name).
  { intros name (type & baseComponent & property & Htype & _ & Hproperty & _).
    vm_compute in Htype. injection Htype as <-. discriminate Hproperty. }
  split; [apply H|]. split; [apply H|].
  destruct (generateFlameworkConfig (Examples.stateOf Examples.lifecycleWorld)
              (Examples.Timer []) Examples.ComponentDecorator (Cases.config [Cases.tag]))
    as [result|e] eqn:Hresult; [|vm_compute in Hresult; discriminate Hresult].
  apply (f_equal Ok).
  exact (guards_only_for_base_component
           (Examples.stateOf Examples.lifecycleWorld) (Examples.Timer [])
           Examples.ComponentDecorator (Cases.config [Cases.tag]) result
           (H "attributes") (H "instance") Hresult).
Defined.

Lemma updateInstanceGuard_inv state node properties updated :
  updateInstanceGuard state node properties = Ok (Some updated) →
  updated = properties
  ∨ ∃ guard, updated = properties ++ [f.propertyAssignmentDeclaration "instanceGuard"
                                        (CExpression guard)].
Proof.
  unfold updateInstanceGuard. intros H. inv_result.
  destruct (getProperty _ _ _); [|by inv_result].
  destruct (negb _); [by inv_result|].
  destruct (head _); [|by inv_result].
  destruct (List.find _ properties); [by inv_result|].
  destruct (getTypeOfSymbolAtLocation _ _ _); [|by inv_result].
  inv_result.
  destruct (getProperty _ _ _); [|by inv_result].
  destruct (getTypeOfSymbolAtLocation _ _ _); [|by inv_result].
  destruct (negb _); inv_result; eauto.
Qed.

Lemma updateAttributeGuards_added state node properties updated :
  updateAttributeGuards state node properties = Ok (Some updated) →
  ∃ attributes,
    updated = filter (λ x, Some x ≠ writtenAttributes properties) properties ++ [attributes]
    ∧ named "attributes" (node_name attributes) = true.
Proof.
  intros H. apply updateAttributeGuards_inv in H as (?&?& generated &_&_&_&_& ->).
  eexists. split; [reflexivity|].
  destruct (objectAssignment _) as [[[attributes name] initializer]|] eqn:Hobject; [|done].
  apply objectAssignment_Some in Hobject as (Hwritten & Hname & _).
  apply writtenAttributes_named in Hwritten. unfold named in Hwritten.
  by rewrite Hname in Hwritten.
Qed.

(** X16. The configuration built for a decorator of the framework is the
    author's object, updated in place: the field [type] with the name of the
    decorator comes first; the properties of the author follow in their
    order, all of them or all but the [attributes] the author wrote; what
    comes after them is at most one property [attributes] and one property
    [instanceGuard], in this order. For a decorator other than [Component]
    nothing is taken out and nothing is added. *)
Theorem configuration_keeps_the_properties state node decorator config result :
  generateFlameworkConfig state node decorator config = Ok result →
  ∃ kept attributes instanceGuard,
    result =
      f.update.object config
        (typeField decorator
         :: kept ++ option_list attributes ++ option_list instanceGuard)
    ∧ (kept = children config
       ∨ kept = filter (λ x, Some x ≠ writtenAttributes (children config))
                  (children config))
    ∧ (∀ x, attributes = Some x → named "attributes" (node_name x) = true)
    ∧ (∀ x, instanceGuard = Some x → named "instanceGuard" (node_name x) = true)
    ∧ (dec_name decorator ≠ "Component" →
       kept = children config ∧ attributes = None ∧ instanceGuard = None).
Proof.
  intros H. unfold generateFlameworkConfig in H. inv_result.
  case_bool_decide as Hcomponent.
  2:{ inv_result. exists (children config), None, None.
      simpl. rewrite app_nil_r. repeat split; auto; done. }
  unfold updateComponentConfig in Ha. inv_result.
  assert (∃ kept attributes,
            default (children config) a0 = kept ++ option_list attributes
            ∧ (kept = children config
               ∨ kept = filter (λ x, Some x ≠ writtenAttributes (children config))
                          (children config))
            ∧ (∀ x, attributes = Some x → named "attributes" (node_name x) = true))
    as (kept & attributes & Hfirst & Hkept & Hattributes).
  { destruct a0 as [updated|]; simpl.
    - apply updateAttributeGuards_added in Ha0 as (attributes & -> & Hnamed).
      eexists _, (Some attributes). split; [done|]. split; [by right|].
      by intros x [= <-].
    - exists (children config), None. rewrite app_nil_r. by repeat split; auto. }
  rewrite Hfirst in *.
  assert (∃ instanceGuard,
            default (kept ++ option_list attributes) a1
            = (kept ++ option_list attributes) ++ option_list instanceGuard
            ∧ (∀ x, instanceGuard = Some x → named "instanceGuard" (node_name x) = true))
    as (instanceGuard & -> & HinstanceGuard).
  { destruct a1 as [updated|]; simpl.
    - apply updateInstanceGuard_inv in Ha1 as [-> | (guard & ->)].
      + exists None. by rewrite app_nil_r.
      + eexists (Some _). split; [done|]. by intros x [= <-].
    - exists None. by rewrite app_nil_r. }
  exists kept, attributes, instanceGuard. rewrite <- app_assoc.
  repeat split; auto; done.
Qed.

Lemma configuration_keeps_the_properties_witness :
  let state := Examples.stateOf Examples.componentWorld in
  ∃ result,
    generateFlameworkConfig state Examples.Sub Examples.ComponentDecorator
      (Cases.config [Cases.attributesY; Cases.tag]) = Ok result
    ∧ ∃ kept attributes instanceGuard,
        result =
          f.update.object (Cases.config [Cases.attributesY; Cases.tag])
            (typeField Examples.ComponentDecorator
             :: kept ++ option_list attributes ++ option_list instanceGuard)
        ∧ (kept = [Cases.attributesY; Cases.tag]
           ∨ kept = filter (λ x, Some x ≠ writtenAttributes [Cases.attributesY; Cases.tag])
                      [Cases.attributesY; Cases.tag])
        ∧ (∀ x, attributes = Some x → named "attributes" (node_name x) = true)
        ∧ (∀ x, instanceGuard = Some x → named "instanceGuard" (node_name x) = true)
        ∧ (dec_name Examples.ComponentDecorator ≠ "Component" →
           kept = [Cases.attributesY; Cases.tag]
           ∧ attributes = None ∧ instanceGuard = None).
Proof.
  intros state.
  destruct (generateFlameworkConfig state Examples.Sub Examples.ComponentDecorator
              (Cases.config [Cases.attributesY; Cases.tag]))
    as [result|e] eqn:H; [|vm_compute in H; discriminate H].
  exists result. split; [reflexivity|].
  exact (configuration_keeps_the_properties state Examples.Sub
           Examples.ComponentDecorator (Cases.config [Cases.attributesY; Cases.tag])
           result H).
Defined.

(** ** Members of a component *)

Lemma deferInitializer_passes state node m x i :
  deferred state x = None →
  deferInitializer state node m x i = Ok (transformNode state x, []).
Proof.
  unfold deferred, deferInitializer.
  destruct x as [id name q ex t [initializer|]| | |]; try done.
  destruct (has_text name); [|done]. simpl.
  by destruct (getTypeAtLocation _ _).
Qed.

Lemma deferInitializer_defers state node m id name q ex t initializer i x' pushed :
  deferred state (PropertyDeclaration id name q ex t (Some initializer)) = Some pushed →
  deferInitializer state node m (PropertyDeclaration id name q ex t (Some initializer)) i
    = Ok x' →
  x'.2 = [pushed]
  ∧ ∃ q' ex' t' i',
      x'.1 = PropertyDeclaration id name q' ex' t' i'
      ∧ ((i' = None ∧ q' = false ∧ ex' = true ∧ is_Some t')
         ∨ (i' = Some (inferCall state node initializer)
            ∧ q' = q ∧ ex' = ex ∧ t = None ∧ t' = None)).
Proof.
  unfold deferred, deferInitializer.
  destruct (has_text name); [|done]. simpl.
  destruct (getTypeAtLocation _ _) as [type|]; [|done]. simpl.
  intros [= <-] H. inv_result. simpl. split; [done|].
  destruct t as [t|]; simpl.
  { do 4 eexists. split; [done|]. left. by repeat split. }
  destruct (getUniversalTypeNode _ _ _); simpl.
  - do 4 eexists. split; [done|]. left. by repeat split.
  - do 4 eexists. split; [done|]. right. by repeat split.
Qed.

(** What [members.map] does with the members, whatever the index map. *)
Lemma mapMembers_deferred state node m i members mapped :
  mapMembers (deferInitializer state node m) i members = Ok mapped →
  mapped.2 = omap (deferred state) members
  ∧ length mapped.1 = length members
  ∧ ∀ k x, members !! k = Some x →
      match deferred state x with
      | None => mapped.1 !! k = Some (transformNode state x)
      | Some (_, initializer) =>
          ∃ id name q ex t q' ex' t' i',
            x = PropertyDeclaration id name q ex t (Some initializer)
            ∧ mapped.1 !! k = Some (PropertyDeclaration id name q' ex' t' i')
            ∧ ((i' = None ∧ q' = false ∧ ex' = true ∧ is_Some t')
               ∨ (i' = Some (inferCall state node initializer)
                  ∧ q' = q ∧ ex' = ex ∧ t = None ∧ t' = None))
      end.
Proof.
  revert i mapped. induction members as [|x members IH]; intros i mapped H; simpl in H.
  - injection H as <-. split; [done|]. split; [done|]. by intros k x ?.
  - inv_result. destruct (IH _ _ Ha0) as (Hpushed & Hlength & Hmembers).
    cbn [fst snd length omap list_omap]. rewrite Hlength, Hpushed.
    destruct (deferred state x) as [pushed|] eqn:Hx.
    + assert (∃ id name q ex t initializer,
                x = PropertyDeclaration id name q ex t (Some initializer)
                ∧ pushed.2 = initializer)
        as (id & name & q & ex & t & initializer & Heq & Hinit).
      { unfold deferred in Hx. destruct x as [id name q ex t [initializer|]| | |]; try done.
        destruct (has_text name); [|done].
        destruct (getTypeAtLocation _ _); [|done]. injection Hx as <-. eauto 10. }
      rewrite Heq in Ha, Hx.
      destruct (deferInitializer_defers _ _ _ _ _ _ _ _ _ _ _ _ Hx Ha)
        as (Hpush & q' & ex' & t' & i' & Hnew & Hcases).
      rewrite Hpush. split; [done|]. split; [done|].
      intros [|k] y Hy; simpl in Hy.
      * injection Hy as <-. rewrite Heq, Hx. destruct pushed as [pname pinit].
        simpl in Hinit. subst pinit. exists id, name, q, ex, t, q', ex', t', i'.
        split; [done|]. split; [by rewrite Hnew|]. done.
      * by apply Hmembers.
    + rewrite deferInitializer_passes in Ha by done. injection Ha as <-.
      split; [done|]. split; [done|].
      intros [|k] y Hy; simpl in Hy.
      * injection Hy as <-. by rewrite Hx.
      * by apply Hmembers.
Qed.

(** X17. When the callback of [members.map] completes on every member of
    the list the rewriter works on, the new list has the members at their
    old places. A field whose initializer is taken keeps its node and its
    name; it is left either without initializer, with the token [!] in place
    of [?] and with a type, or, when no type can be written for it, with the
    call [inferExpression(() => initializer)] as initializer and nothing else
    changed. Every other member is what [state.transformNode] returns. The
    initializers taken are those of these fields, in the order of the
    members. *)
Theorem fields_give_up_their_initializers state node members mapped :
  mapMembers (deferInitializer state node (indexMembers state 0 members ∅)) 0 members
    = Ok mapped →
  mapped.2 = omap (deferred state) members
  ∧ length mapped.1 = length members
  ∧ ∀ k x, members !! k = Some x →
      match deferred state x with
      | None => mapped.1 !! k = Some (transformNode state x)
      | Some (_, initializer) =>
          ∃ id name q ex t q' ex' t' i',
            x = PropertyDeclaration id name q ex t (Some initializer)
            ∧ mapped.1 !! k = Some (PropertyDeclaration id name q' ex' t' i')
            ∧ ((i' = None ∧ q' = false ∧ ex' = true ∧ is_Some t')
               ∨ (i' = Some (inferCall state node initializer)
                  ∧ q' = q ∧ ex' = ex ∧ t = None ∧ t' = None))
      end.
Proof.
  apply mapMembers_deferred.
Qed.

Lemma fields_give_up_their_initializers_witness :
  let state := Examples.stateOf Examples.lifecycleWorld in
  let members := [Examples.c_is_1; Examples.b_uses_c; Examples.onStartMethod] in
  ∃ mapped,
    mapMembers (deferInitializer state (Examples.Timer members)
                  (indexMembers state 0 members ∅)) 0 members = Ok mapped
    ∧ mapped.2 = [("c", Examples.number 232 "1"); ("b", Examples.thisField 225 "c")]
    ∧ length mapped.1 = 3
    ∧ mapped.1 !! 2 = Some Examples.onStartMethod.
Proof.
  intros state members.
  destruct (mapMembers (deferInitializer state (Examples.Timer members)
                          (indexMembers state 0 members ∅)) 0 members)
    as [mapped|e] eqn:H; [|vm_compute in H; discriminate H].
  exists mapped. split; [reflexivity|].
  destruct (fields_give_up_their_initializers state (Examples.Timer members)
              members mapped H)
    as (Hpushed & Hlength & Hmembers).
  split; [exact Hpushed|]. split; [exact Hlength|].
  exact (Hmembers 2 Examples.onStartMethod eq_refl).
Defined.

(** ** The hook of a component *)

(** The member that is found under the name of the hook after the hook was
    put back is the new hook. *)
Lemma hook_replaced (members : list ClassElement) (newOnStart : ClassElement) o x :
  named "onStart" (element_name newOnStart) = true →
  list_find (λ x, named "onStart" (element_name x))
    match list_find (λ x, named "onStart" (element_name x)) members with
    | Some (onStartIndex, _) => <[onStartIndex := newOnStart]> members
    | None => members
    end = Some (o, x) →
  x = newOnStart.
Proof.
  intros Hnamed Hx.
  destruct (list_find _ members) as [[o' x']|] eqn:Ho'.
  - pose proof Ho' as (Hlookup & _ & Hfirst)%list_find_Some.
    apply lookup_lt_Some in Hlookup.
    apply list_find_Some in Hx as (Hx & Hxnamed & Hbefore).
    destruct (decide (o = o')) as [->|Hne].
    + rewrite list_lookup_insert_eq in Hx by done. by injection Hx as <-.
    + rewrite list_lookup_insert_ne in Hx by done.
      destruct (decide (o < o')) as [Hlt|Hge]; [by destruct (Hfirst o x Hx Hlt)|].
      exfalso. apply (Hbefore o' newOnStart); [|lia|].
      * by apply list_lookup_insert_eq.
      * by rewrite Hnamed.
  - by rewrite Hx in Ho'.
Qed.

Lemma rewriteMembers_inv state node members hid hname hbody members' :
  (locateOnStart members).1 = MethodDeclaration hid hname (Some hbody) →
  rewriteMembers state node members = Ok members' →
  let memberList := (locateOnStart members).2 in
  ∃ mapped hoisted,
    mapMembers (deferInitializer state node (indexMembers state 0 memberList ∅))
      0 memberList = Ok mapped
    ∧ match list_find (λ x, f.is_constructor x) mapped.1 with
      | Some (_, constructor) => hoistConstructor state mapped.1 constructor
      | None => Ok (mapped.1, [])
      end = Ok hoisted
    ∧ members' =
        match list_find (λ x, named "onStart" (element_name x)) hoisted.1 with
        | Some (onStartIndex, _) =>
            <[onStartIndex :=
                MethodDeclaration hid hname
                  (Some (f.block ((assignProperty <$> mapped.2)
                                  ++ f.block hoisted.2 :: children hbody)))]> hoisted.1
        | None => hoisted.1
        end.
Proof.
  intros Hhook H memberList. unfold rewriteMembers in H. rewrite Hhook in H.
  fold memberList in H. inv_result. by exists a, a0.
Qed.

(** X18. In a component whose hook is a method with a body, the new body
    of the hook is: one assignment [this.<name> = <initializer>] for every
    field whose initializer was taken, in the order of the members; then one
    block, which holds what was moved out of the constructor and is empty
    when [state.transformNode] returns no constructor for a member; then the
    statements the hook had. *)
Theorem hook_assigns_the_fields_first
    state node decorators hid hname hbody updated :
  existsb isComponent decorators = true →
  (locateOnStart (members node)).1 = MethodDeclaration hid hname (Some hbody) →
  updateClass state node decorators = Ok updated →
  let memberList := (locateOnStart (members node)).2 in
  ∃ members' constructorStatements,
    updated = transform state (f.update.classDeclaration node (class_name node) members')
    ∧ (∀ o x,
         list_find (λ x, named "onStart" (element_name x)) members' = Some (o, x) →
         x = MethodDeclaration hid hname
               (Some (f.block
                        ((assignProperty <$> omap (deferred state) memberList)
                         ++ f.block constructorStatements :: children hbody))))
    ∧ (Forall (λ x, f.is_constructor (transformNode state x) = false) memberList →
       constructorStatements = [] ∧ length members' = length memberList).
Proof.
  intros Hcomponent Hhook H memberList. unfold updateClass in H.
  rewrite Hcomponent in H. inv_result.
  destruct (rewriteMembers_inv _ _ _ _ _ _ _ Hhook Ha)
    as (mapped & hoisted & Hmapped & Hhoisted & ->).
  fold memberList in Hmapped.
  destruct (mapMembers_deferred _ _ _ _ _ _ Hmapped)
    as (Hpushed & Hlength & Hmembers).
  rewrite Hpushed. do 2 eexists. split; [reflexivity|]. split.
  - intros o x Hx. apply hook_replaced in Hx; [done|].
    pose proof (locateOnStart_named (members node)) as Hnamed.
    by rewrite Hhook in Hnamed.
  - intros Hnone.
    assert (Hfind : list_find (λ x, f.is_constructor x) mapped.1 = None).
    { apply list_find_None, Forall_forall. intros x' [k Hk]%list_elem_of_lookup.
      destruct (lookup_lt_is_Some_2 memberList k) as [x Hx];
        [rewrite <- Hlength; by eapply lookup_lt_Some|].
      specialize (Hmembers k x Hx). rewrite Forall_forall in Hnone.
      destruct (deferred state x) as [[pname pinit]|].
      - destruct Hmembers as (?&?&?&?&?&?&?&?&?&_& Hk' &_).
        rewrite Hk in Hk'. injection Hk' as ->. simpl. tauto.
      - rewrite Hk in Hmembers. injection Hmembers as ->.
        rewrite Hnone; [simpl; tauto|]. by eapply list_elem_of_lookup_2. }
    rewrite Hfind in Hhoisted. injection Hhoisted as <-. simpl. split; [reflexivity|].
    rewrite <- Hlength.
    destruct (list_find (λ x, named "onStart" (element_name x)) mapped.1) as [[? ?]|];
      [|done].
    by rewrite length_insert.
Qed.

Lemma hook_assigns_the_fields_first_witness :
  let state := Examples.stateOf Examples.lifecycleWorld in
  let node := Examples.Timer [Examples.c_is_1; Examples.b_uses_c; Examples.onStartMethod] in
  ∃ updated members' constructorStatements,
    updateClass state node [Examples.ComponentDecorator] = Ok updated
    ∧ updated = f.update.classDeclaration node (class_name node) members'
    ∧ (∀ o x,
         list_find (λ x, named "onStart" (element_name x)) members' = Some (o, x) →
         x = MethodDeclaration 250 (Examples.ident 251 "onStart")
               (Some (f.block
                        [assignProperty ("c", Examples.number 232 "1");
                         assignProperty ("b", Examples.thisField 225 "c");
                         f.block constructorStatements])))
    ∧ constructorStatements = [] ∧ length members' = 3.
Proof.
  intros state node.
  destruct (updateClass state node [Examples.ComponentDecorator])
    as [updated|e] eqn:H; [|vm_compute in H; discriminate H].
  destruct (hook_assigns_the_fields_first state node [Examples.ComponentDecorator]
              250 (Examples.ident 251 "onStart") (mkNode 252 Block "" []) updated
              eq_refl eq_refl H)
    as (members' & constructorStatements & Hupdated & Hhook & Hnone).
  exists updated, members', constructorStatements.
  split; [reflexivity|]. split; [exact Hupdated|]. split; [exact Hhook|].
  apply Hnone. repeat constructor.
Defined.

(** ** Classes the rewriter leaves alone *)

(** X19. [updateClass] rewrites the members of a component whose hook is a
    method with a body, and of no other class: without the decorator
    [Component] of the framework, or with a member [onStart] that is not a
    method with a body, the class handed to [state.transform] has the members
    of the source, initializers and constructor included, and no member went
    through [state.transformNode]. *)
Theorem other_classes_keep_their_members state node decorators :
  existsb isComponent decorators = false ∨ ¬ hookIsMethod (members node) →
  updateClass state node decorators =
    Ok (transform state
          (f.update.classDeclaration node (class_name node) (members node))).
Proof.
  intros H. unfold updateClass.
  destruct (existsb isComponent decorators); [|done].
  destruct H as [H | H]; [done|].
  unfold rewriteMembers, hookIsMethod, locateOnStart in *.
  destruct (list_find _ (members node)) as [[i onStart]|]; simpl in *.
  - destruct onStart as [|id name [body|]| |]; try done. destruct H. eauto.
  - destruct H. eauto.
Qed.

Lemma other_classes_keep_their_members_witness :
  let state := Examples.stateOf Examples.metadataWorld in
  existsb isComponent [DecoratorWithNodes "Service" true 51 []] = false
  ∧ updateClass state Examples.Store [DecoratorWithNodes "Service" true 51 []]
    = Ok Examples.Store.
Proof.
  split; [reflexivity|].
  exact (other_classes_keep_their_members
           (Examples.stateOf Examples.metadataWorld) Examples.Store
           [DecoratorWithNodes "Service" true 51 []] (or_introl eq_refl)).
Defined.

(** ** References to the first member *)

(** X20. The member in the first position can be mentioned by every
    initializer, its own included: when every field an initializer mentions
    is declared strictly before the field of that initializer or is the
    first member of the list the rewriter works on, [updateClass] raises no
    diagnostic. *)
Theorem first_member_is_never_reported state node decorators :
  let memberList := (locateOnStart (members node)).2 in
  (∀ i id name q ex t initializer reference symbol j declaring,
     memberList !! i = Some (PropertyDeclaration id name q ex t (Some initializer)) →
     reference ∈ descendants initializer →
     getSymbol state (node_id reference) = Some symbol →
     memberList !! j = Some declaring →
     declaredSymbol state declaring = Some (sym_id symbol) →
     j < i ∨ j = 0) →
  ∀ location message,
    updateClass state node decorators ≠ Err (DiagnosticError location message).
Proof.
  intros memberList Hbefore location message H. unfold updateClass in H.
  apply bind_Err in H as [H | (? & _ & H)]; [|done].
  destruct (existsb isComponent decorators); [|done].
  unfold rewriteMembers in H. fold memberList in H.
  destruct ((locateOnStart (members node)).1) as [|hid hname [hbody|]| |]; try done.
  apply bind_Err in H as [H | (mapped & _ & H)].
  - apply mapMembers_Err in H as (k & x & Hk & Hx). simpl in Hx.
    apply deferInitializer_Err in Hx
      as (id & name & q & ex & t & initializer & type & n & -> & _ & _ & Hn & Hv).
    apply validator_Err in Hv as (_ & symbol & j & Hsymbol & Hj & Hpos & Hle).
    apply indexMembers_lookup_Some in Hj as [Hj | (k' & x' & Hk' & Hx' & ->)].
    + by rewrite lookup_empty in Hj.
    + specialize (Hbefore _ _ _ _ _ _ _ _ _ _ _ Hk Hn Hsymbol Hk' Hx').
      simpl in Hle, Hpos. lia.
  - apply bind_Err in H as [H | (? & _ & H)]; [|done].
    destruct (list_find _ mapped.1) as [[? constructor]|]; [|done].
    by apply hoistConstructor_Err in H as [what [=]].
Qed.

Lemma first_member_is_never_reported_witness :
  let state := Examples.stateOf Examples.lifecycleWorld in
  let node := Examples.Timer [Examples.b_uses_b; Examples.onStartMethod] in
  (∃ reference symbol,
     reference ∈ descendants (Examples.thisField 245 "b")
     ∧ getSymbol state (node_id reference) = Some symbol
     ∧ declaredSymbol state Examples.b_uses_b = Some (sym_id symbol))
  ∧ ∀ location message,
      updateClass state node [Examples.ComponentDecorator]
        ≠ Err (DiagnosticError location message).
Proof.
  split.
  { exists (Examples.ident 247 "b"), (Examples.symbol 42 "b" None [220]).
    split; [simpl; elem_of_list|]. split; reflexivity. }
  apply (first_member_is_never_reported
           (Examples.stateOf Examples.lifecycleWorld)
           (Examples.Timer [Examples.b_uses_b; Examples.onStartMethod])
           [Examples.ComponentDecorator]).
  intros i id name q ex t initializer reference symbol j declaring
         Hi Hreference Hsymbol Hj Hdeclares.
  destruct j as [|[|[|j]]]; simpl in Hj; try discriminate Hj;
    injection Hj as <-; vm_compute in Hdeclares; try discriminate Hdeclares.
  by right.
Defined.

(** ** The parameters of the constructor *)

Lemma bindParameter_name state parameter :
  let bound := bindParameter state parameter in
  kind bound.1.1 = Identifier
  ∧ param_name bound.1.2 = bound.1.1
  ∧ param_type bound.1.2 = param_type parameter
  ∧ param_id bound.1.2 = param_id parameter
  ∧ (if f.is_identifier (Some (param_name parameter))
     then bound.1.1 = param_name parameter ∧ bound.2 = []
     else bound.2 = [f.variableStatement (param_name parameter) bound.1.1]).
Proof.
  unfold bindParameter.
  destruct (f.is_identifier (Some (param_name parameter))) eqn:H; simpl; [|done].
  by apply bool_decide_eq_true in H.
Qed.

Lemma bound_parameters state (parameters : list ParameterDeclaration) :
  let bound := bindParameter state <$> parameters in
  param_name <$> ((λ b, b.1.2) <$> bound) = (λ b, b.1.1) <$> bound
  ∧ param_type <$> ((λ b, b.1.2) <$> bound) = param_type <$> parameters.
Proof.
  induction parameters as [|p parameters IH]; [done|]. cbv zeta in *.
  destruct IH as [IH1 IH2]. rewrite !fmap_cons, IH1, IH2.
  pose proof (bindParameter_name state p) as (_ & H1 & H2 & _). cbv zeta in H1, H2.
  by rewrite H1, H2.
Qed.

Lemma bound_bindings state (parameters : list ParameterDeclaration) (moved : list Node) :
  let bound := bindParameter state <$> parameters in
  (∀ statement, statement ∈ concat ((λ b, b.2) <$> bound) → statement ∈ moved) →
  Forall2 (λ parameter name,
             if f.is_identifier (Some (param_name parameter))
             then name = param_name parameter
             else f.variableStatement (param_name parameter) name ∈ moved)
    parameters ((λ b, b.1.1) <$> bound).
Proof.
  induction parameters as [|p parameters IH]; cbv zeta in *; [constructor|].
  rewrite !fmap_cons. cbn [concat]. intros Hmoved. constructor.
  - pose proof (bindParameter_name state p) as (_ & _ & _ & _ & Hcases).
    cbv zeta in Hcases.
    destruct (f.is_identifier (Some (param_name p))); [by destruct Hcases|].
    apply Hmoved. rewrite Hcases, elem_of_app. left. apply list_elem_of_here.
  - apply IH. intros statement Hin. apply Hmoved. rewrite elem_of_app. by right.
Qed.

(** X21. The parameters make a round trip through the field
    [constructor_parameters], for a constructor that is the first one of the
    members and is rewritten: the field is put first, with the tuple of the
    parameter types as its type; the rewritten constructor has one parameter
    per parameter of the source, each named by an identifier and with its
    type unchanged, and its body ends with the assignment of the array of
    these names to the field; the statements for the hook start with the
    statement that binds the same names, in the same order, to the field. A
    parameter that is an identifier keeps its name; a parameter that is a
    pattern is bound again, from the name that took its place, by a
    statement for the hook. *)
Theorem constructor_parameters_round_trip
    state members k id parameters body members' statements :
  let constructor := ConstructorDeclaration id parameters body in
  let internalProp := f.identifier "constructor_parameters" true in
  list_find (λ x, f.is_constructor x) members = Some (k, constructor) →
  hoistConstructor state members constructor = Ok (members', statements) →
  ∃ names types rewritten newBody moved,
    length names = length parameters
    ∧ Forall (λ name, kind name = Identifier) names
    ∧ Forall2 (λ parameter type, param_type parameter = Some type) parameters types
    ∧ head members'
      = Some (f.propertyDeclaration internalProp None (Some (f.tupleType types)))
    ∧ members' !! S k = Some (ConstructorDeclaration id rewritten (Some (f.block newBody)))
    ∧ param_name <$> rewritten = names
    ∧ param_type <$> rewritten = param_type <$> parameters
    ∧ last newBody = Some (setConstructorParameters internalProp names)
    ∧ statements =
        f.variableStatement (f.arrayBindingDeclaration names)
          (f.fieldOf createThis internalProp) :: moved
    ∧ Forall2 (λ parameter name,
                 if f.is_identifier (Some (param_name parameter))
                 then name = param_name parameter
                 else f.variableStatement (param_name parameter) name ∈ moved)
        parameters names.
Proof.
  intros constructor internalProp Hfind H. unfold hoistConstructor in H.
  unfold constructor in H. inv_result.
  set (bound := bindParameter state <$> parameters).
  set (names := (λ b, b.1.1) <$> bound).
  set (internal := f.propertyDeclaration internalProp None (Some (f.tupleType a))).
  fold constructor.
  erewrite replaceValue_constructor by (exact Hfind || done).
  assert (Hk : S k < length (internal :: members)).
  { apply list_find_Some in Hfind as (Hk & _). apply lookup_lt_Some in Hk. simpl. lia. }
  exists names, a, ((λ b, b.1.2) <$> bound). do 2 eexists.
  split; [unfold names, bound; by rewrite !length_fmap|].
  split.
  { apply Forall_forall. intros name (b & -> & (p & -> & _)%list_elem_of_fmap)%list_elem_of_fmap.
    apply bindParameter_name. }
  split; [apply mapM_Ok_Forall2 in Ha; eapply Forall2_impl; [exact Ha|];
          intros p t Hp; simpl in Hp; unfold deref in Hp;
          destruct (param_type p); [by injection Hp as -> | discriminate]|].
  split; [done|].
  split; [by rewrite list_lookup_insert_eq|].
  split; [exact (proj1 (bound_parameters state parameters))|].
  split; [exact (proj2 (bound_parameters state parameters))|].
  split; [by destruct a0|].
  split; [reflexivity|].
  apply bound_bindings. intros statement Hin. rewrite elem_of_app. by left.
Qed.

Lemma constructor_parameters_round_trip_witness :
  let state := Examples.stateOf Examples.lifecycleWorld in
  let internalProp := f.identifier "constructor_parameters" true in
  ∃ members' statements names rewritten newBody moved,
    hoistConstructor state [Cases.OptionsConstructor] Cases.OptionsConstructor
      = Ok (members', statements)
    ∧ length names = 1
    ∧ members' !! 1 = Some (ConstructorDeclaration 519 rewritten (Some (f.block newBody)))
    ∧ param_name <$> rewritten = names
    ∧ last newBody = Some (setConstructorParameters internalProp names)
    ∧ statements =
        f.variableStatement (f.arrayBindingDeclaration names)
          (f.fieldOf createThis internalProp) :: moved
    ∧ Forall2 (λ parameter name,
                 if f.is_identifier (Some (param_name parameter))
                 then name = param_name parameter
                 else f.variableStatement (param_name parameter) name ∈ moved)
        [Cases.options] names.
Proof.
  intros state internalProp.
  destruct (hoistConstructor state [Cases.OptionsConstructor] Cases.OptionsConstructor)
    as [[members' statements]|e] eqn:H; [|vm_compute in H; discriminate H].
  destruct (constructor_parameters_round_trip state [Cases.OptionsConstructor] 0
              519 [Cases.options] (Some (mkNode 526 Block "" [Examples.readyStatement]))
              members' statements eq_refl H)
    as (names & types & rewritten & newBody & moved
        & Hlength & _ & _ & _ & Hconstructor & Hnames & _ & Hlast & Hstatements & Hbound).
  exists members', statements, names, rewritten, newBody, moved.
  split; [reflexivity|]. split; [exact Hlength|]. split; [exact Hconstructor|].
  split; [exact Hnames|]. split; [exact Hlast|]. split; [exact Hstatements|].
  exact Hbound.
Defined.

(** ** A constructor that does not call [super] *)

Lemma visitNode_None {T} (cb : Node → Node → Result (option T)) current parent :
  (∀ n p, n ∈ current :: descendants current → cb n p = Ok None) →
  visitNode cb parent current = Ok None.
Proof.
  revert parent. induction current as [i k t cs IH] using Node_ind_children.
  intros parent Hcb. simpl.
  rewrite (Hcb (mkNode i k t cs) parent) by apply list_elem_of_here. simpl.
  assert (Hbelow : ∀ n p, n ∈ descendants (mkNode i k t cs) → cb n p = Ok None)
    by (intros n p Hn; apply Hcb; by apply list_elem_of_further).
  clear Hcb. simpl in Hbelow. generalize (mkNode i k t cs). intros current.
  induction IH as [|child rest Hchild _ IHrest]; [done|].
  rewrite Hchild.
  - simpl. apply IHrest. intros n p Hn. apply Hbelow.
    rewrite app_comm_cons, elem_of_app. by right.
  - intros n p Hn. apply Hbelow. rewrite app_comm_cons, elem_of_app. by left.
Qed.

Lemma forEachChildRecursively_None {T} (cb : Node → Node → Result (option T)) root :
  (∀ n p, n ∈ descendants root → cb n p = Ok None) →
  forEachChildRecursively root cb = Ok None.
Proof.
  unfold forEachChildRecursively. destruct root as [i k t cs]. simpl.
  generalize (mkNode i k t cs). intros parent.
  induction cs as [|child rest IH]; intros Hcb; [done|]. simpl visitNodes.
  rewrite visitNode_None.
  - simpl. apply IH. intros n p Hn. apply Hcb.
    rewrite app_comm_cons, elem_of_app. by right.
  - intros n p Hn. apply Hcb. rewrite app_comm_cons, elem_of_app. by left.
Qed.

Lemma filter_all {A} (P : A → Prop) `{∀ x, Decision (P x)} (l : list A) :
  Forall P l → filter P l = l.
Proof.
  induction 1 as [|x l Hx _ IH]; [done|].
  by rewrite filter_cons, decide_True, IH.
Qed.

(** X22. A constructor under which no node is the keyword [super], the
    first one of the members, with a body and typed parameters: its new body
    is the assignment of [constructor_parameters] alone, and every statement
    of its former body goes to the hook, in order, after the statement that
    reads the parameters back and the statements that bind the patterns. *)
Theorem constructor_without_super_is_emptied
    state members k id parameters body members' statements :
  let constructor := ConstructorDeclaration id parameters (Some body) in
  let internalProp := f.identifier "constructor_parameters" true in
  let bound := bindParameter state <$> parameters in
  let parameterNames := (λ b, b.1.1) <$> bound in
  list_find (λ x, f.is_constructor x) members = Some (k, constructor) →
  Forall (λ n, kind n ≠ SuperKeyword) (descendants (constructorNode constructor)) →
  hoistConstructor state members constructor = Ok (members', statements) →
  members' !! S k
    = Some (ConstructorDeclaration id ((λ b, b.1.2) <$> bound)
              (Some (f.block [setConstructorParameters internalProp parameterNames])))
  ∧ statements =
      f.variableStatement (f.arrayBindingDeclaration parameterNames)
        (f.fieldOf createThis internalProp)
      :: concat ((λ b, b.2) <$> bound) ++ children body.
Proof.
  intros constructor internalProp bound parameterNames Hfind Hsuper H.
  assert (HsuperCall : forEachChildRecursively (constructorNode constructor) isSuperCall
                       = Ok None).
  { apply forEachChildRecursively_None. intros n p Hn. unfold isSuperCall.
    rewrite Forall_forall in Hsuper.
    rewrite (bool_decide_eq_false_2 (kind n = SuperKeyword)) by auto.
    by rewrite andb_false_r. }
  unfold constructor in H, HsuperCall, Hfind. unfold hoistConstructor in H.
  rewrite HsuperCall in H. inv_result. cbn [fst snd].
  erewrite replaceValue_constructor by (exact Hfind || done).
  split.
  - apply list_lookup_insert_eq.
    apply list_find_Some in Hfind as (Hk & _). apply lookup_lt_Some in Hk. simpl. lia.
  - injection Ha0 as <-. do 2 f_equal. apply filter_all, Forall_forall. by intros x _.
Qed.

Lemma constructor_without_super_is_emptied_witness :
  let state := Examples.stateOf Examples.lifecycleWorld in
  let binding := f.identifier "binding" true in
  let internalProp := f.identifier "constructor_parameters" true in
  ∃ members' statements,
    hoistConstructor state [Cases.OptionsConstructor] Cases.OptionsConstructor
      = Ok (members', statements)
    ∧ members' !! 1
      = Some (ConstructorDeclaration 519
                [f.update.parameterDeclaration Cases.options binding]
                (Some (f.block [setConstructorParameters internalProp [binding]])))
    ∧ statements =
        [f.variableStatement (f.arrayBindingDeclaration [binding])
           (f.fieldOf createThis internalProp);
         f.variableStatement (param_name Cases.options) binding;
         Examples.readyStatement].
Proof.
  intros state binding internalProp.
  destruct (hoistConstructor state [Cases.OptionsConstructor] Cases.OptionsConstructor)
    as [[members' statements]|e] eqn:H; [|vm_compute in H; discriminate H].
  exists members', statements. split; [reflexivity|].
  apply (constructor_without_super_is_emptied state [Cases.OptionsConstructor] 0
           519 [Cases.options] (mkNode 526 Block "" [Examples.readyStatement])
           members' statements eq_refl); [|exact H].
  repeat constructor; discriminate.
Defined.

(** ** A constructor that starts with the call of [super] *)

Lemma visitNode_unfold {T} (cb : Node → Node → Result (option T)) parent i k t cs :
  visitNode cb parent (mkNode i k t cs) =
    res ← cb (mkNode i k t cs) parent;
    match res with
    | Some r => Ok (Some r)
    | None => visitNodes cb (mkNode i k t cs) cs
    end.
Proof.
  simpl. destruct (cb (mkNode i k t cs) parent) as [[r|]|e]; simpl; try done.
  generalize (mkNode i k t cs). intros current.
  induction cs as [|child rest IH]; [done|]. simpl.
  destruct (visitNode cb current child) as [[r|]|e]; simpl; done.
Qed.

Lemma visitNodes_skip {T} (cb : Node → Node → Result (option T)) parent l1 l2 :
  Forall (λ child, ∀ n p, n ∈ child :: descendants child → cb n p = Ok None) l1 →
  visitNodes cb parent (l1 ++ l2) = visitNodes cb parent l2.
Proof.
  induction 1 as [|child l1 Hchild _ IH]; [done|]. simpl.
  by rewrite visitNode_None.
Qed.

(** The parent found for a node is a node of the tree that has it as a
    child. *)
Lemma parentIn_Some root n p :
  parentIn root n = Some p → p ∈ root :: descendants root ∧ n ∈ children p.
Proof.
  revert p. induction root as [i k t cs IH] using Node_ind_children. intros p.
  simpl. case_bool_decide as Hn.
  - intros [= <-]. split; [apply list_elem_of_here | done].
  - clear Hn. intros Hgo.
    assert (Hin : p ∈ descendants (mkNode i k t cs) ∧ n ∈ children p);
      [|destruct Hin; split; [by apply list_elem_of_further | done]].
    simpl. revert Hgo. induction IH as [|child rest Hchild _ IHrest]; [done|].
    destruct (parentIn child n) as [q|] eqn:Hq.
    + intros [= <-]. destruct (Hchild _ eq_refl) as [Hin ?]. split; [|done].
      rewrite app_comm_cons, elem_of_app. by left.
    + intros Hp. destruct (IHrest Hp) as [Hin ?]. split; [|done].
      rewrite app_comm_cons, elem_of_app. by right.
Qed.

Lemma descendants_children root p n :
  p ∈ root :: descendants root → n ∈ children p → n ∈ descendants root.
Proof.
  revert p. induction root as [i k t cs IH] using Node_ind_children. intros p.
  intros [-> | Hp]%elem_of_cons Hn.
  - simpl in *. clear IH. induction cs as [|child rest IHrest];
      [by apply elem_of_nil in Hn|].
    apply elem_of_cons in Hn as [-> | Hn]; [apply list_elem_of_here|].
    apply list_elem_of_further. rewrite elem_of_app. right. by apply IHrest.
  - simpl in *. revert Hp. induction IH as [|child rest Hchild _ IHrest];
      [by intros ?%elem_of_nil|].
    rewrite !app_comm_cons, !elem_of_app.
    intros [Hp | Hp]; [left | right; by apply IHrest].
    apply list_elem_of_further. by apply (Hchild p).
Qed.

Lemma parentIn_None root n child :
  child ∈ children n →
  child ∉ descendants root →
  parentIn root n = None.
Proof.
  intros Hchild Hnot. destruct (parentIn root n) as [p|] eqn:Hp; [|done].
  apply parentIn_Some in Hp as [Hp Hn].
  destruct Hnot. eapply descendants_children; [|exact Hchild].
  apply list_elem_of_further. by eapply descendants_children.
Qed.

(** The traversal of a constructor whose body starts with the statement
    [super(...)] and whose parameters hold no [super] finds that call, and
    the parent of the call is that statement. *)
Lemma parameters_without_super (parameters : list ParameterDeclaration) :
  Forall (λ parameter,
            Forall (λ n, kind n ≠ SuperKeyword) (descendants (parameterNode parameter)))
    parameters →
  Forall (λ child, ∀ n p, n ∈ child :: descendants child → isSuperCall n p = Ok None)
    (map parameterNode parameters).
Proof.
  induction 1 as [|parameter parameters Hparameter _ IH]; simpl; constructor; [|done].
  intros n p Hn. rewrite Forall_forall in Hparameter. unfold isSuperCall.
  rewrite (bool_decide_eq_false_2 (kind n = SuperKeyword)); [by rewrite andb_false_r|].
  apply elem_of_cons in Hn as [-> | Hn]; [done | by apply Hparameter].
Qed.

Lemma leading_super_found id parameters bid btext sid stext cid ctext
    superKeyword arguments rest :
  let call := mkNode cid CallExpression ctext (superKeyword :: arguments) in
  let superStatement := mkNode sid ExpressionStatement stext [call] in
  let body := mkNode bid Block btext (superStatement :: rest) in
  kind superKeyword = SuperKeyword →
  Forall (λ parameter,
            Forall (λ n, kind n ≠ SuperKeyword) (descendants (parameterNode parameter)))
    parameters →
  forEachChildRecursively
    (constructorNode (ConstructorDeclaration id parameters (Some body))) isSuperCall
  = Ok (Some call).
Proof.
  intros call superStatement body Hsuper Hparameters.
  apply parameters_without_super in Hparameters.
  unfold forEachChildRecursively, constructorNode.
  cbn [children]. rewrite visitNodes_skip by done.
  change (option_list (Some body)) with [body].
  unfold body, superStatement, call. cbn [visitNodes].
  rewrite !visitNode_unfold. cbn [visitNodes]. rewrite !visitNode_unfold.
  cbn [visitNodes]. destruct superKeyword as [ki kk kt kc].
  rewrite visitNode_unfold. simpl in Hsuper. subst kk. reflexivity.
Qed.

Lemma leading_super_parent id parameters bid btext sid stext cid ctext
    superKeyword arguments rest :
  let call := mkNode cid CallExpression ctext (superKeyword :: arguments) in
  let superStatement := mkNode sid ExpressionStatement stext [call] in
  let body := mkNode bid Block btext (superStatement :: rest) in
  kind superKeyword = SuperKeyword →
  Forall (λ parameter,
            Forall (λ n, kind n ≠ SuperKeyword) (descendants (parameterNode parameter)))
    parameters →
  call ∉ rest →
  parentIn (constructorNode (ConstructorDeclaration id parameters (Some body))) call
  = Some superStatement.
Proof.
  intros call superStatement body Hsuper Hparameters Hrest.
  unfold constructorNode.
  change (option_list (Some body)) with [body]. cbn [parentIn].
  rewrite bool_decide_eq_false_2.
  2:{ rewrite elem_of_app, list_elem_of_singleton.
      intros [(p & Hp & _)%list_elem_of_fmap | Hp]; discriminate Hp. }
  induction Hparameters as [|parameter parameters Hparameter _ IH]; cbn [map app].
  - unfold body at 1. cbn [parentIn]. rewrite bool_decide_eq_false_2.
    2:{ intros [Hc | Hc]%elem_of_cons; [discriminate Hc | done]. }
    unfold superStatement at 1. cbn [parentIn].
    rewrite bool_decide_eq_true_2 by apply list_elem_of_here. done.
  - rewrite (parentIn_None (parameterNode parameter) call superKeyword).
    + apply IH.
    + apply list_elem_of_here.
    + intros Hin. rewrite Forall_forall in Hparameter. by apply (Hparameter _ Hin).
Qed.

(** X23. The usual constructor of a component, whose body starts with the
    statement [super(...)] and whose parameters hold no [super]: the new
    body is a statement of that call followed by the assignment of
    [constructor_parameters]; the other statements of the body go to the
    hook, in order, after the statement that reads the parameters back and
    the statements that bind the patterns. *)
Theorem super_call_stays_in_the_constructor
    state members k id parameters bid btext sid stext cid ctext
    superKeyword arguments rest members' statements :
  let call := mkNode cid CallExpression ctext (superKeyword :: arguments) in
  let superStatement := mkNode sid ExpressionStatement stext [call] in
  let body := mkNode bid Block btext (superStatement :: rest) in
  let constructor := ConstructorDeclaration id parameters (Some body) in
  let internalProp := f.identifier "constructor_parameters" true in
  let bound := bindParameter state <$> parameters in
  let parameterNames := (λ b, b.1.1) <$> bound in
  list_find (λ x, f.is_constructor x) members = Some (k, constructor) →
  kind superKeyword = SuperKeyword →
  Forall (λ parameter,
            Forall (λ n, kind n ≠ SuperKeyword) (descendants (parameterNode parameter)))
    parameters →
  call ∉ rest →
  hoistConstructor state members constructor = Ok (members', statements) →
  members' !! S k
    = Some (ConstructorDeclaration id ((λ b, b.1.2) <$> bound)
              (Some (f.block [f.statement call;
                              setConstructorParameters internalProp parameterNames])))
  ∧ statements =
      f.variableStatement (f.arrayBindingDeclaration parameterNames)
        (f.fieldOf createThis internalProp)
      :: concat ((λ b, b.2) <$> bound) ++ filter (λ x, x ≠ superStatement) rest.
Proof.
  intros call superStatement body constructor internalProp bound parameterNames
         Hfind Hsuper Hparameters Hrest H.
  pose proof (leading_super_found id parameters bid btext sid stext cid ctext
                superKeyword arguments rest Hsuper Hparameters) as HsuperCall.
  pose proof (leading_super_parent id parameters bid btext sid stext cid ctext
                superKeyword arguments rest Hsuper Hparameters Hrest) as Hparent.
  cbv zeta in HsuperCall, Hparent. fold call superStatement body in HsuperCall, Hparent.
  unfold constructor in H, Hfind. unfold hoistConstructor in H.
  rewrite HsuperCall in H. inv_result. cbn [fst snd].
  erewrite replaceValue_constructor by (exact Hfind || done).
  split.
  - apply list_lookup_insert_eq.
    apply list_find_Some in Hfind as (Hk & _). apply lookup_lt_Some in Hk. simpl. lia.
  - injection Ha0 as <-. do 2 f_equal.
    unfold constructorNode in Hparent.
    change (option_list (Some body)) with [body] in Hparent. cbn [parentIn] in Hparent.
    rewrite Hparent.
    change (children body) with (superStatement :: rest).
    rewrite (filter_cons _ superStatement rest), decide_False by (by intros []).
    apply list_filter_iff. intros x. split; congruence.
Qed.

Lemma super_call_stays_in_the_constructor_witness :
  let state := Examples.stateOf Examples.lifecycleWorld in
  let db := Examples.ident 261 "db" in
  let internalProp := f.identifier "constructor_parameters" true in
  ∃ members' statements,
    hoistConstructor state [Examples.TimerConstructor] Examples.TimerConstructor
      = Ok (members', statements)
    ∧ members' !! 1
      = Some (ConstructorDeclaration 259 [Examples.param 260 "db" "Database"]
                (Some (f.block
                         [f.statement
                            (mkNode 271 CallExpression "" [mkNode 272 SuperKeyword "" []]);
                          setConstructorParameters internalProp [db]])))
    ∧ statements =
        [f.variableStatement (f.arrayBindingDeclaration [db])
           (f.fieldOf createThis internalProp);
         Examples.readyStatement].
Proof.
  intros state db internalProp.
  destruct (hoistConstructor state [Examples.TimerConstructor] Examples.TimerConstructor)
    as [[members' statements]|e] eqn:H; [|vm_compute in H; discriminate H].
  exists members', statements. split; [reflexivity|].
  apply (super_call_stays_in_the_constructor state [Examples.TimerConstructor] 0
           259 [Examples.param 260 "db" "Database"] 269 "" 270 "" 271 ""
           (mkNode 272 SuperKeyword "" []) [] [Examples.readyStatement]
           members' statements eq_refl eq_refl); [| |exact H].
  - repeat constructor; discriminate.
  - intros Hin. apply list_elem_of_singleton in Hin. discriminate Hin.
Defined.

(** * Omitted guards, the constructor and the decorators record *)

(** ** Omitted attribute guards *)

(** C2 (amended). For a field name present in the attributes of both the
    class and its first superclass, [calculateOmittedGuards] includes the name
    exactly when the checker gives both fields the very same type or the
    author wrote the name as a key of an object literal [attributes: { ... }]
    of the configuration, as an identifier or as a string literal; a key
    written as a number or computed does not count. A field whose type
    differs from the superclass's and whose name the author did not write so
    keeps its generated guard: when the [attributes] property of the class is
    the one [BaseComponent] declares and every built guard has a name, the
    attribute step completes and the guard is in the [attributes] it puts
    last in the configuration; when the property is not the one
    [BaseComponent] declares, the step generates nothing. *)
Theorem omitted_iff_same_type_or_written_by_author
    state node attributes superAttributes name prop superProp :
  DeclaredAttributes state node attributes superAttributes →
  name ∈ sym_name <$> getProperties (typeChecker state) superAttributes →
  getTypeOfPropertyOfType (typeChecker state) attributes name = Some prop →
  getTypeOfPropertyOfType (typeChecker state) superAttributes name = Some superProp →
  (∀ customAttributes, ∃ omittedNames,
     calculateOmittedGuards state node customAttributes = Ok omittedNames
     ∧ (name ∈ omittedNames ↔ superProp = prop ∨ writtenKey customAttributes name))
  ∧ (∀ properties guard guardName,
       superProp ≠ prop →
       ¬ writtenKey (writtenAttributes properties) name →
       guard ∈ buildGuardsFromType state (getSourceFile state (class_id node)) attributes →
       node_name guard = Some guardName → text guardName = name →
       declaredByBaseComponent state node "attributes" →
       Forall (λ guard, is_Some (node_name guard))
         (buildGuardsFromType state (getSourceFile state (class_id node)) attributes) →
       ∃ updated attributesProperty initializer,
         updateAttributeGuards state node properties = Ok (Some updated)
         ∧ last updated = Some attributesProperty
         ∧ node_initializer attributesProperty = Some initializer
         ∧ guard ∈ children initializer)
  ∧ (¬ declaredByBaseComponent state node "attributes" →
     ∀ properties updated,
       updateAttributeGuards state node properties = Ok updated → updated = None).
Proof.
  intros Hdeclared Hin Hprop HsuperProp.
  assert (Hiff : ∀ customAttributes, ∃ omittedNames,
     calculateOmittedGuards state node customAttributes = Ok omittedNames
     ∧ (name ∈ omittedNames ↔ superProp = prop ∨ writtenKey customAttributes name)).
  { intros customAttributes.
    destruct (calculateOmittedGuards_spec state node customAttributes _ _ Hdeclared)
      as (omittedNames & Hcalc & Hspec).
    exists omittedNames. split; [done|].
    rewrite Hspec, customAttributeNames_spec. split.
    - intros [H | (_ & p & H1 & H2)]; [by right | left; congruence].
    - intros [-> | H]; [right; eauto | by left]. }
  split; [exact Hiff|]. split.
  - intros properties guard guardName Hdiff Hnot Hguard Hname Htext Hbase Hnamed.
    destruct (Hiff (writtenAttributes properties)) as (omittedNames & Hcalc & Hspec).
    assert (Hkeep : name ∉ omittedNames) by (rewrite Hspec; tauto).
    destruct (filterGuards_named omittedNames _ Hnamed) as [kept Hkept].
    assert (guard ∈ kept) by (eapply filterGuards_keeps; eauto; by rewrite Htext).
    destruct Hdeclared as (type & property & superClass & superType & superProperty
            & Htype & Hproperty & _ & _ & _ & Hattr & _).
    destruct Hbase as (type' & baseComponent & property' & Htype' & Hsymbol
                       & Hproperty' & Hparent).
    rewrite Htype in Htype'. injection Htype' as <-.
    rewrite Hproperty in Hproperty'. injection Hproperty' as <-.
    unfold updateAttributeGuards. rewrite Hsymbol. simpl. rewrite Htype. simpl.
    rewrite Hproperty, bool_decide_eq_true_2 by done. simpl.
    unfold writtenAttributes in Hcalc. rewrite Hattr, Hcalc. simpl.
    rewrite Hkept. simpl.
    destruct (objectAssignment _) as [[[a aname] initializer]|];
      do 3 eexists; (split; [reflexivity|]); rewrite last_snoc;
      (split; [reflexivity|]); (split; [reflexivity|]); simpl.
    + apply elem_of_app. by right.
    + done.
  - intros Hnot properties updated. by apply updateAttributeGuards_None.
Qed.

Lemma omitted_iff_same_type_or_written_by_author_witness :
  let state := Examples.stateOf Cases.numberedWorld in
  DeclaredAttributes state Examples.Sub 300 301
  ∧ "5" ∈ sym_name <$> getProperties (typeChecker state) 301
  ∧ getTypeOfPropertyOfType (typeChecker state) 300 "5" = Some Examples.literal_t
  ∧ getTypeOfPropertyOfType (typeChecker state) 301 "5" = Some Examples.string_t
  ∧ (∃ omittedNames,
       calculateOmittedGuards state Examples.Sub (Some Cases.attributesNumbered)
         = Ok omittedNames
       ∧ ("5" ∈ omittedNames ↔
            Examples.string_t = Examples.literal_t
            ∨ writtenKey (Some Cases.attributesNumbered) "5"))
  ∧ (∃ updated attributesProperty initializer,
       updateAttributeGuards state Examples.Sub [Cases.attributesNumbered; Cases.tag]
         = Ok (Some updated)
       ∧ last updated = Some attributesProperty
       ∧ node_initializer attributesProperty = Some initializer
       ∧ Cases.guardFive ∈ children initializer).
Proof.
  assert (Hdeclared : DeclaredAttributes (Examples.stateOf Cases.numberedWorld)
                        Examples.Sub 300 301).
  { unfold DeclaredAttributes. do 5 eexists. repeat split; reflexivity. }
  assert (Hin : "5" ∈ sym_name <$>
                  getProperties (typeChecker (Examples.stateOf Cases.numberedWorld)) 301).
  { simpl. apply list_elem_of_here. }
  pose proof (omitted_iff_same_type_or_written_by_author
                (Examples.stateOf Cases.numberedWorld) Examples.Sub 300 301 "5"
                Examples.literal_t Examples.string_t Hdeclared Hin eq_refl eq_refl)
    as (Hiff & Hguard & _).
  split; [exact Hdeclared|]. split; [exact Hin|].
  split; [reflexivity|]. split; [reflexivity|].
  split; [exact (Hiff (Some Cases.attributesNumbered))|].
  apply (Hguard [Cases.attributesNumbered; Cases.tag] Cases.guardFive (f.string "5")).
  - discriminate.
  - intros (a & i & entry & key & Ha & _ & Hi & _ & Hentry & Hkey & Hkind & _).
    vm_compute in Ha. injection Ha as <-.
    vm_compute in Hi. injection Hi as <-.
    apply list_elem_of_singleton in Hentry as ->.
    vm_compute in Hkey. injection Hkey as <-.
    destruct Hkind as [Hkind | Hkind]; discriminate Hkind.
  - apply list_elem_of_here.
  - reflexivity.
  - reflexivity.
  - do 3 eexists. repeat split; reflexivity.
  - repeat constructor; by eexists.
Defined.

(** C2 as stated fails: [Sub] narrows the attribute [x] of [Base], the two
    types are not the same, and yet [x] is omitted once the author writes
    [attributes: { x: myGuard }]. *)
Lemma omitted_only_when_identical_counterexample :
  let state := Examples.stateOf Examples.componentWorld in
  DeclaredAttributes state Examples.Sub 300 301
  ∧ getTypeOfPropertyOfType (typeChecker state) 300 "x" = Some Examples.literal_t
  ∧ getTypeOfPropertyOfType (typeChecker state) 301 "x" = Some Examples.string_t
  ∧ Examples.literal_t ≠ Examples.string_t
  ∧ ∃ omittedNames,
      calculateOmittedGuards state Examples.Sub (Some Examples.customAttributes)
        = Ok omittedNames
      ∧ "x" ∈ omittedNames.
Proof.
  assert (Hdeclared : DeclaredAttributes (Examples.stateOf Examples.componentWorld)
                        Examples.Sub 300 301).
  { unfold DeclaredAttributes. do 5 eexists. repeat split; reflexivity. }
  split; [exact Hdeclared|]. repeat split; try reflexivity; try discriminate.
  destruct (calculateOmittedGuards_spec _ _ (Some Examples.customAttributes) _ _ Hdeclared)
    as (omittedNames & Hcalc & Hspec).
  exists omittedNames. split; [exact Hcalc|]. apply Hspec. left.
  unfold customAttributeNames. simpl. unfold Set_add.
  apply elem_of_union. right. by apply elem_of_singleton.
Qed.

(** ** What the traversal for the call of [super] finds *)

Lemma descendants_child root child n :
  child ∈ children root → n ∈ child :: descendants child → n ∈ descendants root.
Proof.
  intros Hchild [-> | Hn]%elem_of_cons.
  - eapply descendants_children; [apply list_elem_of_here | done].
  - destruct root as [i k t cs]. simpl in *.
    induction cs as [|c rest IH]; [by apply elem_of_nil in Hchild|].
    rewrite app_comm_cons, elem_of_app.
    apply elem_of_cons in Hchild as [<- | Hchild];
      [left; by apply list_elem_of_further | right; by apply IH].
Qed.

(** A result of the traversal is the result of the callback on a node under
    the root and its parent. *)
Lemma visitNode_Some {T} (cb : Node → Node → Result (option T)) parent current r :
  visitNode cb parent current = Ok (Some r) →
  ∃ n p, cb n p = Ok (Some r)
         ∧ ((n = current ∧ p = parent)
            ∨ (p ∈ current :: descendants current ∧ n ∈ children p)).
Proof.
  revert parent. induction current as [i k t cs IH] using Node_ind_children.
  intros parent. rewrite visitNode_unfold.
  destruct (cb (mkNode i k t cs) parent) as [[r'|]|e] eqn:Hcb; simpl; [| |done].
  - intros [= ->]. exists (mkNode i k t cs), parent. split; [done | by left].
  - intros H.
    assert (Hbelow : ∃ n p, cb n p = Ok (Some r)
              ∧ ((n ∈ cs ∧ p = mkNode i k t cs)
                 ∨ ∃ child, child ∈ cs ∧ p ∈ child :: descendants child
                            ∧ n ∈ children p)).
    { revert H. generalize (mkNode i k t cs). intros current. clear Hcb.
      induction IH as [|child rest Hchild _ IHrest]; [done|]. simpl.
      destruct (visitNode cb current child) as [[r'|]|e] eqn:Hvisit; simpl; [| |done].
      - intros [= ->]. destruct (Hchild _ Hvisit) as (n & p & Hn & [[-> ->] | [Hp Hin]]).
        + exists child, current. split; [done|]. left. split; [apply list_elem_of_here | done].
        + exists n, p. split; [done|]. right. exists child.
          split; [apply list_elem_of_here | done].
      - intros (n & p & Hn & [[Hin ->] | (c & Hc & Hp & Hin)])%IHrest.
        + exists n, current. split; [done|]. left. split; [by apply list_elem_of_further | done].
        + exists n, p. split; [done|]. right. exists c.
          split; [by apply list_elem_of_further | done]. }
    destruct Hbelow as (n & p & Hn & [[Hin ->] | (child & Hchild & Hp & Hin)]).
    + exists n, (mkNode i k t cs). split; [done|]. right.
      split; [apply list_elem_of_here | done].
    + exists n, p. split; [done|]. right. split; [|done].
      apply list_elem_of_further.
      by apply (descendants_child (mkNode i k t cs) child).
Qed.

Lemma forEachChildRecursively_Some {T} (cb : Node → Node → Result (option T)) root r :
  forEachChildRecursively root cb = Ok (Some r) →
  ∃ n p, cb n p = Ok (Some r) ∧ p ∈ root :: descendants root ∧ n ∈ children p.
Proof.
  unfold forEachChildRecursively.
  assert (Hgen : ∀ l, (∀ child, child ∈ l → child ∈ children root) →
            visitNodes cb root l = Ok (Some r) →
            ∃ n p, cb n p = Ok (Some r) ∧ p ∈ root :: descendants root ∧ n ∈ children p);
    [|by apply Hgen].
  induction l as [|child rest IH]; intros Hl; [done|]. simpl.
  destruct (visitNode cb root child) as [[r'|]|e] eqn:Hvisit; simpl; [| |done].
  - intros [= ->].
    apply visitNode_Some in Hvisit as (n & p & Hn & [[-> ->] | [Hp Hin]]).
    + exists child, root. split; [done|]. split; [apply list_elem_of_here|].
      apply Hl, list_elem_of_here.
    + exists n, p. split; [done|]. split; [|done]. apply list_elem_of_further.
      apply (descendants_child _ child); [apply Hl, list_elem_of_here | done].
  - apply IH. intros c Hc. by apply Hl, list_elem_of_further.
Qed.

(** Without a result the callback had none on any node under the root. *)
Lemma visitNode_None_inv {T} (cb : Node → Node → Result (option T)) parent current :
  visitNode cb parent current = Ok None →
  cb current parent = Ok None
  ∧ ∀ p n, p ∈ current :: descendants current → n ∈ children p → cb n p = Ok None.
Proof.
  revert parent. induction current as [i k t cs IH] using Node_ind_children.
  intros parent. rewrite visitNode_unfold.
  destruct (cb (mkNode i k t cs) parent) as [[r'|]|e] eqn:Hcb; simpl; [done| |done].
  intros H. split; [done|].
  assert (Hbelow : (∀ n, n ∈ cs → cb n (mkNode i k t cs) = Ok None)
            ∧ ∀ child p n, child ∈ cs → p ∈ child :: descendants child →
                n ∈ children p → cb n p = Ok None).
  { revert H. generalize (mkNode i k t cs). intros current. clear Hcb.
    induction IH as [|child rest Hchild _ IHrest];
      [intros _; split; [by intros ? ?%elem_of_nil | by intros ??? ?%elem_of_nil]|].
    simpl. destruct (visitNode cb current child) as [[r'|]|e] eqn:Hvisit; simpl;
      [done| |done].
    intros [Hrest Hdeep]%IHrest. destruct (Hchild _ Hvisit) as [Hhere Hunder]. split.
    - intros n [-> | Hn]%elem_of_cons; [done | by apply Hrest].
    - intros c p n [-> | Hc]%elem_of_cons Hp Hn; [by apply Hunder | by apply (Hdeep c)]. }
  destruct Hbelow as [Hchildren Hdeep].
  intros p n [-> | Hp]%elem_of_cons Hn; [by apply Hchildren|].
  simpl in Hp. clear -Hp Hn Hdeep.
  induction cs as [|child rest IHrest]; [by apply elem_of_nil in Hp|].
  rewrite app_comm_cons, elem_of_app in Hp. destruct Hp as [Hp | Hp].
  - apply (Hdeep child); [apply list_elem_of_here | done | done].
  - apply IHrest; [|done]. intros c p' n' Hc. apply Hdeep. by apply list_elem_of_further.
Qed.

Lemma forEachChildRecursively_None_inv {T} (cb : Node → Node → Result (option T)) root :
  forEachChildRecursively root cb = Ok None →
  ∀ p n, p ∈ root :: descendants root → n ∈ children p → cb n p = Ok None.
Proof.
  unfold forEachChildRecursively. intros H.
  assert (Hgen : ∀ l, visitNodes cb root l = Ok None →
            (∀ n, n ∈ l → cb n root = Ok None)
            ∧ ∀ child p n, child ∈ l → p ∈ child :: descendants child →
                n ∈ children p → cb n p = Ok None).
  { induction l as [|child rest IH];
      [intros _; split; [by intros ? ?%elem_of_nil | by intros ??? ?%elem_of_nil]|].
    simpl. destruct (visitNode cb root child) as [[r'|]|e] eqn:Hvisit; simpl;
      [done| |done].
    intros [Hrest Hdeep]%IH. apply visitNode_None_inv in Hvisit as [Hhere Hunder]. split.
    - intros n [-> | Hn]%elem_of_cons; [done | by apply Hrest].
    - intros c p n [-> | Hc]%elem_of_cons Hp Hn; [by apply Hunder | by apply (Hdeep c)]. }
  destruct (Hgen _ H) as [Hchildren Hdeep].
  intros p n [-> | Hp]%elem_of_cons Hn; [by apply Hchildren|].
  destruct root as [i k t cs]. simpl in *. clear -Hp Hn Hdeep.
  induction cs as [|child rest IHrest]; [by apply elem_of_nil in Hp|].
  rewrite app_comm_cons, elem_of_app in Hp. destruct Hp as [Hp | Hp].
  - apply (Hdeep child); [apply list_elem_of_here | done | done].
  - apply IHrest; [|done]. intros c p' n' Hc. apply Hdeep. by apply list_elem_of_further.
Qed.

(** Every node under the root has a parent in the tree. *)
Lemma parentIn_complete root n :
  n ∈ descendants root → is_Some (parentIn root n).
Proof.
  induction root as [i k t cs IH] using Node_ind_children. simpl.
  case_bool_decide as Hn; [by eexists|]. intros Hin.
  assert (Hbelow : ∃ child, child ∈ cs ∧ n ∈ descendants child).
  { clear IH. induction cs as [|child rest IHrest]; [by apply elem_of_nil in Hin|].
    rewrite app_comm_cons, elem_of_app in Hin.
    destruct Hin as [[-> | Hin]%elem_of_cons | Hin].
    - destruct Hn. apply list_elem_of_here.
    - exists child. split; [apply list_elem_of_here | done].
    - destruct IHrest as (c & Hc & Hunder); [|done|].
      + intros Hrest. apply Hn. by apply list_elem_of_further.
      + exists c. split; [by apply list_elem_of_further | done]. }
  clear Hin Hn. destruct Hbelow as (child & Hchild & Hunder).
  induction IH as [|c rest Hc _ IHrest]; [by apply elem_of_nil in Hchild|].
  destruct (parentIn c n) as [p|] eqn:Hp; [by eexists|].
  apply elem_of_cons in Hchild as [-> | Hchild]; [|by apply IHrest].
  destruct (Hc Hunder) as [p' Hp']. congruence.
Qed.

(** ** The constructor of a component *)

(** C6 (amended). For a component whose hook is a method with a body, whose
    fields raise no diagnostic and whose first constructor has a body and
    typed parameters, the rewritten constructor keeps its place, one position
    later because of the field [constructor_parameters] put first; its body
    is the statement of the call of [super] when the traversal finds one,
    followed by the assignment of [constructor_parameters], and nothing else.
    The statements of the former body go to a block of the hook, after the
    statement that reads the parameters back and the bindings of destructured
    parameters, in their order and without the statements equal to one
    excluded node. That node is the parent of the call that was found: a call
    expression under the constructor with the keyword [super] as a child.
    Without such a call no statement is excluded. When the body starts with
    the statement [super(...)] and the parameters hold no [super], that
    statement is the one excluded. When the call is not the expression of a
    statement of the body, no statement is excluded: the statement that holds
    the call is moved with the others, while the constructor has a statement
    of the call as well. *)
Theorem constructor_body_moves_to_hook state node decorators
    hid hname hbody mapped k id parameters body types :
  existsb isComponent decorators = true →
  (locateOnStart (members node)).1 = MethodDeclaration hid hname (Some hbody) →
  let memberList := (locateOnStart (members node)).2 in
  mapMembers (deferInitializer state node (indexMembers state 0 memberList ∅))
    0 memberList = Ok mapped →
  list_find (λ x, f.is_constructor x) mapped.1
    = Some (k, ConstructorDeclaration id parameters (Some body)) →
  mapM (λ x, deref "x.type" (param_type x)) parameters = Ok types →
  let constructor := ConstructorDeclaration id parameters (Some body) in
  let root := constructorNode constructor in
  let internalProp := f.identifier "constructor_parameters" true in
  let bound := bindParameter state <$> parameters in
  let parameterNames := (λ b, b.1.1) <$> bound in
  let assignment := setConstructorParameters internalProp parameterNames in
  ∃ superCall excluded members',
    updateClass state node decorators =
      Ok (transform state (f.update.classDeclaration node (class_name node) members'))
    ∧ members' !! S k =
        Some (ConstructorDeclaration id ((λ b, b.1.2) <$> bound)
                (Some (f.block
                         match superCall with
                         | Some call => [f.statement call; assignment]
                         | None => [assignment]
                         end)))
    ∧ (∀ o x,
         list_find (λ x, named "onStart" (element_name x)) members' = Some (o, x) →
         x = MethodDeclaration hid hname
               (Some (f.block
                        ((assignProperty <$> mapped.2)
                         ++ f.block
                              (f.variableStatement
                                 (f.arrayBindingDeclaration parameterNames)
                                 (f.fieldOf createThis internalProp)
                               :: concat ((λ b, b.2) <$> bound)
                               ++ filter (λ x, Some x ≠ excluded) (children body))
                         :: children hbody))))
    ∧ match superCall with
      | Some call =>
          kind call = CallExpression
          ∧ (∃ keyword, keyword ∈ children call ∧ kind keyword = SuperKeyword)
          ∧ call ∈ descendants root
          ∧ ∃ parent,
              excluded = Some parent
              ∧ parent ∈ root :: descendants root
              ∧ call ∈ children parent
      | None =>
          excluded = None
          ∧ ∀ parent keyword,
              parent ∈ root :: descendants root → keyword ∈ children parent →
              kind keyword = SuperKeyword → kind parent ≠ CallExpression
      end
    ∧ (∀ call,
         superCall = Some call →
         (∀ x, x ∈ children body → call ∉ children x) →
         filter (λ x, Some x ≠ excluded) (children body) = children body)
    ∧ (∀ bid btext sid stext cid ctext superKeyword arguments rest,
         let call := mkNode cid CallExpression ctext (superKeyword :: arguments) in
         let superStatement := mkNode sid ExpressionStatement stext [call] in
         body = mkNode bid Block btext (superStatement :: rest) →
         kind superKeyword = SuperKeyword →
         Forall (λ parameter,
                   Forall (λ n, kind n ≠ SuperKeyword)
                     (descendants (parameterNode parameter)))
           parameters →
         call ∉ rest →
         superCall = Some call
         ∧ excluded = Some superStatement
         ∧ filter (λ x, Some x ≠ excluded) (children body)
           = filter (λ x, x ≠ superStatement) rest).
Proof.
  intros Hcomponent Hhook memberList Hmap Hfind Htypes
         constructor root internalProp bound parameterNames assignment.
  destruct (forEachChildRecursively_total isSuperCall root)
    as [superCall HsuperCall]; [intros n p; unfold isSuperCall; eauto|].
  set (excluded := superCall ≫= parentIn root).
  set (newConstructor :=
         ConstructorDeclaration id ((λ b, b.1.2) <$> bound)
           (Some (f.block
                    match superCall with
                    | Some call => [f.statement call; assignment]
                    | None => [assignment]
                    end))).
  set (internal := f.propertyDeclaration internalProp None (Some (f.tupleType types))).
  set (hoisted := <[S k := newConstructor]> (internal :: mapped.1)).
  set (newOnStart :=
         MethodDeclaration hid hname
           (Some (f.block
                    ((assignProperty <$> mapped.2)
                     ++ f.block
                          (f.variableStatement
                             (f.arrayBindingDeclaration parameterNames)
                             (f.fieldOf createThis internalProp)
                           :: concat ((λ b, b.2) <$> bound)
                           ++ filter (λ x, Some x ≠ excluded) (children body))
                     :: children hbody)))).
  set (members' :=
         match list_find (λ x, named "onStart" (element_name x)) hoisted with
         | Some (o, _) => <[o := newOnStart]> hoisted
         | None => hoisted
         end).
  assert (Hk : S k < length (internal :: mapped.1)).
  { apply list_find_Some in Hfind as (Hk & _). apply lookup_lt_Some in Hk. simpl. lia. }
  assert (Hhoisted : hoisted !! S k = Some newConstructor)
    by (by apply list_lookup_insert_eq).
  assert (Hfound : match superCall with
            | Some call =>
                kind call = CallExpression
                ∧ (∃ keyword, keyword ∈ children call ∧ kind keyword = SuperKeyword)
                ∧ call ∈ descendants root
                ∧ ∃ parent,
                    excluded = Some parent
                    ∧ parent ∈ root :: descendants root
                    ∧ call ∈ children parent
            | None =>
                excluded = None
                ∧ ∀ parent keyword,
                    parent ∈ root :: descendants root → keyword ∈ children parent →
                    kind keyword = SuperKeyword → kind parent ≠ CallExpression
            end).
  { destruct superCall as [call|].
    - apply forEachChildRecursively_Some in HsuperCall
        as (keyword & p & Hcb & Hp & Hkeyword).
      unfold isSuperCall, f.is_call, f.is_kind in Hcb.
      do 2 case_bool_decide; simpl in Hcb; try discriminate Hcb.
      injection Hcb as ->.
      assert (Hunder : call ∈ descendants root).
      { apply elem_of_cons in Hp as [-> | Hp]; [discriminate | done]. }
      split; [done|]. split; [by exists keyword|]. split; [done|].
      destruct (parentIn_complete root call Hunder) as [parent Hparent].
      exists parent. split; [exact Hparent|]. by apply parentIn_Some.
    - split; [done|]. intros parent keyword Hparent Hkeyword Hkind Hcall.
      pose proof (forEachChildRecursively_None_inv _ _ HsuperCall
                    parent keyword Hparent Hkeyword) as Hcb.
      unfold isSuperCall, f.is_call, f.is_kind in Hcb.
      by rewrite !bool_decide_eq_true_2 in Hcb. }
  exists superCall, excluded, members'.
  split; [|split; [|split; [|split; [exact Hfound|split]]]].
  - unfold updateClass. rewrite Hcomponent. unfold rewriteMembers.
    rewrite Hhook. fold memberList. rewrite Hmap.
    unfold mbind, Result_bind. cbv beta iota zeta. rewrite Hfind.
    unfold hoistConstructor. rewrite Htypes.
    unfold mbind, Result_bind. cbv beta iota zeta.
    fold constructor. fold root. rewrite HsuperCall. unfold deref. cbv beta iota.
    erewrite replaceValue_constructor by (exact Hfind || done).
    done.
  - unfold members'.
    destruct (list_find _ hoisted) as [[o x]|] eqn:Ho; [|done].
    apply list_find_Some in Ho as (Ho & Hnamed & _).
    destruct (decide (o = S k)) as [->|Hne].
    + rewrite Hhoisted in Ho. injection Ho as <-. done.
    + by rewrite list_lookup_insert_ne.
  - intros o x Hx. apply hook_replaced in Hx; [done|].
    pose proof (locateOnStart_named (members node)) as Hnamed.
    by rewrite Hhook in Hnamed.
  - intros call -> Hnested.
    destruct Hfound as (_ & _ & _ & parent & -> & _ & Hchild).
    apply filter_all, Forall_forall. intros x Hx [= ->]. by apply (Hnested parent).
  - intros bid btext sid stext cid ctext superKeyword arguments rest call superStatement
           -> Hsuper Hparameters Hrest.
    pose proof (leading_super_found id parameters bid btext sid stext cid ctext
                  superKeyword arguments rest Hsuper Hparameters) as Hcall.
    pose proof (leading_super_parent id parameters bid btext sid stext cid ctext
                  superKeyword arguments rest Hsuper Hparameters Hrest) as Hparent.
    cbv zeta in Hcall, Hparent. fold call superStatement in Hcall, Hparent.
    unfold root, constructor in HsuperCall. rewrite Hcall in HsuperCall.
    injection HsuperCall as <-.
    assert (Hexcluded : excluded = Some superStatement) by exact Hparent.
    split; [done|]. split; [done|]. rewrite Hexcluded.
    change (children (mkNode bid Block btext (superStatement :: rest)))
      with (superStatement :: rest).
    rewrite (filter_cons _ superStatement rest), decide_False by (by intros []).
    apply list_filter_iff. intros x. split; congruence.
Qed.

Lemma constructor_body_moves_to_hook_witness :
  let state := Examples.stateOf Examples.lifecycleWorld in
  let internalProp := f.identifier "constructor_parameters" true in
  let db := Examples.ident 261 "db" in
  let call := mkNode 271 CallExpression "" [mkNode 272 SuperKeyword "" []] in
  ∃ updated,
    updateClass state (Examples.Timer [Examples.TimerConstructor])
      [Examples.ComponentDecorator] = Ok updated
    ∧ members updated !! 2 =
        Some (ConstructorDeclaration 259 [Examples.param 260 "db" "Database"]
                (Some (f.block [f.statement call;
                                setConstructorParameters internalProp [db]])))
    ∧ ∀ o x,
        list_find (λ x, named "onStart" (element_name x)) (members updated) = Some (o, x) →
        x = MethodDeclaration synthesized (f.identifier "onStart" false)
              (Some (f.block
                       [f.block
                          [f.variableStatement (f.arrayBindingDeclaration [db])
                             (f.fieldOf createThis internalProp);
                           Examples.readyStatement]])).
Proof.
  destruct (constructor_body_moves_to_hook
              (Examples.stateOf Examples.lifecycleWorld)
              (Examples.Timer [Examples.TimerConstructor])
              [Examples.ComponentDecorator]
              synthesized (f.identifier "onStart" false) (f.block [])
              ([f.methodDeclaration "onStart" (f.block []); Examples.TimerConstructor], [])
              1 259 [Examples.param 260 "db" "Database"]
              (mkNode 269 Block "" [Examples.superStatement; Examples.readyStatement])
              [Examples.typeRef 262 "Database"]
              eq_refl eq_refl eq_refl eq_refl eq_refl)
    as (superCall & excluded & members' & Hupdate & Hconstructor & Hhook & _ & _ & Hleading).
  destruct (Hleading 269 "" 270 "" 271 "" (mkNode 272 SuperKeyword "" []) []
              [Examples.readyStatement] eq_refl eq_refl)
    as (-> & -> & _).
  - repeat constructor; discriminate.
  - intros Hin. apply list_elem_of_singleton in Hin. discriminate Hin.
  - eexists. split; [exact Hupdate|]. split; [exact Hconstructor|].
    intros o x Hx. exact (Hhook o x Hx).
Defined.

(** C6 as stated fails. The constructor
    [constructor(db: Database) { super(); this.ready(db); }] is rewritten to
    the body [super(); this.constructor_parameters = [db];]: the statement
    [this.ready(db)] is not in it, it is in the block of the hook, after the
    statement that reads the parameters back. And for
    [constructor(db: Database) { super(db).go(); this.ready(db); }] the
    statement that holds the call is not excluded: it is moved to the hook,
    and the constructor calls [super(db)] as well. *)
Lemma constructor_body_keeps_statements_counterexample :
  let state := Examples.stateOf Examples.lifecycleWorld in
  let internalProp := f.identifier "constructor_parameters" true in
  let db := Examples.ident 261 "db" in
  let readBack :=
    f.variableStatement (f.arrayBindingDeclaration [db])
      (f.fieldOf createThis internalProp) in
  (∃ updated parameters newBody,
     updateClass state (Examples.Timer [Examples.TimerConstructor])
       [Examples.ComponentDecorator] = Ok updated
     ∧ members updated !! 2 = Some (ConstructorDeclaration 259 parameters (Some newBody))
     ∧ children newBody =
         [f.statement (mkNode 271 CallExpression "" [mkNode 272 SuperKeyword "" []]);
          setConstructorParameters internalProp [db]]
     ∧ (Examples.readyStatement ∉ children newBody)
     ∧ members updated !! 1 =
         Some (MethodDeclaration synthesized (f.identifier "onStart" false)
                 (Some (f.block [f.block [readBack; Examples.readyStatement]]))))
  ∧ (∃ updated parameters,
       updateClass state (Examples.Timer [Cases.NestedConstructor])
         [Examples.ComponentDecorator] = Ok updated
       ∧ members updated !! 2 =
           Some (ConstructorDeclaration 259 parameters
                   (Some (f.block [f.statement Cases.nestedCall;
                                   setConstructorParameters internalProp [db]])))
       ∧ members updated !! 1 =
           Some (MethodDeclaration synthesized (f.identifier "onStart" false)
                   (Some (f.block
                            [f.block [readBack; Cases.nestedStatement;
                                      Examples.readyStatement]])))).
Proof.
  split.
  - do 3 eexists. split; [vm_compute; reflexivity|].
    split; [reflexivity|]. split; [reflexivity|]. split; [|reflexivity].
    intros H. elem_of_cases H; discriminate H.
  - do 2 eexists. split; [vm_compute; reflexivity|]. split; reflexivity.
Qed.

(** ** The records that are always there *)

(** Every statement of the output registers one of the fields. *)
Lemma emitFields_elem state node name fields s :
  s ∈ emitFields state node name fields →
  ∃ field,
    field ∈ fields
    ∧ metadataKey s = Some field.1
    ∧ metadataValue s = Some (f.toExpression field.2).
Proof.
  intros [i Hi]%list_elem_of_lookup.
  destruct (fields !! i) as [field|] eqn:Hfield.
  - destruct (emitFields_lookup state node name fields i field Hfield)
      as (s' & Hs' & Hkey & Hvalue & _).
    rewrite Hi in Hs'. injection Hs' as <-.
    exists field. split; [by eapply list_elem_of_lookup_2 | done].
  - exfalso. apply lookup_lt_Some in Hi. apply lookup_ge_None in Hfield.
    assert (length (emitFields state node name fields) = length fields); [|lia].
    unfold emitFields, withLeadingComment.
    destruct fields as [|first fields]; [done|]. simpl. by rewrite !length_fmap.
Qed.

Lemma toExpression_strings (l : list string) :
  f.toExpression (CArray (CString <$> l)) = f.array (f.string <$> l) true.
Proof.
  simpl. f_equal. induction l as [|x l IH]; [done|].
  rewrite !fmap_cons. simpl. by rewrite <- IH.
Qed.

(** C10. In either revision, a class with a symbol, a name and class
    information that the transformer completes on gets a statement
    [Reflect.defineMetadata(<class name>, "flamework:decorators", [...])]
    among the statements returned, after the identifier and the external
    flag and after the optional records: its list holds the identifier of
    every decorator with nodes, in order, and is empty when there is none,
    and every statement under that key registers that list. A statement that
    registers [flamework:dependencies] or [flamework:implements] among them
    always registers a list that is not empty. *)
Theorem decorators_record_is_always_emitted
    transformer state node symbol name classInfo result :
  transformer ∈ revisions →
  getSymbol state (class_id node) = Some symbol →
  class_name node = Some name →
  classes state !! sym_id symbol = Some classInfo →
  transformer state node = Ok result →
  let uids := decoratorUid state <$> List.filter isWithNodes (decorators classInfo) in
  ∃ updated realFields,
    result = VisitedNodes updated realFields
    ∧ (∃ i s,
         2 ≤ i ≤ 4
         ∧ realFields !! i = Some s
         ∧ kind (statement s) = ExpressionStatement
         ∧ metadataCallee s = Some (defineMetadataOf state node)
         ∧ metadataTarget s = Some name
         ∧ metadataKey s = Some "flamework:decorators"
         ∧ metadataValue s = Some (f.array (f.string <$> uids) true))
    ∧ (∀ s, s ∈ realFields → metadataKey s = Some "flamework:decorators" →
         metadataValue s = Some (f.array (f.string <$> uids) true))
    ∧ (∀ s, s ∈ realFields → metadataKey s = Some "flamework:dependencies" →
         ∃ dependencies : list string,
           dependencies ≠ []
           ∧ metadataValue s = Some (f.array (f.string <$> dependencies) true))
    ∧ (∀ s, s ∈ realFields → metadataKey s = Some "flamework:implements" →
         ∃ clauses : list Node,
           clauses ≠ [] ∧ metadataValue s = Some (f.array clauses false)).
Proof.
  intros Hrev Hsymbol Hname Hinfo H uids.
  destruct (revision_processed _ _ _ _ _ _ _ Hrev Hsymbol Hname Hinfo H)
    as (updated & deps & impl & ids & configs & -> & Hdeps & Himpl & _ & Hdecorators).
  apply collectDecorators_spec in Hdecorators as (-> & _ & _).
  apply dependenciesField_shape in Hdeps.
  set (base := [("identifier", CString (getUid state (class_id node)));
                ("flamework:isExternal", CBoolean (isExternal classInfo))]).
  set (fields := base ++ deps ++ impl ++ decoratorFields uids configs).
  assert (Hoptional : ∀ key value,
            key ∈ ["flamework:dependencies"; "flamework:implements"] →
            (key, value) ∈ fields → (key, value) ∈ deps ++ impl).
  { intros key value Hkey Hin. by apply optional_record_in in Hin. }
  assert (Hlist : ∀ field, field ∈ fields → field.1 = "flamework:decorators" →
            field.2 = CArray (CString <$> uids)).
  { intros [key value] Hin Hkey. simpl in Hkey. subst key. unfold fields in Hin.
    rewrite !elem_of_app in Hin. destruct Hin as [Hin | [Hin | [Hin | Hin]]].
    - unfold base in Hin. elem_of_cases Hin; discriminate Hin.
    - by apply (optionalRecord_in _ _ _ _ _ Hdeps) in Hin as [? _].
    - by apply (optionalRecord_in _ _ _ _ _ Himpl) in Hin as [? _].
    - unfold decoratorFields in Hin.
      apply elem_of_cons in Hin as [Hin | ([id config] & Hin & _)%list_elem_of_fmap].
      + by injection Hin as <-.
      + simpl in Hin. discriminate Hin. }
  exists updated, (emitFields state node name fields).
  split; [reflexivity|]. split; [|split; [|split]].
  - set (i := 2 + length deps + length impl).
    assert (Hfield : fields !! i = Some ("flamework:decorators", CArray (CString <$> uids))).
    { unfold fields, i, base.
      destruct Hdeps as [-> | (? & -> & _)]; destruct Himpl as [-> | (? & -> & _)];
        reflexivity. }
    destruct (emitFields_lookup state node name fields i _ Hfield)
      as (s & Hs & Hkey & Hvalue & _).
    exists i, s. split.
    { unfold i. destruct Hdeps as [-> | (? & -> & _)];
        destruct Himpl as [-> | (? & -> & _)]; simpl; lia. }
    split; [exact Hs|].
    destruct (emitFields_statement state node name fields s)
      as (Hkind & Hcallee & Htarget); [by eapply list_elem_of_lookup_2|].
    split; [done|]. split; [done|]. split; [done|]. split; [done|].
    by rewrite Hvalue, <- toExpression_strings.
  - intros s (field & Hin & Hkey & Hvalue)%emitFields_elem Hs.
    rewrite Hs in Hkey. injection Hkey as Hkey.
    rewrite Hvalue, (Hlist field Hin) by done. by rewrite toExpression_strings.
  - intros s ([key value] & Hin & Hkey & Hvalue)%emitFields_elem Hs.
    rewrite Hs in Hkey. injection Hkey as <-. simpl in Hvalue.
    apply Hoptional in Hin; [|elem_of_list].
    apply elem_of_app in Hin as [Hin | Hin].
    + apply (optionalRecord_in _ _ _ _ _ Hdeps) in Hin as [_ (l & Hl & ->)].
      exists l. split; [done|]. by rewrite Hvalue, toExpression_strings.
    + by apply (optionalRecord_in _ _ _ _ _ Himpl) in Hin as [? _].
  - intros s ([key value] & Hin & Hkey & Hvalue)%emitFields_elem Hs.
    rewrite Hs in Hkey. injection Hkey as <-. simpl in Hvalue.
    apply Hoptional in Hin; [|elem_of_list].
    apply elem_of_app in Hin as [Hin | Hin].
    + by apply (optionalRecord_in _ _ _ _ _ Hdeps) in Hin as [? _].
    + apply (optionalRecord_in _ _ _ _ _ Himpl) in Hin as [_ (l & Hl & ->)].
      exists l. split; [done|]. by rewrite Hvalue.
Qed.

Lemma decorators_record_is_always_emitted_witness :
  let state := Examples.stateOf Examples.metadataWorld in
  getSymbol state (class_id Examples.Plain) = Some (Examples.symbol 33 "Plain" None [130])
  ∧ class_name Examples.Plain = Some (Examples.ident 131 "Plain")
  ∧ classes state !! 33 =
      Some {| isExternal := true; decorators := [BaseDecoratorInfo "Service" true] |}
  ∧ ∃ updated realFields s,
      transformClassDeclaration state Examples.Plain = Ok (VisitedNodes updated realFields)
      ∧ length realFields = 3
      ∧ realFields !! 2 = Some s
      ∧ metadataTarget s = Some (Examples.ident 131 "Plain")
      ∧ metadataKey s = Some "flamework:decorators"
      ∧ metadataValue s = Some (f.array [] true).
Proof.
  intros state.
  split; [reflexivity|]. split; [reflexivity|]. split; [reflexivity|].
  destruct (transformClassDeclaration state Examples.Plain) as [result|e] eqn:H;
    [|vm_compute in H; discriminate H].
  destruct (decorators_record_is_always_emitted transformClassDeclaration
              state Examples.Plain
              (Examples.symbol 33 "Plain" None [130]) (Examples.ident 131 "Plain")
              {| isExternal := true; decorators := [BaseDecoratorInfo "Service" true] |}
              result (list_elem_of_here _ _) eq_refl eq_refl eq_refl H)
    as (updated & realFields & -> & (i & s & Hi & Hs & _ & _ & Htarget & Hkey & Hvalue) & _).
  assert (Hlength : length realFields = 3) by (vm_compute in H; by injection H as <- <-).
  exists updated, realFields, s. split; [reflexivity|]. split; [exact Hlength|].
  apply lookup_lt_Some in Hs as Hlt.
  replace i with 2 in Hs by lia. done.
Defined.

